(** * Electrum server interface: a shallow embedding of [electrum/interface.py]

    The development follows the layout of the Python module:
    - [Py]         : exceptions and the error monad of fallible code;
    - [Seq]        : Python slices, [rfind] and repetition on byte strings;
    - [Transport]  : [PaddedRSTransport] (padding of outgoing packets);
    - [Val]        : the values decoded from JSON, with binary64 floats;
    - [Util]       : the validation predicates imported from [electrum.util];
    - [Iface]      : [Interface] (response validation, typed requests, the
                     in-flight chunk markers, the binary search of the fork
                     point);
    - [Addr]       : [ServerAddr];
    - [Session]    : [NotificationSession] (the subscription registry).

    Code that awaits a reply is written in a state-and-exception monad over
    the interface object and the rest of the program; what happens during an
    [await] (the server's answer, the work of the other tasks) is a parameter
    of the development. *)

From Stdlib Require Import ZArith List String Ascii QArith Lia Bool.
From Stdlib Require Import Decimal DecimalString DecimalPos.
From Stdlib.Strings Require Import Byte.
From Stdlib.Floats Require Import SpecFloat.
From stdpp Require Import gmap strings list fin_maps.

Local Open Scope Z_scope.
Set Warnings "-register-all,-clear-no-such-hyp".

(* ===================================================================== *)
(** ** Exceptions and results *)
(* ===================================================================== *)

Module Py.

(** Exceptions raised by the module.  Messages built with f-strings are
    only used for logging and are not modelled; the code and message of
    the two aiorpcx error classes are kept because [get_estimatefee]
    inspects them. *)
Inductive exn : Type :=
| RequestCorrupted
| AssertionError
| Exception_            (* a plain [Exception(...)] *)
| ValueError
| TypeError
| AttributeError
| OverflowError
| RequestTimedOut
| GracefulDisconnect
| ProtocolError (code : Z) (message : string)
| RPCError (code : Z) (message : string)
| OtherError (tag : string).   (* anything else coming from below *)

Inductive res (A : Type) : Type :=
| Ok (a : A)
| Raise (e : exn).
Arguments Ok {A} a.
Arguments Raise {A} e.

Definition bind {A B} (m : res A) (k : A -> res B) : res B :=
  match m with
  | Ok a => k a
  | Raise e => Raise e
  end.

(** [assert c] *)
Definition assert_ (c : bool) : res unit :=
  if c then Ok tt else Raise AssertionError.

(** [if c: raise e] *)
Definition raise_if (c : bool) (e : exn) : res unit :=
  if c then Raise e else Ok tt.

Lemma bind_Ok_inv {A B} (m : res A) (k : A -> res B) b :
  bind m k = Ok b -> exists a, m = Ok a /\ k a = Ok b.
Proof. destruct m as [a|e]; simpl; [eauto | discriminate]. Qed.

Lemma assert_Ok_inv c u : assert_ c = Ok u -> c = true.
Proof. destruct c; simpl; [reflexivity | discriminate]. Qed.

Lemma raise_if_Ok_inv c e u : raise_if c e = Ok u -> c = false.
Proof. destruct c; simpl; [discriminate | reflexivity]. Qed.

End Py.

Declare Scope py_scope.
Delimit Scope py_scope with py.
Notation "x <- m ;; k" := (Py.bind m (fun x => k))
(at level 100, m at next level, right associativity) : py_scope.
Notation "m ;;; k" := (Py.bind m (fun _ => k))
(at level 100, right associativity) : py_scope.

(* ===================================================================== *)
(** ** Sequences: slices, [rfind], repetition *)
(* ===================================================================== *)

Module Seq.

(** How Python turns a slice bound into a position of a sequence of
    length [len]: negative bounds count from the end, everything is
    clamped to [0, len]. *)
Definition clamp (len i : Z) : Z :=
  if i <? 0 then Z.max 0 (len + i) else Z.min i len.

(** [l[lo:hi]] *)
Definition slice {A} (l : list A) (lo hi : Z) : list A :=
  let n := Z.of_nat (length l) in
  let lo' := clamp n lo in
  let hi' := clamp n hi in
  take (Z.to_nat (hi' - lo')) (drop (Z.to_nat lo') l).

(** [l[:hi]] and [l[lo:]] *)
Definition slice_to {A} (l : list A) (hi : Z) : list A := slice l 0 hi.
Definition slice_from {A} (l : list A) (lo : Z) : list A :=
  slice l lo (Z.of_nat (length l)).

(** Scan left to right remembering the last position holding [c]. *)
Fixpoint rfind_aux (c : byte) (l : list byte) (i acc : Z) : Z :=
  match l with
  | [] => acc
  | x :: r => rfind_aux c r (i + 1) (if Byte.eqb x c then i else acc)
  end.

(** [buf.rfind(bytes([c]), lo, hi)]: highest index in [buf[lo:hi]]
    holding [c], or [-1]. *)
Definition rfind (c : byte) (buf : list byte) (lo hi : Z) : Z :=
  let n := Z.of_nat (length buf) in
  rfind_aux c (slice buf lo hi) (clamp n lo) (-1).

(** [n * b" "]: empty when [n <= 0]. *)
Definition times (n : Z) (b : byte) : list byte := repeat b (Z.to_nat n).

Lemma clamp_range len i : 0 <= len -> 0 <= clamp len i <= len.
Proof. unfold clamp. intros. destruct (i <? 0) eqn:E; lia. Qed.

Lemma length_slice {A} (l : list A) lo hi :
  Z.of_nat (length (slice l lo hi)) =
  Z.max 0 (clamp (Z.of_nat (length l)) hi - clamp (Z.of_nat (length l)) lo).
Proof.
  unfold slice. cbv zeta.
  pose proof (clamp_range (Z.of_nat (length l)) lo ltac:(lia)).
  pose proof (clamp_range (Z.of_nat (length l)) hi ltac:(lia)).
  rewrite length_take, length_drop. lia.
Qed.

Lemma length_times n b : Z.of_nat (length (times n b)) = Z.max 0 n.
Proof. unfold times. rewrite repeat_length. lia. Qed.

Lemma rfind_aux_range c l i acc :
  rfind_aux c l i acc = acc \/
  i <= rfind_aux c l i acc < i + Z.of_nat (length l).
Proof.
  revert i acc. induction l as [|x r IH]; intros i acc; simpl.
  - now left.
  - destruct (IH (i + 1) (if Byte.eqb x c then i else acc)) as [-> | Hr].
    + destruct (Byte.eqb x c); [right; lia | now left].
    + right. lia.
Qed.

(** A successful [rfind(c, 0, hi)] returns an index below [hi] and
    below the length. *)
Lemma rfind_bounds c buf hi :
  0 <= hi ->
  rfind c buf 0 hi = -1 \/
  (0 <= rfind c buf 0 hi < hi /\ rfind c buf 0 hi < Z.of_nat (length buf)).
Proof.
  intros Hhi. unfold rfind. cbv zeta.
  destruct (rfind_aux_range c (slice buf 0 hi)
              (clamp (Z.of_nat (length buf)) 0) (-1)) as [-> | Hr];
    [now left | right].
  rewrite length_slice in Hr.
  unfold clamp in *. simpl in *.
  destruct (hi <? 0) eqn:E; lia.
Qed.

End Seq.

(* ===================================================================== *)
(** ** PaddedRSTransport *)
(* ===================================================================== *)

Module Transport.
Import Py.
Local Open Scope py_scope.

Definition MIN_PACKET_SIZE : Z := 1024.

(** [time.monotonic()] and [_last_send] are Python floats, IEEE binary64
    values; [float_add] is their [+], [float_lt] their [<], and
    [seconds n] is the float [float(n)]. *)
Definition float_add (x y : spec_float) : spec_float := SFadd 53 1024 x y.
Definition float_lt (x y : spec_float) : bool := SFltb x y.
Definition seconds (n : Z) : spec_float := binary_normalize 53 1024 n 0 false.

(** [WAIT_FOR_BUFFER_GROWTH_SECONDS = 1.0] *)
Definition WAIT_FOR_BUFFER_GROWTH_SECONDS : spec_float :=
  S754_finite false 4503599627370496 (-52).

(** The bytes that matter to the transport. *)
Definition LF : byte := x0a.      (* b"\n" *)
Definition SPACE : byte := x20.   (* b" "  *)
Definition RBRACE : byte := x7d.  (* b"}"  *)
Definition RBRACKET : byte := x5d. (* b"]"  *)

(** The transport object.  [wire] is the log of the buffers handed to
    [self._asyncio_transport.write], oldest first; [_can_send] and
    [closing] are the two flags read through [self._can_send.is_set()]
    and [self.is_closing()]. *)
Record PaddedRSTransport : Type := {
  _sbuffer : list byte;
  _sbuffer_has_data_evt : bool;
  _last_send : spec_float;
  _force_send : bool;
  _can_send : bool;
  closing : bool;
  wire : list (list byte)
}.

(** [int.bit_length()] *)
Definition bit_length (n : Z) : Z :=
  if n =? 0 then 0 else Z.log2 (Z.abs n) + 1.

#[global] Instance byte_eq_decision : EqDecision byte := byte_eq_dec.

Definition bytes_eqb (a b : list byte) : bool := bool_decide (a = b).

(** [t in (b"}\n", b"]\n")] *)
Definition is_json_rpc_terminator (t : list byte) : bool :=
  bytes_eqb t [RBRACE; LF] || bytes_eqb t [RBRACKET; LF].

(** The three sizes of option (1), lines 337-339. *)
Definition payload_lsize (buf : list byte) : Z := Z.of_nat (length buf).
Definition total_lsize (buf : list byte) : Z :=
  Z.max MIN_PACKET_SIZE (2 ^ bit_length (payload_lsize buf)).
Definition npad_lsize (buf : list byte) : Z :=
  total_lsize buf - payload_lsize buf.

(** The sizes of option (2), lines 342-348.  [npad_ssize] is [None] when
    the source sets it to [float("inf")]. *)
Definition total_ssize (buf : list byte) : Z :=
  Z.max MIN_PACKET_SIZE (total_lsize buf / 2).
Definition payload_ssize (buf : list byte) : Z :=
  let r := Seq.rfind LF buf 0 (total_ssize buf) in
  if r =? -1 then r else r + 1.
Definition npad_ssize (buf : list byte) : option Z :=
  if Seq.rfind LF buf 0 (total_ssize buf) =? -1 then None
  else Some (total_ssize buf - payload_ssize buf).

(** The send condition of lines 329-333. *)
Definition should_send (now : spec_float) (self : PaddedRSTransport) : bool :=
  _force_send self
  || (MIN_PACKET_SIZE <=? Z.of_nat (length (_sbuffer self)))
  || float_lt (float_add (_last_send self) WAIT_FOR_BUFFER_GROWTH_SECONDS) now.

(** [_maybe_consume_sbuffer].  The two readings of [time.monotonic()] are
    the arguments [now] (line 332) and [sent_at] (line 368). *)
Definition _maybe_consume_sbuffer (now sent_at : spec_float)
  (self : PaddedRSTransport)
  : res PaddedRSTransport :=
  if negb (_can_send self) || closing self then Ok self else
  let buf := _sbuffer self in
  match buf with
  | [] => Ok self
  | _ :: _ =>
    if negb (should_send now self) then Ok self else
    assert_ (is_json_rpc_terminator (Seq.slice_from buf (-2))) ;;;
    let '(npad, p_idx) :=
      match npad_ssize buf with
      | Some ns =>
        if _force_send self || (npad_lsize buf <=? ns)
        then (npad_lsize buf, payload_lsize buf)   (* option (1) *)
        else (ns, payload_ssize buf)               (* option (2) *)
      | None =>                     (* [npad_lsize <= inf] always holds *)
        (npad_lsize buf, payload_lsize buf)
      end in
    let json_rpc_terminator := Seq.slice buf (p_idx - 2) p_idx in
    assert_ (is_json_rpc_terminator json_rpc_terminator) ;;;
    let buf2 := Seq.slice_to buf (p_idx - 2) ++ Seq.times npad SPACE
                ++ json_rpc_terminator in
    let rest := Seq.slice_from buf p_idx in
    Ok {| _sbuffer := rest;
          _sbuffer_has_data_evt :=
            match rest with [] => false | _ => _sbuffer_has_data_evt self end;
          _last_send := sent_at;
          _force_send := _force_send self;
          _can_send := _can_send self;
          closing := closing self;
          wire := wire self ++ [buf2] |}
  end.

(** *** Sanity checks on concrete buffers *)

(** A 3-byte message [{}\n] padded to [n] bytes in total. *)
Definition padded_msg (n : nat) : list byte :=
  [x7b] ++ repeat SPACE (n - 3) ++ [RBRACE; LF].

Definition fresh (buf : list byte) (force : bool) : PaddedRSTransport :=
  {| _sbuffer := buf; _sbuffer_has_data_evt := true; _last_send := seconds 0;
     _force_send := force; _can_send := true; closing := false; wire := [] |}.

Definition emitted_lengths (r : res PaddedRSTransport) : option (list Z * Z) :=
  match r with
  | Ok t => Some (map (fun p => Z.of_nat (length p)) (wire t),
                  Z.of_nat (length (_sbuffer t)))
  | Raise _ => None
  end.

Example bit_length_5 : bit_length 5 = 3.
Proof. reflexivity. Qed.

Example bit_length_1024 : bit_length 1024 = 11.
Proof. reflexivity. Qed.

(** A small buffer whose timer has expired goes out as one 1024-byte packet. *)
Example small_buffer_after_timeout :
  emitted_lengths (_maybe_consume_sbuffer (seconds 2) (seconds 2)
                     (fresh (padded_msg 3) false))
  = Some ([1024], 0).
Proof. vm_compute. reflexivity. Qed.

(** ... and stays in the buffer while the timer has not expired. *)
Example small_buffer_before_timeout :
  emitted_lengths (_maybe_consume_sbuffer (binary_normalize 53 1024 1 (-1) false)
                     (seconds 2) (fresh (padded_msg 3) false))
  = Some ([], 3).
Proof. vm_compute. reflexivity. Qed.

(** The timer test is made on floats: with [_last_send = 0.1] and the
    clock at [1.1] the sum [0.1 + 1.0] rounds to [1.1], which is not below
    the clock, so nothing is sent yet. *)
Definition float_0_1 : spec_float := S754_finite false 7205759403792794 (-56).
Definition float_1_1 : spec_float := S754_finite false 4953959590107546 (-52).

Example small_buffer_rounded_timeout :
  float_add float_0_1 WAIT_FOR_BUFFER_GROWTH_SECONDS = float_1_1 /\
  should_send float_1_1
    {| _sbuffer := padded_msg 3; _sbuffer_has_data_evt := true;
       _last_send := float_0_1; _force_send := false; _can_send := true;
       closing := false; wire := [] |} = false.
Proof. vm_compute. split; reflexivity. Qed.

(** Two messages of 1000 and 100 bytes: option (2) sends the first one in
    a 1024-byte packet and keeps the second. *)
Example two_messages_ssize :
  emitted_lengths (_maybe_consume_sbuffer (seconds 0) (seconds 0)
                     (fresh (padded_msg 1000 ++ padded_msg 100) false))
  = Some ([1024], 100).
Proof. vm_compute. reflexivity. Qed.

(** *** Powers of two *)

Definition is_pow2 (n : Z) : Prop := exists k : Z, 0 <= k /\ n = 2 ^ k.

Lemma bit_length_nonneg n : 0 <= bit_length n.
Proof.
  unfold bit_length. destruct (n =? 0); [lia|].
  pose proof (Z.log2_nonneg (Z.abs n)). lia.
Qed.

Lemma bit_length_spec n : 0 < n -> 2 ^ (bit_length n - 1) <= n < 2 ^ bit_length n.
Proof.
  intros Hn. unfold bit_length.
  destruct (n =? 0) eqn:E; [lia|].
  rewrite Z.abs_eq by lia.
  replace (Z.log2 n + 1 - 1) with (Z.log2 n) by lia.
  replace (Z.log2 n + 1) with (Z.succ (Z.log2 n)) by lia.
  apply Z.log2_spec; lia.
Qed.

Lemma pow2_ge_1024 k : 0 <= k -> 1024 <= 2 ^ k -> 10 <= k.
Proof.
  intros Hk H. destruct (Z_lt_le_dec k 10) as [Hlt|]; [|assumption].
  assert (2 ^ k < 2 ^ 10) by (apply Z.pow_lt_mono_r; lia).
  change (2 ^ 10) with 1024 in *. lia.
Qed.

Lemma total_lsize_pow2 buf :
  exists k, 10 <= k /\ total_lsize buf = 2 ^ k.
Proof.
  unfold total_lsize, MIN_PACKET_SIZE.
  set (b := bit_length (payload_lsize buf)).
  assert (Hb : 0 <= b) by apply bit_length_nonneg.
  destruct (Z_lt_le_dec (2 ^ b) 1024) as [Hlt|Hge].
  - exists 10. split; [lia|]. change (2 ^ 10) with 1024. lia.
  - exists b. split; [now apply pow2_ge_1024 | lia].
Qed.

Lemma total_ssize_pow2 buf :
  exists k, 10 <= k /\ total_ssize buf = 2 ^ k.
Proof.
  unfold total_ssize, MIN_PACKET_SIZE.
  destruct (total_lsize_pow2 buf) as (k & Hk & ->).
  destruct (Z.eq_dec k 10) as [->|Hne].
  - exists 10. split; [lia|]. reflexivity.
  - exists (k - 1). split; [lia|].
    assert (E : 2 ^ k = 2 ^ (k - 1) * 2).
    { replace k with (Z.succ (k - 1)) at 1 by lia.
      rewrite Z.pow_succ_r by lia. lia. }
    rewrite E, Z.div_mul by lia.
    assert (2 ^ 10 <= 2 ^ (k - 1)) by (apply Z.pow_le_mono_r; lia).
    change (2 ^ 10) with 1024 in *. lia.
Qed.

Lemma payload_lt_total_lsize buf : payload_lsize buf < total_lsize buf.
Proof.
  unfold total_lsize, payload_lsize.
  destruct buf as [|x r]; [simpl; unfold MIN_PACKET_SIZE; lia|].
  pose proof (bit_length_spec (Z.of_nat (length (x :: r))) ltac:(simpl; lia)).
  lia.
Qed.

Lemma terminator_length t :
  is_json_rpc_terminator t = true -> length t = 2%nat.
Proof.
  unfold is_json_rpc_terminator, bytes_eqb. intros H.
  apply orb_true_iff in H as [H|H]; apply bool_decide_eq_true in H;
    subst; reflexivity.
Qed.

(** Length of the packet built on line 366, for a cut position [p_idx]
    inside the buffer and a non-negative amount of padding. *)
Lemma packet_length buf p_idx npad :
  1 <= p_idx <= Z.of_nat (length buf) ->
  0 <= npad ->
  is_json_rpc_terminator (Seq.slice buf (p_idx - 2) p_idx) = true ->
  Z.of_nat (length (Seq.slice_to buf (p_idx - 2) ++ Seq.times npad SPACE
                    ++ Seq.slice buf (p_idx - 2) p_idx)) = p_idx + npad.
Proof.
  intros Hp Hn Ht. apply terminator_length in Ht.
  rewrite !length_app, !Nat2Z.inj_add, Seq.length_times.
  assert (Ht' : Z.of_nat (length (Seq.slice buf (p_idx - 2) p_idx)) = 2) by lia.
  rewrite Ht'. unfold Seq.slice_to.
  rewrite Seq.length_slice in *. unfold Seq.clamp in *. simpl in *.
  destruct (p_idx <? 0) eqn:E1; destruct (p_idx - 2 <? 0) eqn:E2; lia.
Qed.

Lemma npad_ssize_Some buf ns :
  npad_ssize buf = Some ns ->
  0 <= ns /\ 1 <= payload_ssize buf <= Z.of_nat (length buf) /\
  payload_ssize buf + ns = total_ssize buf.
Proof.
  unfold npad_ssize, payload_ssize. cbv zeta.
  destruct (total_ssize_pow2 buf) as (k & Hk & Hs).
  assert (0 <= total_ssize buf) by (rewrite Hs; apply Z.pow_nonneg; lia).
  destruct (Seq.rfind_bounds LF buf (total_ssize buf)) as [E | [Hr1 Hr2]];
    [assumption | rewrite E; simpl; discriminate |].
  destruct (Seq.rfind LF buf 0 (total_ssize buf) =? -1) eqn:E;
    [discriminate|].
  intros [= <-]. lia.
Qed.

(** What a call that returns normally does to the wire: nothing, or one
    more packet whose size is [total_lsize] (option 1) or, only when
    [_force_send] is off, [total_ssize] (option 2). *)
Lemma consume_wire now sent_at self self' :
  _maybe_consume_sbuffer now sent_at self = Ok self' ->
  wire self' = wire self \/
  exists pkt, wire self' = wire self ++ [pkt] /\
    (Z.of_nat (length pkt) = total_lsize (_sbuffer self) \/
     (_force_send self = false /\
      Z.of_nat (length pkt) = total_ssize (_sbuffer self))).
Proof.
  unfold _maybe_consume_sbuffer.
  destruct (negb (_can_send self) || closing self); [intros [= <-]; now left|].
  destruct (_sbuffer self) as [|b0 buf'] eqn:Ebuf; [intros [= <-]; now left|].
  destruct (negb (should_send now self)); [intros [= <-]; now left|].
  set (buf := b0 :: buf') in *.
  intros H. apply bind_Ok_inv in H as (_ & _ & H).
  assert (Hlen : 1 <= Z.of_nat (length buf)) by (subst buf; simpl; lia).
  pose proof (payload_lt_total_lsize buf) as Hlt. unfold payload_lsize in Hlt.
  destruct (npad_ssize buf) as [ns|] eqn:Ens.
  - destruct (npad_ssize_Some _ _ Ens) as (Hns & Hp & Htot).
    destruct (_force_send self || (npad_lsize buf <=? ns)) eqn:Echoice.
    + apply bind_Ok_inv in H as (u & Ht & H). apply assert_Ok_inv in Ht.
      injection H as <-. right. simpl. eexists; split; [reflexivity|].
      left. unfold payload_lsize in *.
      rewrite packet_length; unfold npad_lsize, payload_lsize; try lia.
      exact Ht.
    + apply bind_Ok_inv in H as (u & Ht & H). apply assert_Ok_inv in Ht.
      injection H as <-. right. simpl. eexists; split; [reflexivity|].
      right. apply orb_false_iff in Echoice as [Hf _]. split; [exact Hf|].
      rewrite packet_length; try lia. exact Ht.
  - apply bind_Ok_inv in H as (u & Ht & H). apply assert_Ok_inv in Ht.
    injection H as <-. right. simpl. eexists; split; [reflexivity|].
    left. unfold payload_lsize in *.
    rewrite packet_length; unfold npad_lsize, payload_lsize; try lia.
    exact Ht.
Qed.

(** C4.  Every packet that [_maybe_consume_sbuffer] hands to the
    underlying transport while [_force_send] is false has a total length
    (payload, pad spaces and the two terminator bytes) that is a power of
    two and at least [MIN_PACKET_SIZE] = 1024. *)
Theorem emitted_packet_length_power_of_two now sent_at self self' pkt :
  _force_send self = false ->
  _maybe_consume_sbuffer now sent_at self = Ok self' ->
  wire self' = wire self ++ [pkt] ->
  is_pow2 (Z.of_nat (length pkt)) /\ MIN_PACKET_SIZE <= Z.of_nat (length pkt).
Proof.
  intros _ Hrun Hw.
  destruct (consume_wire _ _ _ _ Hrun) as [Hsame | (pkt' & Hw' & Hsz)].
  - rewrite Hsame in Hw. apply (f_equal (@length _)) in Hw.
    rewrite length_app in Hw. simpl in Hw. lia.
  - rewrite Hw' in Hw. apply app_inj_tail in Hw as [_ ->].
    assert (Hk : exists k, 10 <= k /\ Z.of_nat (length pkt) = 2 ^ k).
    { destruct Hsz as [-> | [_ ->]];
        [apply total_lsize_pow2 | apply total_ssize_pow2]. }
    destruct Hk as (k & Hk & ->). split.
    + exists k. split; [lia | reflexivity].
    + unfold MIN_PACKET_SIZE. change 1024 with (2 ^ 10).
      apply Z.pow_le_mono_r; lia.
Qed.

(** The theorem applied to two queued messages of 1000 and 100 bytes. *)
Lemma emitted_packet_length_power_of_two_witness :
  is_pow2 1024 /\ MIN_PACKET_SIZE <= 1024.
Proof.
  pose (self := fresh (padded_msg 1000 ++ padded_msg 100) false).
  pose (pkt := Seq.slice_to (_sbuffer self) 998 ++ Seq.times 24 SPACE
               ++ [RBRACE; LF]).
  pose (self' := {| _sbuffer := padded_msg 100; _sbuffer_has_data_evt := true;
                    _last_send := seconds 0; _force_send := false;
                    _can_send := true; closing := false; wire := [pkt] |}).
  change 1024 with (Z.of_nat (length pkt)).
  apply (emitted_packet_length_power_of_two (seconds 0) (seconds 0) self self' pkt).
  - reflexivity.
  - vm_compute. reflexivity.
  - reflexivity.
Defined.

(** *** The size of option (1) *)

(** The rounding the specification names: [next_pow2 n] is the least
    power of two that is at least [n]. *)
Definition next_pow2 (n : Z) : Z := 2 ^ Z.log2_up n.

Lemma pow2_le_inv j k : 0 <= j -> 0 <= k -> 2 ^ j < 2 ^ k -> j < k.
Proof.
  intros Hj Hk H. destruct (Z_lt_le_dec j k) as [|Hge]; [assumption|].
  assert (2 ^ k <= 2 ^ j) by (apply Z.pow_le_mono_r; lia). lia.
Qed.

Lemma next_pow2_least n :
  0 < n ->
  is_pow2 (next_pow2 n) /\ n <= next_pow2 n /\
  forall q, is_pow2 q -> n <= q -> next_pow2 n <= q.
Proof.
  intros Hn. unfold next_pow2.
  pose proof (Z.log2_up_nonneg n) as Hnn.
  split; [exists (Z.log2_up n); split; [assumption | reflexivity]|].
  destruct (Z.eq_dec n 1) as [->|Hne].
  - rewrite Z.log2_up_1, Z.pow_0_r. split; [lia|]. intros q (j & Hj & ->) _.
    pose proof (Z.pow_pos_nonneg 2 j ltac:(lia) Hj). lia.
  - pose proof (Z.log2_up_spec n ltac:(lia)) as [Hlo Hhi].
    split; [assumption|]. intros q (j & Hj & ->) Hq.
    apply Z.pow_le_mono_r; [lia|].
    assert (Z.pred (Z.log2_up n) < j); [|lia].
    pose proof (Z.log2_up_pos n ltac:(lia)).
    apply pow2_le_inv; lia.
Qed.

(** [2 ** n.bit_length()] is the least power of two strictly above [n]. *)
Lemma pow2_bit_length_least n :
  0 < n ->
  is_pow2 (2 ^ bit_length n) /\ n < 2 ^ bit_length n /\
  forall q, is_pow2 q -> n < q -> 2 ^ bit_length n <= q.
Proof.
  intros Hn. pose proof (bit_length_nonneg n) as Hb.
  pose proof (bit_length_spec n Hn) as [Hlo Hhi].
  split; [exists (bit_length n); split; [assumption | reflexivity]|].
  split; [assumption|]. intros q (j & Hj & ->) Hq.
  apply Z.pow_le_mono_r; [lia|].
  assert (bit_length n - 1 < j); [|lia].
  destruct (Z.eq_dec (bit_length n) 0) as [E|E]; [lia|].
  apply pow2_le_inv; lia.
Qed.

Lemma bit_length_pow2 k : 0 <= k -> bit_length (2 ^ k) = k + 1.
Proof.
  intros Hk. unfold bit_length.
  assert (0 < 2 ^ k) by (apply Z.pow_pos_nonneg; lia).
  destruct (2 ^ k =? 0) eqn:E; [lia|].
  rewrite Z.abs_eq by lia. now rewrite Z.log2_pow2.
Qed.

(** A full buffer of exactly 1024 bytes: option (1) would build a
    2048-byte packet with 1024 pad bytes; the packet that is sent (when
    not forced) is the unpadded 1024-byte one of option (2). *)
Example full_1024_sizes :
  total_lsize (padded_msg 1024) = 2048 /\ npad_lsize (padded_msg 1024) = 1024 /\
  npad_ssize (padded_msg 1024) = Some 0.
Proof. vm_compute. repeat split; reflexivity. Qed.

Example full_1024_sent_unpadded :
  emitted_lengths (_maybe_consume_sbuffer (seconds 0) (seconds 0) (fresh (padded_msg 1024) false))
  = Some ([1024], 0).
Proof. vm_compute. reflexivity. Qed.

Example full_1024_forced :
  emitted_lengths (_maybe_consume_sbuffer (seconds 0) (seconds 0) (fresh (padded_msg 1024) true))
  = Some ([2048], 0).
Proof. vm_compute. reflexivity. Qed.

Lemma rfind_aux_snoc c l i acc :
  Seq.rfind_aux c (l ++ [c]) i acc = i + Z.of_nat (length l).
Proof.
  revert i acc. induction l as [|x r IH]; intros i acc; simpl.
  - rewrite (byte_dec_lb (eq_refl c)). lia.
  - rewrite IH. lia.
Qed.

Lemma slice_all {A} (l : list A) : Seq.slice l 0 (Z.of_nat (length l)) = l.
Proof.
  unfold Seq.slice, Seq.clamp. cbv zeta.
  change (0 <? 0) with false. cbv iota.
  destruct (Z.of_nat (length l) <? 0) eqn:E;
    [apply Z.ltb_lt in E; exfalso; lia|].
  rewrite Z.min_id, (Z.min_l 0) by lia.
  rewrite Z.sub_0_r, Nat2Z.id. apply firstn_all.
Qed.

(** Why the rounding of option (1) wastes nothing: a buffer whose length
    is a power of two that is at least 1024 fits option (2) exactly, with
    no padding and nothing deferred. *)
Lemma pow2_buffer_fits_ssize body k :
  10 <= k -> payload_lsize (body ++ [LF]) = 2 ^ k ->
  total_ssize (body ++ [LF]) = 2 ^ k /\
  payload_ssize (body ++ [LF]) = 2 ^ k /\
  npad_ssize (body ++ [LF]) = Some 0.
Proof.
  intros Hk Hn.
  assert (Hlen : Z.of_nat (length body) + 1 = 2 ^ k).
  { unfold payload_lsize in Hn. rewrite length_app, Nat2Z.inj_add in Hn.
    exact Hn. }
  set (buf := body ++ [LF]) in *.
  assert (Hpos : 1024 <= 2 ^ k).
  { change 1024 with (2 ^ 10). apply Z.pow_le_mono_r; lia. }
  assert (Htot : total_ssize buf = 2 ^ k).
  { unfold total_ssize, total_lsize, MIN_PACKET_SIZE.
    rewrite Hn, bit_length_pow2 by lia.
    replace (k + 1) with (Z.succ k) by lia.
    rewrite Z.pow_succ_r by lia.
    replace (Z.max 1024 (2 * 2 ^ k)) with (2 ^ k * 2) by lia.
    rewrite Z.div_mul by lia. lia. }
  assert (Hr : Seq.rfind LF buf 0 (total_ssize buf) = 2 ^ k - 1).
  { unfold Seq.rfind. cbv zeta. rewrite Htot, <- Hn.
    unfold payload_lsize. rewrite slice_all. subst buf.
    rewrite rfind_aux_snoc. unfold Seq.clamp.
    change (0 <? 0) with false. cbv iota.
    rewrite length_app, Nat2Z.inj_add. change (Z.of_nat (length [LF])) with 1.
    lia. }
  unfold npad_ssize, payload_ssize. cbv zeta. rewrite Hr, Htot.
  replace (2 ^ k - 1 =? -1) with false by lia.
  repeat split; try lia. f_equal. lia.
Qed.

(** C5, as stated, fails: for a 1024-byte buffer [total_lsize] is not
    [max(MIN_PACKET_SIZE, next_pow2(payload_lsize))], and the full-buffer
    option does not pad with zero bytes although the length is a power of
    two that is at least 1024. *)
Lemma total_lsize_next_pow2_counterexample :
  let buf := padded_msg 1024 in
  buf <> [] /\
  is_pow2 (payload_lsize buf) /\ MIN_PACKET_SIZE <= payload_lsize buf /\
  total_lsize buf <> Z.max MIN_PACKET_SIZE (next_pow2 (payload_lsize buf)) /\
  npad_lsize buf <> 0.
Proof.
  cbv zeta. split; [discriminate|].
  split; [exists 10; split; [lia | reflexivity]|].
  split; [vm_compute; discriminate|].
  split; vm_compute; discriminate.
Qed.

(** C5, amended.  For every non-empty send buffer,
    [total_lsize = max(MIN_PACKET_SIZE, p)] where [p = 2 ** bit_length(payload_lsize)]
    is the least power of two strictly greater than [payload_lsize], and
    [npad_lsize = total_lsize - payload_lsize], which is positive; when the
    buffer length is itself a power of two that is at least 1024,
    [total_lsize] is twice the length and the full-buffer option pads with
    [payload_lsize] bytes. *)
Theorem total_lsize_least_power_above buf :
  buf <> [] ->
  let n := payload_lsize buf in
  let p := 2 ^ bit_length n in
  (is_pow2 p /\ n < p /\ forall q, is_pow2 q -> n < q -> p <= q) /\
  total_lsize buf = Z.max MIN_PACKET_SIZE p /\
  npad_lsize buf = total_lsize buf - n /\ 0 < npad_lsize buf /\
  (is_pow2 n -> MIN_PACKET_SIZE <= n ->
   total_lsize buf = 2 * n /\ npad_lsize buf = n).
Proof.
  intros Hne n p.
  assert (Hn : 0 < n).
  { subst n. unfold payload_lsize. destruct buf; [congruence | simpl; lia]. }
  split; [apply pow2_bit_length_least; exact Hn|].
  split; [reflexivity|]. split; [reflexivity|].
  split; [pose proof (payload_lt_total_lsize buf); unfold npad_lsize; lia|].
  intros (k & Hk & Hnk) Hmin.
  assert (Htot : total_lsize buf = 2 * n).
  { unfold total_lsize. fold n. rewrite Hnk, bit_length_pow2 by assumption.
    replace (k + 1) with (Z.succ k) by lia. rewrite Z.pow_succ_r by assumption.
    rewrite <- Hnk. lia. }
  split; [exact Htot|]. unfold npad_lsize. fold n. lia.
Qed.

Lemma total_lsize_least_power_above_witness :
  total_lsize (padded_msg 1024) = 2 * 1024 /\ npad_lsize (padded_msg 1024) = 1024.
Proof.
  apply (total_lsize_least_power_above (padded_msg 1024)).
  - discriminate.
  - exists 10. split; [lia | reflexivity].
  - vm_compute. discriminate.
Defined.

End Transport.

(* ===================================================================== *)
(** ** Values decoded from JSON *)
(* ===================================================================== *)

Module Val.
Import Py.

(** What [json.loads] can hand to the interface.  [bool] is a subclass of
    [int] in Python and [True]/[False] compare, hash and compute as [1]/[0],
    so JSON [true]/[false] are the values [PInt 1]/[PInt 0].  A JSON object
    is kept as its list of entries; lookup takes the first entry with the
    key.  Floats are IEEE binary64 values. *)
Inductive pyval : Type :=
| PNone
| PInt (z : Z)
| PFloat (f : spec_float)
| PStr (s : string)
| PList (l : list pyval)
| PDict (d : list (string * pyval)).

Fixpoint dict_get (d : list (string * pyval)) (k : string) : option pyval :=
  match d with
  | [] => None
  | (k', v) :: r => if String.eqb k' k then Some v else dict_get r k
  end.

(** binary64 *)
Definition prec : Z := 53.
Definition emax : Z := 1024.

(** [float(z)] rounds to nearest-even; an [int] too large for a float
    raises [OverflowError]. *)
Definition float_of_int (z : Z) : res spec_float :=
  match binary_normalize prec emax z 0 false with
  | S754_infinity _ => Raise OverflowError
  | f => Ok f
  end.

(** [int(f)]: truncation towards zero. *)
Definition int_of_float (f : spec_float) : res Z :=
  match f with
  | S754_zero _ => Ok 0
  | S754_infinity _ => Raise OverflowError
  | S754_nan => Raise ValueError
  | S754_finite s m e =>
    let mag := if 0 <=? e then Z.pos m * 2 ^ e else Z.pos m / 2 ^ (- e) in
    Ok (if s then - mag else mag)
  end.

(** [v >= 0] for [v] an int or a float ([nan >= 0] is [False]). *)
Definition ge0 (v : pyval) : bool :=
  match v with
  | PInt z => 0 <=? z
  | PFloat f => SFleb (S754_zero false) f
  | _ => false
  end.

(** [v != k] for an int literal [k]: values of other types are unequal
    to it, a float is equal to it when it has the same numeric value. *)
Definition ne_int (v : pyval) (k : Z) : bool :=
  match v with
  | PInt z => negb (z =? k)
  | PFloat f => negb (SFeqb f (binary_normalize prec emax k 0 false))
  | _ => true
  end.

(** [v * k] for [v] an int or a float and [k] an int. *)
Definition mul_int (v : pyval) (k : Z) : res pyval :=
  match v with
  | PInt z => Ok (PInt (z * k))
  | PFloat f =>
    match float_of_int k with
    | Ok fk => Ok (PFloat (SFmul prec emax f fk))
    | Raise e => Raise e
    end
  | _ => Raise TypeError
  end.

(** [int(v)] for [v] an int or a float. *)
Definition to_int (v : pyval) : res Z :=
  match v with
  | PInt z => Ok z
  | PFloat f => int_of_float f
  | _ => Raise TypeError
  end.

End Val.

(* ===================================================================== *)
(** ** electrum.util: validation predicates, [bfh], [chunks] *)
(* ===================================================================== *)

Module Util.
Import Py Val.

Definition is_hex_digit (c : ascii) : bool :=
  let n := N_of_ascii c in
  ((48 <=? n) && (n <=? 57) || (97 <=? n) && (n <=? 102)
   || (65 <=? n) && (n <=? 70))%N.

Definition hex_value (c : ascii) : N :=
  let n := N_of_ascii c in
  (if n <=? 57 then n - 48 else if n <=? 70 then n - 55 else n - 87)%N.

(** ASCII whitespace, skipped by [bytes.fromhex] between bytes. *)
Definition is_ascii_space (c : ascii) : bool :=
  let n := N_of_ascii c in
  ((n =? 32) || (9 <=? n) && (n <=? 13))%N.

Definition mk_byte (hi lo : ascii) : byte :=
  byte_of_ascii (ascii_of_N (16 * hex_value hi + hex_value lo)).

(** [bytes.fromhex] on the characters of a string; [None] is [ValueError]. *)
Fixpoint fromhex_chars (l : list ascii) : option (list byte) :=
  match l with
  | [] => Some []
  | c :: r =>
    if is_ascii_space c then fromhex_chars r
    else
      match r with
      | c2 :: r2 =>
        if is_hex_digit c && is_hex_digit c2
        then option_map (cons (mk_byte c c2)) (fromhex_chars r2)
        else None
      | [] => None
      end
  end.

(** Modelled from the spec: [util.bfh] is not among the sources; it is
    [bytes.fromhex], decoding a hex string to bytes. *)
Definition bfh (s : string) : option (list byte) :=
  fromhex_chars (list_ascii_of_string s).

(** Modelled from the spec: [util.is_integer] ("is-integer"). *)
Definition is_integer (val : pyval) : bool :=
  match val with PInt _ => true | _ => false end.

(** Modelled from the spec: [util.is_non_negative_integer]
    ("is-non-negative-integer"). *)
Definition is_non_negative_integer (val : pyval) : bool :=
  match val with PInt z => 0 <=? z | _ => false end.

(** Modelled from the spec: [util.is_int_or_float] ("is-int-or-float"). *)
Definition is_int_or_float (val : pyval) : bool :=
  match val with PInt _ | PFloat _ => true | _ => false end.

(** Modelled from the spec: [util.is_non_negative_int_or_float]
    ("is-non-negative-int-or-float"). *)
Definition is_non_negative_int_or_float (val : pyval) : bool :=
  is_int_or_float val && ge0 val.

Definition hex_chars (l : list ascii) : bool :=
  forallb is_hex_digit l && Nat.even (length l).

(** Modelled from the spec: [util.is_hex_str] ("is-hex-string (even
    length, hex alphabet)"). *)
Definition is_hex_str (text : pyval) : bool :=
  match text with
  | PStr s => hex_chars (list_ascii_of_string s)
  | _ => false
  end.

(** Modelled from the spec: [util.is_hash256_str] ("is-hash256-hex (64 hex
    chars)"). *)
Definition is_hash256_str (text : pyval) : bool :=
  match text with
  | PStr s => (String.length s =? 64)%nat && hex_chars (list_ascii_of_string s)
  | _ => false
  end.

Fixpoint chunks_aux {A} (fuel : nat) (items : list A) (size : nat)
  : list (list A) :=
  match fuel, items with
  | S fuel', _ :: _ => take size items :: chunks_aux fuel' (drop size items) size
  | _, _ => []
  end.

(** Modelled from the spec: [util.chunks] is not among the sources; it
    breaks a sequence into consecutive pieces of [size] items (the last one
    may be shorter).  Used with [size = HEADER_SIZE]. *)
Definition chunks {A} (items : list A) (size : nat) : list (list A) :=
  chunks_aux (length items) items size.

Example bfh_example : bfh "00ff7D" = Some [x00; xff; x7d].
Proof. reflexivity. Qed.

Example is_hex_str_odd : is_hex_str (PStr "abc") = false.
Proof. reflexivity. Qed.

Example chunks_example : chunks [1; 2; 3; 4; 5] 2 = [[1; 2]; [3; 4]; [5]].
Proof. reflexivity. Qed.

Lemma hex_digit_not_space c : is_hex_digit c = true -> is_ascii_space c = false.
Proof.
  unfold is_hex_digit, is_ascii_space. cbv zeta.
  generalize (N_of_ascii c). intros n H.
  destruct (n =? 32)%N eqn:E1; destruct (9 <=? n)%N eqn:E2;
    destruct (n <=? 13)%N eqn:E3; simpl; try reflexivity; exfalso;
    repeat match goal with
    | H : (_ =? _)%N = true |- _ => apply N.eqb_eq in H
    | H : (_ <=? _)%N = true |- _ => apply N.leb_le in H
    | H : (_ <=? _)%N = false |- _ => apply N.leb_gt in H
    | H : (_ =? _)%N = false |- _ => apply N.eqb_neq in H
    | H : _ || _ = true |- _ => apply orb_true_iff in H; destruct H
    | H : _ && _ = true |- _ => apply andb_true_iff in H; destruct H
    end; lia.
Qed.

(** A string over the hex alphabet decodes, two characters per byte. *)
Lemma fromhex_hex n : forall l,
  length l = (2 * n)%nat -> forallb is_hex_digit l = true ->
  exists b, fromhex_chars l = Some b /\ length b = n.
Proof.
  induction n as [|n IH]; intros l Hlen Hall.
  - destruct l; [|discriminate]. exists []. split; reflexivity.
  - destruct l as [|c [|c2 r]]; simpl in Hlen; try lia.
    simpl in Hall. apply andb_true_iff in Hall as [Hc Hall].
    apply andb_true_iff in Hall as [Hc2 Hall].
    destruct (IH r ltac:(lia) Hall) as (b & Hb & Hbl).
    exists (mk_byte c c2 :: b). simpl.
    rewrite (hex_digit_not_space c Hc), Hc, Hc2, Hb. simpl.
    split; [reflexivity | now rewrite Hbl].
Qed.

Lemma hex_chars_decodes l :
  hex_chars l = true ->
  exists b, fromhex_chars l = Some b /\ (2 * length b = length l)%nat.
Proof.
  unfold hex_chars. intros H. apply andb_true_iff in H as [Hall Hev].
  apply Nat.even_spec in Hev as [n Hn].
  destruct (fromhex_hex n l Hn Hall) as (b & Hb & Hbl).
  exists b. split; [assumption | lia].
Qed.

Lemma length_list_ascii s : length (list_ascii_of_string s) = String.length s.
Proof. induction s; simpl; congruence. Qed.

End Util.

(* ===================================================================== *)
(** ** Interface: response validation *)
(* ===================================================================== *)

Module Iface.
Import Py Val Util.
Local Open Scope py_scope.

Definition MAX_NUM_HEADERS_PER_REQUEST : Z := 2016.

(** Modelled from the spec: [blockchain.HEADER_SIZE] and
    [blockchain.CHUNK_SIZE] are declared outside the sources; the spec gives
    HEADER_SIZE=80 and CHUNK_SIZE=2016. *)
Definition HEADER_SIZE : Z := 80.
Definition CHUNK_SIZE : Z := 2016.

(** [JSONRPC.INTERNAL_ERROR], the code quoted in the comment of
    [get_estimatefee]. *)
Definition INTERNAL_ERROR : Z := -32603.

Definition assert_non_negative_integer (val : pyval) : res unit :=
  raise_if (negb (is_non_negative_integer val)) RequestCorrupted.

Definition assert_integer (val : pyval) : res unit :=
  raise_if (negb (is_integer val)) RequestCorrupted.

Definition assert_int_or_float (val : pyval) : res unit :=
  raise_if (negb (is_int_or_float val)) RequestCorrupted.

Definition assert_non_negative_int_or_float (val : pyval) : res unit :=
  raise_if (negb (is_non_negative_int_or_float val)) RequestCorrupted.

Definition assert_hash256_str (val : pyval) : res unit :=
  raise_if (negb (is_hash256_str val)) RequestCorrupted.

Definition assert_hex_str (val : pyval) : res unit :=
  raise_if (negb (is_hex_str val)) RequestCorrupted.

Definition assert_dict_contains_field (d : pyval) (field_name : string)
  : res pyval :=
  match d with
  | PDict kv =>
    match dict_get kv field_name with
    | Some v => Ok v
    | None => Raise RequestCorrupted
    end
  | _ => Raise RequestCorrupted
  end.

Definition assert_list_or_tuple (val : pyval) : res unit :=
  match val with
  | PList _ => Ok tt
  | _ => Raise RequestCorrupted
  end.

(** Dynamic uses of a value: [d[key]], arithmetic on an int, [len] of a
    str, iteration over a list.  They raise what Python raises when the
    value has another type. *)
Definition subscript (d : pyval) (key : string) : res pyval :=
  match d with
  | PDict kv =>
    match dict_get kv key with
    | Some v => Ok v
    | None => Raise (OtherError "KeyError")
    end
  | _ => Raise TypeError
  end.

Definition int_value (v : pyval) : res Z :=
  match v with PInt z => Ok z | _ => Raise TypeError end.

Definition str_value (v : pyval) : res string :=
  match v with PStr s => Ok s | _ => Raise TypeError end.

Definition list_value (v : pyval) : res (list pyval) :=
  match v with PList l => Ok l | _ => Raise TypeError end.

Fixpoint mapM {A B} (f : A -> res B) (l : list A) : res (list B) :=
  match l with
  | [] => Ok []
  | x :: r => y <- f x ;; ys <- mapM f r ;; Ok (y :: ys)
  end.

(** *** [get_block_headers]: the response checks (lines 811-833) *)

Definition check_block_headers (tip start_height count : Z) (res : pyval)
  : Py.res (list (list byte)) :=
  res_count <- assert_dict_contains_field res "count" ;;
  res_hex <- assert_dict_contains_field res "hex" ;;
  res_max <- assert_dict_contains_field res "max" ;;
  assert_non_negative_integer res_count ;;;
  assert_non_negative_integer res_max ;;;
  assert_hex_str res_hex ;;;
  rcount <- int_value res_count ;;
  rmax <- int_value res_max ;;
  rhex <- str_value res_hex ;;
  raise_if (negb (Z.of_nat (String.length rhex) =? HEADER_SIZE * 2 * rcount))
           RequestCorrupted ;;;
  raise_if (rmax <? MAX_NUM_HEADERS_PER_REQUEST) RequestCorrupted ;;;
  (if count <? rcount then Raise RequestCorrupted
   else if rcount <? count then
     let end_height := start_height + rcount - 1 in
     raise_if (end_height <? tip) RequestCorrupted
   else Ok tt) ;;;
  match bfh rhex with
  | Some b => Ok (chunks b (Z.to_nat HEADER_SIZE))
  | None => Raise ValueError
  end.

(** *** [get_history_for_scripthash]: the response checks (lines 1305-1327) *)

(** [prev_height] is an int or [float("inf")]. *)
Inductive height_bound : Type :=
| Finite (h : Z)
| Inf.

(** [height < prev_height] *)
Definition below (height : Z) (prev_height : height_bound) : bool :=
  match prev_height with
  | Finite p => height <? p
  | Inf => true
  end.

(** One iteration of the loop over [res]; returns the new [prev_height]. *)
Definition check_history_item (prev_height : height_bound) (tx_item : pyval)
  : res height_bound :=
  height <- assert_dict_contains_field tx_item "height" ;;
  tx_hash <- assert_dict_contains_field tx_item "tx_hash" ;;
  assert_integer height ;;;
  assert_hash256_str tx_hash ;;;
  h <- int_value height ;;
  if (h =? -1) || (h =? 0) then
    fee <- assert_dict_contains_field tx_item "fee" ;;
    assert_non_negative_integer fee ;;;
    Ok Inf
  else
    raise_if (below h prev_height) RequestCorrupted ;;;
    Ok (Finite h).

Fixpoint check_history_loop (prev_height : height_bound) (items : list pyval)
  : res height_bound :=
  match items with
  | [] => Ok prev_height
  | tx_item :: rest =>
    prev_height' <- check_history_item prev_height tx_item ;;
    check_history_loop prev_height' rest
  end.

(** [item['tx_hash']] as a set element. *)
Definition item_tx_hash (item : pyval) : res string :=
  v <- subscript item "tx_hash" ;; str_value v.

Definition check_history (res : pyval) : Py.res pyval :=
  assert_list_or_tuple res ;;;
  items <- list_value res ;;
  _ <- check_history_loop (Finite 1) items ;;
  tx_hashes <- mapM item_tx_hash items ;;
  let hashes : gset string := list_to_set tx_hashes in
  raise_if (negb (Nat.eqb (size hashes) (length items))) RequestCorrupted ;;;
  Ok res.

(** *** What an accepted [blockchain.block.headers] response looks like *)

(** The conditions on a response [res] to a request for [count] headers
    from [start_height]: a dict with fields [count], [max] and [hex];
    [max >= 2016]; the decoded [hex] has 80 bytes per returned header; not
    more headers than requested; fewer only if the last returned height is
    not below [tip]. *)
Definition block_headers_ok (tip start_height count : Z) (res : pyval)
  (decoded : list byte) : Prop :=
  exists d rcount rmax rhex,
    res = PDict d /\
    dict_get d "count" = Some (PInt rcount) /\
    dict_get d "max" = Some (PInt rmax) /\
    dict_get d "hex" = Some (PStr rhex) /\
    MAX_NUM_HEADERS_PER_REQUEST <= rmax /\
    bfh rhex = Some decoded /\
    Z.of_nat (length decoded) = HEADER_SIZE * rcount /\
    rcount <= count /\
    (rcount < count -> ~ (start_height + rcount - 1 < tip)).

(** The checks either accept, and then the conditions hold and the result
    is the decoded [hex] cut into 80-byte pieces, or raise
    [RequestCorrupted]. *)
Lemma check_block_headers_cases tip start_height count res :
  (exists decoded,
     check_block_headers tip start_height count res
       = Ok (chunks decoded (Z.to_nat HEADER_SIZE)) /\
     block_headers_ok tip start_height count res decoded) \/
  check_block_headers tip start_height count res = Raise RequestCorrupted.
Proof.
  unfold check_block_headers, assert_non_negative_integer, assert_hex_str.
  destruct res as [| | | |l|d]; try (right; reflexivity).
  cbn [assert_dict_contains_field].
  destruct (dict_get d "count") as [rc|] eqn:Ec; [|right; reflexivity].
  destruct (dict_get d "hex") as [rh|] eqn:Eh; [|right; reflexivity].
  destruct (dict_get d "max") as [rm|] eqn:Em; [|right; reflexivity].
  cbn [bind].
  destruct rc as [|rcount| | | |]; try (right; reflexivity).
  cbn [is_non_negative_integer].
  destruct (0 <=? rcount) eqn:Hc0; [|right; reflexivity].
  cbn [negb raise_if bind].
  destruct rm as [|rmax| | | |]; try (right; reflexivity).
  cbn [is_non_negative_integer].
  destruct (0 <=? rmax) eqn:Hm0; [|right; reflexivity].
  cbn [negb raise_if bind].
  destruct rh as [| | |rhex| |]; try (right; reflexivity).
  cbn [is_hex_str].
  destruct (hex_chars (list_ascii_of_string rhex)) eqn:Hhex;
    [|right; reflexivity].
  cbn [negb raise_if bind int_value str_value].
  destruct (Z.of_nat (String.length rhex) =? HEADER_SIZE * 2 * rcount) eqn:Hlen;
    [|right; reflexivity].
  cbn [negb raise_if bind].
  destruct (rmax <? MAX_NUM_HEADERS_PER_REQUEST) eqn:Hmax;
    [right; reflexivity|].
  cbn [negb raise_if bind].
  destruct (hex_chars_decodes _ Hhex) as (decoded & Hdec & Hdl).
  rewrite length_list_ascii in Hdl.
  assert (Hok : rcount <= count ->
                (rcount < count -> ~ (start_height + rcount - 1 < tip)) ->
                block_headers_ok tip start_height count (PDict d) decoded).
  { intros H1 H2. exists d, rcount, rmax, rhex.
    repeat split; try assumption; try lia. }
  destruct (count <? rcount) eqn:Hgt; [right; reflexivity|].
  destruct (rcount <? count) eqn:Hlt.
  - destruct (start_height + rcount - 1 <? tip) eqn:Hend;
      [right; reflexivity|].
    cbn [negb raise_if bind].
    left. exists decoded. unfold bfh in *. rewrite Hdec.
    split; [reflexivity|]. apply Hok; lia.
  - cbn [bind]. left. exists decoded. unfold bfh in *. rewrite Hdec.
    split; [reflexivity|]. apply Hok; lia.
Qed.

(** *** What an accepted history looks like *)

Definition item_height (item : pyval) : option Z :=
  match item with
  | PDict d =>
    match dict_get d "height" with
    | Some (PInt h) => Some h
    | _ => None
    end
  | _ => None
  end.

Definition item_txid (item : pyval) : option string :=
  match item with
  | PDict d =>
    match dict_get d "tx_hash" with
    | Some (PStr s) => Some s
    | _ => None
    end
  | _ => None
  end.

(** Heights 0 and -1 mark transactions that are not in a block. *)
Definition unconfirmed (h : Z) : Prop := h = 0 \/ h = -1.

(** An item with an integer height, a hash256 [tx_hash] and, when it is
    unconfirmed, a non-negative integer [fee]. *)
Definition history_item_ok (item : pyval) : Prop :=
  exists d h s,
    item = PDict d /\
    dict_get d "height" = Some (PInt h) /\
    dict_get d "tx_hash" = Some (PStr s) /\
    is_hash256_str (PStr s) = true /\
    (unconfirmed h ->
     exists fee, dict_get d "fee" = Some (PInt fee) /\ 0 <= fee).

(** Confirmed heights never decrease along the list. *)
Definition heights_monotone (items : list pyval) : Prop :=
  forall (i j : nat) a b hi hj,
    (i < j)%nat -> items !! i = Some a -> items !! j = Some b ->
    item_height a = Some hi -> item_height b = Some hj ->
    ~ unconfirmed hi -> ~ unconfirmed hj -> hi <= hj.

(** Once an unconfirmed item is seen, every later item is unconfirmed. *)
Definition unconfirmed_last (items : list pyval) : Prop :=
  forall (i j : nat) a b hi hj,
    (i < j)%nat -> items !! i = Some a -> items !! j = Some b ->
    item_height a = Some hi -> item_height b = Some hj ->
    unconfirmed hi -> unconfirmed hj.

(** No two positions carry the same [tx_hash]. *)
Definition txids_distinct (items : list pyval) : Prop :=
  forall (i j : nat) a b s,
    items !! i = Some a -> items !! j = Some b ->
    item_txid a = Some s -> item_txid b = Some s -> i = j.

Record history_ok (items : list pyval) : Prop := {
  hist_items : Forall history_item_ok items;
  hist_monotone : heights_monotone items;
  hist_unconfirmed_last : unconfirmed_last items;
  hist_distinct : txids_distinct items
}.

(** The negation of [below]: a confirmed height that passes the
    monotonicity test against [prev]. *)
Definition not_below (h : Z) (prev : height_bound) : Prop :=
  match prev with
  | Finite p => p <= h
  | Inf => False
  end.

Lemma unconfirmed_dec h : {unconfirmed h} + {~ unconfirmed h}.
Proof.
  unfold unconfirmed.
  destruct (Z.eq_dec h 0); [left; lia|].
  destruct (Z.eq_dec h (-1)); [left; lia | right; lia].
Qed.

Lemma check_history_item_cases prev item :
  (exists h,
     history_item_ok item /\ item_height item = Some h /\
     ((unconfirmed h /\ check_history_item prev item = Ok Inf) \/
      (~ unconfirmed h /\ not_below h prev /\
       check_history_item prev item = Ok (Finite h)))) \/
  check_history_item prev item = Raise RequestCorrupted.
Proof.
  unfold check_history_item, assert_integer, assert_hash256_str,
    assert_non_negative_integer.
  destruct item as [| | | |l|d]; try (right; reflexivity).
  cbn [assert_dict_contains_field item_height].
  destruct (dict_get d "height") as [hv|] eqn:Eh; [|right; reflexivity].
  destruct (dict_get d "tx_hash") as [tv|] eqn:Et; [|right; reflexivity].
  cbn [bind].
  destruct hv as [|h| | | |]; try (right; reflexivity).
  cbn [is_integer negb raise_if bind].
  destruct (is_hash256_str tv) eqn:Htx; [|right; reflexivity].
  cbn [negb raise_if bind int_value].
  destruct tv as [| | |s| |]; try discriminate.
  destruct ((h =? -1) || (h =? 0)) eqn:Hu.
  - destruct (dict_get d "fee") as [fv|] eqn:Ef; [|right; reflexivity].
    cbn [bind].
    destruct fv as [|fee| | | |]; try (right; reflexivity).
    cbn [is_non_negative_integer].
    destruct (0 <=? fee) eqn:Hfee; [|right; reflexivity].
    cbn [negb raise_if bind].
    left. exists h.
    assert (Hun : unconfirmed h) by (unfold unconfirmed; lia).
    split; [|split; [reflexivity | left; split; [exact Hun | reflexivity]]].
    exists d, h, s. repeat split; try assumption.
    intros _. exists fee. split; [exact Ef | lia].
  - assert (Hc : ~ unconfirmed h) by (unfold unconfirmed; lia).
    destruct (below h prev) eqn:Hb; [right; reflexivity|].
    cbn [negb raise_if bind].
    left. exists h.
    split; [|split; [reflexivity | right; split; [exact Hc | split; [|reflexivity]]]].
    + exists d, h, s. repeat split; try assumption.
      intros Hun. contradiction.
    + destruct prev as [p|]; simpl in *; [lia | discriminate].
Qed.

Lemma check_history_loop_cases items : forall prev,
  (exists prev',
     check_history_loop prev items = Ok prev' /\
     Forall history_item_ok items /\
     (forall a h, a ∈ items -> item_height a = Some h ->
                  ~ unconfirmed h -> not_below h prev) /\
     heights_monotone items /\ unconfirmed_last items) \/
  check_history_loop prev items = Raise RequestCorrupted.
Proof.
  induction items as [|x r IH]; intros prev.
  - left. exists prev. split; [reflexivity|]. split; [constructor|].
    split; [intros a h Ha; inversion Ha|].
    split; intros i j a b hi hj _ Hi; rewrite lookup_nil in Hi; discriminate.
  - cbn [check_history_loop].
    destruct (check_history_item_cases prev x)
      as [(hx & Hok & Hhx & Hcase) | ->]; [|right; reflexivity].
    assert (Hstep : exists prev1,
               check_history_item prev x = Ok prev1 /\
               (unconfirmed hx -> prev1 = Inf) /\
               (~ unconfirmed hx -> prev1 = Finite hx /\ not_below hx prev)).
    { destruct Hcase as [[Hu E] | (Hc & Hnb & E)].
      - exists Inf. split; [exact E|]. split; [reflexivity | contradiction].
      - exists (Finite hx). split; [exact E|].
        split; [contradiction | intros _; split; [reflexivity | exact Hnb]]. }
    destruct Hstep as (prev1 & -> & Hu1 & Hc1). cbn [bind].
    destruct (IH prev1) as [(prev' & -> & Hall & Hbound & Hmono & Hlast) | ->];
      [|right; reflexivity].
    left. exists prev'. split; [reflexivity|].
    assert (Hrest : forall b hb, b ∈ r -> item_height b = Some hb ->
                ~ unconfirmed hb -> ~ unconfirmed hx /\ hx <= hb).
    { intros b hb Hb Hhb Hcb. specialize (Hbound b hb Hb Hhb Hcb).
      destruct (unconfirmed_dec hx) as [Hu|Hc].
      - rewrite (Hu1 Hu) in Hbound. contradiction.
      - destruct (Hc1 Hc) as [-> _]. simpl in Hbound. split; assumption. }
    split; [constructor; assumption|]. split; [|split].
    + intros a h Ha Hha Hca. apply elem_of_cons in Ha as [-> | Ha].
      * rewrite Hhx in Hha. injection Hha as <-. now apply Hc1.
      * destruct (Hrest a h Ha Hha Hca) as [Hcx Hle].
        destruct (Hc1 Hcx) as [_ Hnb].
        destruct prev as [p|]; simpl in *; [lia | contradiction].
    + intros i j a b hi hj Hij Hi Hj Hha Hhb Hca Hcb.
      destruct j as [|j]; [lia|]. cbn in Hj.
      destruct i as [|i]; cbn in Hi.
      * injection Hi as <-. rewrite Hhx in Hha. injection Hha as <-.
        apply (Hrest b hj); [eapply list_elem_of_lookup_2; eassumption | assumption..].
      * apply (Hmono i j a b hi hj); [lia | assumption..].
    + intros i j a b hi hj Hij Hi Hj Hha Hhb Hua.
      destruct j as [|j]; [lia|]. cbn in Hj.
      destruct i as [|i]; cbn in Hi.
      * injection Hi as <-. rewrite Hhx in Hha. injection Hha as <-.
        destruct (unconfirmed_dec hj) as [|Hcb]; [assumption|].
        destruct (Hrest b hj) as [Hcx _];
          [eapply list_elem_of_lookup_2; eassumption | assumption.. |].
        contradiction.
      * apply (Hlast i j a b hi hj); [lia | assumption..].
Qed.

Lemma mapM_item_tx_hash items :
  Forall history_item_ok items ->
  exists hashes,
    mapM item_tx_hash items = Ok hashes /\
    Forall2 (fun it s => item_txid it = Some s) items hashes.
Proof.
  induction 1 as [|x r Hx _ IH].
  - exists []. split; [reflexivity | constructor].
  - destruct IH as (hs & Hm & Hf).
    destruct Hx as (d & h & s & -> & _ & Hs & _).
    exists (s :: hs). cbn [mapM]. unfold item_tx_hash at 1.
    cbn [subscript]. rewrite Hs. cbn [bind str_value]. rewrite Hm.
    split; [reflexivity|]. constructor; [|assumption].
    cbn [item_txid]. now rewrite Hs.
Qed.

Lemma size_list_to_set_le (l : list string) :
  (size (list_to_set l : gset string) <= length l)%nat.
Proof.
  induction l as [|x l IH]; [now rewrite list_to_set_nil, size_empty|].
  rewrite list_to_set_cons, size_union_alt, size_singleton. simpl.
  assert (Hsub : (size (list_to_set l ∖ {[x]} : gset string)
                  <= size (list_to_set l : gset string))%nat).
  { apply subseteq_size. set_solver. }
  lia.
Qed.

(** [len(set(l)) == len(l)] only for a duplicate-free [l]. *)
Lemma size_list_to_set_NoDup (l : list string) :
  size (list_to_set l : gset string) = length l -> NoDup l.
Proof.
  induction l as [|x l IH]; intros H; [constructor|].
  rewrite list_to_set_cons in H. simpl in H.
  destruct (decide (x ∈ l)) as [Hin|Hnin].
  - assert (E : ({[x]} ∪ list_to_set l : gset string) = list_to_set l).
    { set_solver. }
    rewrite E in H. pose proof (size_list_to_set_le l). lia.
  - rewrite size_union, size_singleton in H; [|set_solver].
    constructor; [assumption | apply IH; lia].
Qed.

(** The checks on a history either accept the response as it is, and then
    it is a list with the four properties, or raise [RequestCorrupted]. *)
Lemma check_history_cases res :
  (exists items,
     res = PList items /\ history_ok items /\ check_history res = Ok res) \/
  check_history res = Raise RequestCorrupted.
Proof.
  unfold check_history.
  destruct res as [| | | |items|d]; try (right; reflexivity).
  cbn [assert_list_or_tuple list_value bind].
  destruct (check_history_loop_cases items (Finite 1))
    as [(prev' & -> & Hall & _ & Hmono & Hlast) | ->]; [|right; reflexivity].
  cbn [bind].
  destruct (mapM_item_tx_hash items Hall) as (hashes & -> & Hf2).
  cbn [bind].
  destruct (size (list_to_set hashes : gset string) =? length items)%nat eqn:Hsz;
    [|right; reflexivity].
  cbn [negb raise_if bind].
  left. exists items. split; [reflexivity|]. split; [|reflexivity].
  apply Nat.eqb_eq in Hsz.
  assert (Hnd : NoDup hashes).
  { apply size_list_to_set_NoDup. rewrite Hsz.
    eapply Forall2_length, Hf2. }
  split; try assumption.
  intros i j a b s Hi Hj Ha Hb.
  destruct (Forall2_lookup_l _ _ _ _ _ Hf2 Hi) as (sa & Hsa & Ea).
  destruct (Forall2_lookup_l _ _ _ _ _ Hf2 Hj) as (sb & Hsb & Eb).
  assert (sa = s) by congruence. assert (sb = s) by congruence. subst.
  eapply NoDup_lookup; eassumption.
Qed.

(** [needle in hay] for strings *)
Fixpoint contains (needle hay : string) : bool :=
  String.prefix needle hay ||
  match hay with
  | EmptyString => false
  | String _ rest => contains needle rest
  end.

Example contains_example :
  contains "cannot estimate fee" "daemon: cannot estimate fee now" = true.
Proof. reflexivity. Qed.

(** *** The interface object and its environment *)

Section Interface.

(** Types owned by the [blockchain] module: a parsed header (the dict
    returned by [deserialize_header]) and a [Blockchain] object. *)
Context {Header : Type}.
Context {Blockchain : Type}.
(** Everything outside the interface object: the server, the other tasks,
    the global registry of chains. *)
Context {World : Type}.

(** The fields of [Interface] read or written by the modelled methods.
    [_msg_counter] is the request counter of [self.session]. *)
Record Interface : Type := {
  blockchain : option Blockchain;
  _requested_chunks : gset Z;
  tip : Z;
  _headers_cache : gmap Z (list byte);
  _msg_counter : Z
}.

Record State : Type := { self : Interface; world : World }.

(** A method body: it runs on a state, ends with a value or an exception,
    and leaves a state behind in both cases. *)
Definition M (A : Type) : Type := State -> res A * State.

Definition ret {A} (a : A) : M A := fun st => (Ok a, st).
Definition raise {A} (e : exn) : M A := fun st => (Raise e, st).
Definition lift {A} (r : res A) : M A := fun st => (r, st).

Definition bindM {A B} (m : M A) (k : A -> M B) : M B :=
  fun st =>
    match m st with
    | (Ok a, st') => k a st'
    | (Raise e, st') => (Raise e, st')
    end.

(** [try: body finally: fin] *)
Definition try_finally {A} (body : M A) (fin : M unit) : M A :=
  fun st =>
    let '(r, st') := body st in
    match fin st' with
    | (Ok _, st'') => (r, st'')
    | (Raise e, st'') => (Raise e, st'')
    end.

(** [try: body except ... as e: handler e] *)
Definition try_except {A} (body : M A) (handler : exn -> M A) : M A :=
  fun st =>
    match body st with
    | (Ok a, st') => (Ok a, st')
    | (Raise e, st') => handler e st'
    end.

Definition get_self : M Interface := fun st => (Ok (self st), st).
Definition get_world : M World := fun st => (Ok (world st), st).
Definition modify_self (f : Interface -> Interface) : M unit :=
  fun st => (Ok tt, {| self := f (self st); world := world st |}).

Local Notation "x <~ m ;; k" := (bindM m (fun x => k))
  (at level 100, m at next level, right associativity).
Local Notation "m ;;~ k" := (bindM m (fun _ => k))
  (at level 100, right associativity).

(** What happens while a coroutine is suspended in
    [await self.session.send_request(method, params)]: the reply of the
    server or the exception raised by the session, together with whatever
    the server and the other tasks did to the state in the meantime. *)
Variable rpc : string -> list pyval -> State -> res pyval * State.

(** The parts of the [blockchain] module and of [constants.net] used by
    the interface. *)
Variable check_header : World -> Header -> option Blockchain.
Variable can_connect : World -> Blockchain -> Header -> bool -> bool.
Variable connect_chunk : Blockchain -> Z -> list byte -> World -> bool * World.
Variable deserialize_header : list byte -> Z -> res Header.
Variable block_height : Header -> Z.
Variable max_checkpoint : Z.
(** [bitcoin.COIN] *)
Variable COIN : Z.

Definition bump_msg_counter (i : Interface) : Interface :=
  {| blockchain := blockchain i;
     _requested_chunks := _requested_chunks i;
     tip := tip i;
     _headers_cache := _headers_cache i;
     _msg_counter := _msg_counter i + 1 |}.

(** [NotificationSession.send_request]: take the next message id, then
    wait for the reply. *)
Definition send_request (method : string) (params : list pyval) : M pyval :=
  modify_self bump_msg_counter ;;~ rpc method params.

(** [get_block_headers(start_height=..., count=...)].  The arguments are
    annotated [int]; with [Z] arguments the [isinstance] half of
    [is_non_negative_integer] holds by typing and the sign test remains. *)
Definition get_block_headers (start_height count : Z)
  : M (list (list byte)) :=
  lift (raise_if (negb (0 <=? start_height)) Exception_) ;;~
  lift (raise_if (negb (0 <=? count)
                  || negb ((0 <? count) && (count <=? MAX_NUM_HEADERS_PER_REQUEST)))
                 Exception_) ;;~
  res <~ send_request "blockchain.block.headers"
                      [PInt start_height; PInt count] ;;
  i <~ get_self ;;
  lift (check_block_headers (tip i) start_height count res).

Definition set_requested_chunks (f : gset Z -> gset Z) (i : Interface)
  : Interface :=
  {| blockchain := blockchain i;
     _requested_chunks := f (_requested_chunks i);
     tip := tip i;
     _headers_cache := _headers_cache i;
     _msg_counter := _msg_counter i |}.

(** [self.blockchain.connect_chunk(index, data=data)] *)
Definition blockchain_connect_chunk (index : Z) (data : list byte) : M bool :=
  fun st =>
    match blockchain (self st) with
    | None => (Raise AttributeError, st)
    | Some chain =>
      let '(conn, w) := connect_chunk chain index data (world st) in
      (Ok conn, {| self := self st; world := w |})
    end.

(** [request_chunk_below_max_checkpoint(height=...)] *)
Definition request_chunk_below_max_checkpoint (height : Z) : M unit :=
  lift (raise_if (negb (0 <=? height)) Exception_) ;;~
  lift (assert_ (height <=? max_checkpoint)) ;;~
  let index := height / CHUNK_SIZE in
  i <~ get_self ;;
  if bool_decide (index ∈ _requested_chunks i) then ret tt else
  headers <~ try_finally
    (modify_self (set_requested_chunks (fun s => s ∪ {[index]})) ;;~
     get_block_headers (index * CHUNK_SIZE) CHUNK_SIZE)
    (modify_self (set_requested_chunks (fun s => s ∖ {[index]}))) ;;
  conn <~ blockchain_connect_chunk index (concat headers) ;;
  if conn then ret tt else raise RequestCorrupted.

(** [get_history_for_scripthash(sh)] *)
Definition get_history_for_scripthash (sh : pyval) : M pyval :=
  lift (raise_if (negb (is_hash256_str sh)) Exception_) ;;~
  res <~ send_request "blockchain.scripthash.get_history" [sh] ;;
  lift (check_history res).

(** [get_estimatefee(num_blocks)] *)
Definition get_estimatefee (num_blocks : pyval) : M pyval :=
  lift (raise_if (negb (is_non_negative_integer num_blocks)) Exception_) ;;~
  res <~ try_except
    (send_request "blockchain.estimatefee" [num_blocks])
    (fun e =>
       match e with
       | ProtocolError _ message =>
         if contains "cannot estimate fee" message
         then ret (PInt (-1)) else raise e
       | RPCError code _ =>
         if code =? INTERNAL_ERROR then ret (PInt (-1)) else raise e
       | _ => raise e
       end) ;;
  if ne_int res (-1) then
    lift (assert_non_negative_int_or_float res) ;;~
    scaled <~ lift (mul_int res COIN) ;;
    n <~ lift (to_int scaled) ;;
    ret (PInt n)
  else ret res.

(** *** The header cache and the binary search of the fork point *)

Definition set_blockchain (c : option Blockchain) (i : Interface) : Interface :=
  {| blockchain := c;
     _requested_chunks := _requested_chunks i;
     tip := tip i;
     _headers_cache := _headers_cache i;
     _msg_counter := _msg_counter i |}.

Definition set_headers_cache (f : gmap Z (list byte) -> gmap Z (list byte))
  (i : Interface) : Interface :=
  {| blockchain := blockchain i;
     _requested_chunks := _requested_chunks i;
     tip := tip i;
     _headers_cache := f (_headers_cache i);
     _msg_counter := _msg_counter i |}.

(** [_assert_header_does_not_check_against_any_chain(header)] *)
Definition _assert_header_does_not_check_against_any_chain (header : Header)
  : M unit :=
  w <~ get_world ;;
  match check_header w header with
  | Some _ => raise Exception_
  | None => ret tt
  end.

(** [all(height in self._headers_cache for height in range(from, to+1))] *)
Definition cache_has_all (cache : gmap Z (list byte)) (from_height to_height : Z)
  : bool :=
  forallb (fun height => bool_decide (is_Some (cache !! height)))
          (seqZ from_height (to_height + 1 - from_height)).

(** [for idx, raw_header in enumerate(headers): cache[from + idx] = raw_header] *)
Fixpoint store_headers (cache : gmap Z (list byte)) (header_height : Z)
  (headers : list (list byte)) : gmap Z (list byte) :=
  match headers with
  | [] => cache
  | raw_header :: rest =>
    store_headers (<[header_height := raw_header]> cache) (header_height + 1) rest
  end.

Definition _maybe_warm_headers_cache (from_height to_height : Z) : M unit :=
  lift (assert_ (from_height <=? to_height)) ;;~
  lift (assert_ (to_height - from_height <? MAX_NUM_HEADERS_PER_REQUEST)) ;;~
  i <~ get_self ;;
  if cache_has_all (_headers_cache i) from_height to_height then ret tt else
  let count := to_height - from_height + 1 in
  headers <~ get_block_headers from_height count ;;
  modify_self (set_headers_cache (fun c => store_headers c from_height headers)).

(** [bytes.fromhex(res)] on whatever the server sent *)
Definition bytes_fromhex (v : pyval) : res (list byte) :=
  match v with
  | PStr s =>
    match bfh s with
    | Some b => Ok b
    | None => Raise ValueError
    end
  | _ => Raise TypeError
  end.

(** [get_block_header(height, mode=...)]; an empty cache entry is falsy
    and is skipped like a missing one. *)
Definition get_block_header (height : Z) : M Header :=
  lift (raise_if (negb (0 <=? height)) Exception_) ;;~
  i <~ get_self ;;
  match _headers_cache i !! height with
  | Some ((_ :: _) as raw_header) => lift (deserialize_header raw_header height)
  | _ =>
    res <~ send_request "blockchain.block.header" [PInt height] ;;
    raw <~ lift (bytes_fromhex res) ;;
    lift (deserialize_header raw height)
  end.

(** One pass through the body of [while True] in [_search_headers_binary],
    up to the test [good + 1 == bad]; the result is the new
    [(good, bad, bad_header)]. *)
Definition binary_step (good bad : Z) (bad_header : Header)
  : M (Z * Z * Header) :=
  lift (assert_ ((0 <=? good) && (good <? bad))) ;;~
  let height := (good + bad) / 2 in
  (if bad - good + 1 <=? MAX_NUM_HEADERS_PER_REQUEST
   then _maybe_warm_headers_cache good bad else ret tt) ;;~
  header <~ get_block_header height ;;
  w <~ get_world ;;
  match check_header w header with
  | Some chain =>
    modify_self (set_blockchain (Some chain)) ;;~ ret (height, bad, bad_header)
  | None => ret (good, height, header)
  end.

(** The loop, for at most [fuel] passes; [None] when the fuel is used up. *)
Fixpoint binary_loop (fuel : nat) (good bad : Z) (bad_header : Header)
  (st : State) : option (res (Z * Z * Header) * State) :=
  match fuel with
  | O => None
  | S fuel' =>
    match binary_step good bad bad_header st with
    | (Raise e, st') => Some (Raise e, st')
    | (Ok (good', bad', bad_header'), st') =>
      if good' + 1 =? bad' then Some (Ok (good', bad', bad_header'), st')
      else binary_loop fuel' good' bad' bad_header' st'
    end
  end.

(** Lines 1128-1132, before the loop. *)
Definition binary_entry (bad : Z) (bad_header : Header)
  (chain : option Blockchain) : M unit :=
  lift (assert_ (bad =? block_height bad_header)) ;;~
  _assert_header_does_not_check_against_any_chain bad_header ;;~
  modify_self (set_blockchain chain).

(** Lines 1151-1156, after the loop. *)
Definition binary_exit (good bad : Z) (bad_header : Header)
  : M (Z * Z * Header) :=
  i <~ get_self ;;
  w <~ get_world ;;
  match blockchain i with
  | None => raise AttributeError
  | Some chain =>
    if can_connect w chain bad_header false then ret tt else raise Exception_
  end ;;~
  _assert_header_does_not_check_against_any_chain bad_header ;;~
  ret (good, bad, bad_header).

(** [_search_headers_binary(height, bad, bad_header, chain)].  The loop
    gets [bad - height + 1] passes, which is always enough
    ([search_headers_binary_total]). *)
Definition _search_headers_binary (height bad : Z) (bad_header : Header)
  (chain : option Blockchain) (st : State)
  : option (res (Z * Z * Header) * State) :=
  match binary_entry bad bad_header chain st with
  | (Raise e, st1) => Some (Raise e, st1)
  | (Ok _, st1) =>
    match binary_loop (Z.to_nat (bad - height) + 1) height bad bad_header st1 with
    | None => None
    | Some (Raise e, st2) => Some (Raise e, st2)
    | Some (Ok (good, bad', bad_header'), st2) =>
      Some (binary_exit good bad' bad_header' st2)
    end
  end.

(** *** Running the typed requests *)

(** The state in which the reply to a request sent from [st] arrives. *)
Definition sent (st : State) : State :=
  {| self := bump_msg_counter (self st); world := world st |}.

Lemma send_request_run method params st :
  send_request method params st = rpc method params (sent st).
Proof. reflexivity. Qed.

Lemma get_block_headers_run start_height count st reply st1 :
  0 <= start_height ->
  0 < count <= MAX_NUM_HEADERS_PER_REQUEST ->
  rpc "blockchain.block.headers" [PInt start_height; PInt count] (sent st)
    = (Ok reply, st1) ->
  get_block_headers start_height count st
    = (check_block_headers (tip (self st1)) start_height count reply, st1).
Proof.
  intros Hs Hc Hrpc. unfold get_block_headers, bindM, lift, get_self.
  replace (0 <=? start_height) with true by lia.
  replace (0 <=? count) with true by lia.
  replace (0 <? count) with true by lia.
  replace (count <=? MAX_NUM_HEADERS_PER_REQUEST) with true by lia.
  cbn [negb raise_if orb andb]. rewrite send_request_run, Hrpc. reflexivity.
Qed.

(** C2.  For a request of [count] headers with [0 < count <= 2016], a
    response is accepted only if it is a dict with fields [count], [max]
    and [hex], [max >= 2016], the decoded [hex] has [80 * count] bytes, the
    returned count does not exceed the requested one and, when it is
    smaller, [start_height + returned_count - 1] is not below [self.tip];
    the accepted result is the decoded [hex] in 80-byte pieces, and a
    response violating a condition raises [RequestCorrupted]. *)
Theorem get_block_headers_accepts_only_valid start_height count st reply st1 :
  0 <= start_height ->
  0 < count <= MAX_NUM_HEADERS_PER_REQUEST ->
  rpc "blockchain.block.headers" [PInt start_height; PInt count] (sent st)
    = (Ok reply, st1) ->
  (forall headers st',
     get_block_headers start_height count st = (Ok headers, st') ->
     st' = st1 /\
     exists decoded,
       block_headers_ok (tip (self st1)) start_height count reply decoded /\
       headers = chunks decoded (Z.to_nat HEADER_SIZE)) /\
  ((~ exists decoded,
        block_headers_ok (tip (self st1)) start_height count reply decoded) ->
   get_block_headers start_height count st = (Raise RequestCorrupted, st1)).
Proof.
  intros Hs Hc Hrpc.
  rewrite (get_block_headers_run _ _ _ _ _ Hs Hc Hrpc).
  destruct (check_block_headers_cases (tip (self st1)) start_height count reply)
    as [(decoded & -> & Hok) | ->].
  - split.
    + intros headers st' [= <- <-]. split; [reflexivity|].
      exists decoded. split; [assumption | reflexivity].
    + intros Hno. exfalso. apply Hno. now exists decoded.
  - split; [intros headers st' [=] | reflexivity].
Qed.

Lemma get_history_run sh st reply st1 :
  is_hash256_str sh = true ->
  rpc "blockchain.scripthash.get_history" [sh] (sent st) = (Ok reply, st1) ->
  get_history_for_scripthash sh st = (check_history reply, st1).
Proof.
  intros Hsh Hrpc. unfold get_history_for_scripthash, bindM, lift.
  rewrite Hsh. cbn [negb raise_if]. now rewrite send_request_run, Hrpc.
Qed.

(** C3.  A list returned by [get_history_for_scripthash] is the server's
    response unchanged and satisfies [history_ok]: every item has an integer
    height and a hash256 [tx_hash]; confirmed heights never decrease; every
    unconfirmed item (height 0 or -1) carries a non-negative integer [fee];
    the [tx_hash] values are pairwise distinct; no confirmed item follows
    an unconfirmed one.  A response that is not such a list raises
    [RequestCorrupted]. *)
Theorem get_history_accepts_only_valid sh st reply st1 :
  is_hash256_str sh = true ->
  rpc "blockchain.scripthash.get_history" [sh] (sent st) = (Ok reply, st1) ->
  (forall res st',
     get_history_for_scripthash sh st = (Ok res, st') ->
     res = reply /\ st' = st1 /\
     exists items, res = PList items /\ history_ok items) /\
  ((~ exists items, reply = PList items /\ history_ok items) ->
   get_history_for_scripthash sh st = (Raise RequestCorrupted, st1)).
Proof.
  intros Hsh Hrpc. rewrite (get_history_run _ _ _ _ Hsh Hrpc).
  destruct (check_history_cases reply) as [(items & Hr & Hok & ->) | ->].
  - split.
    + intros res st' [= <- <-]. repeat split. now exists items.
    + intros Hno. exfalso. apply Hno. now exists items.
  - split; [intros res st' [=] | reflexivity].
Qed.

(** *** The in-flight marker of [request_chunk_below_max_checkpoint] *)

Lemma blockchain_connect_chunk_self index data st r st' :
  blockchain_connect_chunk index data st = (r, st') -> self st' = self st.
Proof.
  unfold blockchain_connect_chunk.
  destruct (blockchain (self st)); [|now intros [= _ <-]].
  destruct (connect_chunk _ _ _ _). now intros [= _ <-].
Qed.

(** C8.  With [height <= max_checkpoint] (and [height] a block height,
    that is, not negative): if the chunk index [height // CHUNK_SIZE] is
    already in [_requested_chunks] the call returns at once, sends nothing
    and changes nothing; otherwise, whatever the way out (normal return,
    [RequestCorrupted] after a false [connect_chunk], any exception of the
    fetch), the index is not in [_requested_chunks] afterwards. *)
Theorem request_chunk_marker_removed height st :
  height <= max_checkpoint ->
  let index := height / CHUNK_SIZE in
  (0 <= height -> index ∈ _requested_chunks (self st) ->
   request_chunk_below_max_checkpoint height st = (Ok tt, st)) /\
  (index ∉ _requested_chunks (self st) ->
   forall r st',
     request_chunk_below_max_checkpoint height st = (r, st') ->
     index ∉ _requested_chunks (self st')).
Proof.
  intros Hcp index.
  unfold request_chunk_below_max_checkpoint, bindM, lift, get_self.
  replace (height <=? max_checkpoint) with true by lia.
  destruct (0 <=? height) eqn:H0; cbn [negb raise_if assert_]; fold index.
  2:{ split; [lia|]. now intros Hnin r st' [= _ <-]. }
  split.
  - intros _ Hin. rewrite bool_decide_eq_true_2 by assumption. reflexivity.
  - intros Hnin r st'. rewrite bool_decide_eq_false_2 by assumption.
    unfold try_finally, modify_self, bindM.
    destruct (get_block_headers _ _ _) as [fetched st2].
    cbn [self world].
    set (st3 := {| self := set_requested_chunks _ (self st2);
                   world := world st2 |}).
    assert (Hgone : index ∉ _requested_chunks (self st3))
      by (subst st3; cbn; set_solver).
    destruct fetched as [headers|e]; [|now intros [= _ <-]].
    destruct (blockchain_connect_chunk index (concat headers) st3)
      as [conn st4] eqn:Hconn.
    apply blockchain_connect_chunk_self in Hconn.
    destruct conn as [[|]|e]; unfold ret, raise; intros [= _ <-];
      now rewrite Hconn.
Qed.

(** *** [get_estimatefee] *)

Lemma nonneg_float_ne_minus_one f :
  SFleb (S754_zero false) f = true -> ne_int (PFloat f) (-1) = true.
Proof.
  intros Hf.
  assert (E : binary_normalize prec emax (-1) 0 false
              = S754_finite true 4503599627370496 (-52))
    by (vm_compute; reflexivity).
  unfold ne_int. rewrite E.
  destruct f as [s|s| |s m e]; try destruct s; try discriminate Hf;
    reflexivity.
Qed.

(** C6, amended.  For a non-negative integer [num_blocks]:
    [get_estimatefee] returns -1 when the request fails with a protocol
    error whose message contains "cannot estimate fee" or with an RPC error
    of code INTERNAL_ERROR; a successful result equal to -1 is returned
    unchanged; any other successful result that is not a non-negative
    int-or-float raises [RequestCorrupted]; a non-negative int [z] gives
    [z * COIN]; a non-negative float gives the truncation of its product
    with [COIN] whenever that truncation exists. *)
Theorem get_estimatefee_outcomes num_blocks st outcome st1 :
  is_non_negative_integer num_blocks = true ->
  rpc "blockchain.estimatefee" [num_blocks] (sent st) = (outcome, st1) ->
  let result := get_estimatefee num_blocks st in
  (forall c m, outcome = Raise (ProtocolError c m) ->
     contains "cannot estimate fee" m = true ->
     result = (Ok (PInt (-1)), st1)) /\
  (forall m, outcome = Raise (RPCError INTERNAL_ERROR m) ->
     result = (Ok (PInt (-1)), st1)) /\
  (forall v, outcome = Ok v -> ne_int v (-1) = false ->
     result = (Ok v, st1)) /\
  (forall v, outcome = Ok v -> ne_int v (-1) = true ->
     is_non_negative_int_or_float v = false ->
     result = (Raise RequestCorrupted, st1)) /\
  (forall z, outcome = Ok (PInt z) -> 0 <= z ->
     result = (Ok (PInt (z * COIN)), st1)) /\
  (forall f fc n, outcome = Ok (PFloat f) ->
     SFleb (S754_zero false) f = true ->
     float_of_int COIN = Ok fc ->
     int_of_float (SFmul prec emax f fc) = Ok n ->
     result = (Ok (PInt n), st1)).
Proof.
  intros Hnb Hrpc result. subst result.
  unfold get_estimatefee, bindM, lift, try_except.
  rewrite Hnb. cbn [negb raise_if]. rewrite send_request_run, Hrpc.
  repeat split.
  - intros c m -> Hm. rewrite Hm. reflexivity.
  - intros m ->. reflexivity.
  - intros v -> Hv. rewrite Hv. reflexivity.
  - intros v -> Hv Hneg. rewrite Hv.
    unfold assert_non_negative_int_or_float. rewrite Hneg. reflexivity.
  - intros z -> Hz.
    replace (ne_int (PInt z) (-1)) with true
      by (cbn; symmetry; apply negb_true_iff; lia).
    unfold assert_non_negative_int_or_float, is_non_negative_int_or_float.
    cbn [is_int_or_float ge0 andb].
    replace (0 <=? z) with true by lia. reflexivity.
  - intros f fc n -> Hf Hfc Hn.
    rewrite (nonneg_float_ne_minus_one f Hf).
    unfold assert_non_negative_int_or_float, is_non_negative_int_or_float.
    cbn [is_int_or_float ge0 andb]. rewrite Hf.
    cbn [negb raise_if mul_int]. rewrite Hfc. cbn [to_int]. rewrite Hn.
    reflexivity.
Qed.

(** *** The binary search *)

Lemma binary_loop_break fuel : forall good bad bad_header st good' bad' bh' st',
  binary_loop fuel good bad bad_header st = Some (Ok (good', bad', bh'), st') ->
  good' + 1 = bad'.
Proof.
  induction fuel as [|fuel IH]; intros good bad bad_header st good' bad' bh' st';
    cbn [binary_loop]; [discriminate|].
  destruct (binary_step good bad bad_header st) as [[[[g b] h]|e] st1];
    [|discriminate].
  destruct (g + 1 =? b) eqn:E.
  - intros [= <- <- <- <-]. lia.
  - apply IH.
Qed.

Lemma assert_header_does_not_check_Ok header st u st' :
  _assert_header_does_not_check_against_any_chain header st = (Ok u, st') ->
  st' = st /\ check_header (world st) header = None.
Proof.
  unfold _assert_header_does_not_check_against_any_chain, bindM, get_world.
  destruct (check_header (world st) header); unfold raise, ret;
    intros [=]; subst; split; reflexivity.
Qed.

Lemma binary_exit_Ok good bad bad_header st out st' :
  binary_exit good bad bad_header st = (Ok out, st') ->
  out = (good, bad, bad_header) /\ st' = st /\
  check_header (world st) bad_header = None /\
  exists chain, blockchain (self st) = Some chain /\
                can_connect (world st) chain bad_header false = true.
Proof.
  unfold binary_exit, bindM, get_self, get_world.
  destruct (blockchain (self st)) as [chain|]; [|discriminate].
  destruct (can_connect (world st) chain bad_header false) eqn:Hcc;
    [|discriminate].
  cbn [ret].
  destruct (_assert_header_does_not_check_against_any_chain bad_header st)
    as [[u|e] st2] eqn:Hchk; [|discriminate].
  apply assert_header_does_not_check_Ok in Hchk as [-> Hnone].
  intros [= <- <-]. repeat split; try assumption. now exists chain.
Qed.

(** C1.  Whenever [_search_headers_binary] returns a triple
    [(good, bad, bad_header)]: [good + 1 == bad]; [bad_header] does not
    [check_header] against any known chain; and [bad_header] [can_connect]
    (with [check_height=False]) to the chain that is [self.blockchain] at
    that moment. *)
Theorem search_headers_binary_postcondition
  height bad bad_header chain st good bad' bad_header' st' :
  _search_headers_binary height bad bad_header chain st
    = Some (Ok (good, bad', bad_header'), st') ->
  good + 1 = bad' /\
  check_header (world st') bad_header' = None /\
  exists adopted,
    blockchain (self st') = Some adopted /\
    can_connect (world st') adopted bad_header' false = true.
Proof.
  unfold _search_headers_binary.
  destruct (binary_entry bad bad_header chain st) as [[u|e] st1];
    [|discriminate].
  destruct (binary_loop _ height bad bad_header st1)
    as [[[[[g b] h]|e] st2]|] eqn:Hloop; try discriminate.
  apply binary_loop_break in Hloop.
  intros [= Hexit]. apply binary_exit_Ok in Hexit as ([= <- <- <-] & -> & Hnone & Hcc).
  repeat split; assumption.
Qed.

(** The loop never uses up its passes: the search always ends, with a
    triple or with an exception. *)
Lemma binary_step_Ok good bad bad_header st good' bad' bh' st' :
  binary_step good bad bad_header st = (Ok (good', bad', bh'), st') ->
  0 <= good < bad /\
  ((good' = (good + bad) / 2 /\ bad' = bad) \/
   (good' = good /\ bad' = (good + bad) / 2)).
Proof.
  unfold binary_step, bindM, lift.
  destruct ((0 <=? good) && (good <? bad)) eqn:Hrange; [|discriminate].
  cbn [assert_].
  destruct ((if bad - good + 1 <=? MAX_NUM_HEADERS_PER_REQUEST
             then _maybe_warm_headers_cache good bad else ret tt) st)
    as [[u|e] st1]; [|discriminate].
  destruct (get_block_header ((good + bad) / 2) st1) as [[header|e] st2];
    [|discriminate].
  unfold get_world.
  destruct (check_header (world st2) header);
    unfold modify_self, ret; intros [= <- <- <- <-];
    (split; [lia|]); [left | right]; split; reflexivity.
Qed.

Lemma binary_loop_total fuel : forall good bad bad_header st,
  (Z.to_nat (bad - good) < fuel)%nat ->
  exists out, binary_loop fuel good bad bad_header st = Some out.
Proof.
  induction fuel as [|fuel IH]; intros good bad bad_header st Hfuel; [lia|].
  cbn [binary_loop].
  destruct (binary_step good bad bad_header st) as [[[[g b] h]|e] st1] eqn:Hstep;
    [|eauto].
  destruct (g + 1 =? b) eqn:E; [eauto|].
  apply IH. apply binary_step_Ok in Hstep as [Hr Hcase].
  pose proof (Z.div_mod (good + bad) 2 ltac:(lia)).
  pose proof (Z.mod_pos_bound (good + bad) 2 ltac:(lia)).
  destruct Hcase as [[-> ->] | [-> ->]]; lia.
Qed.

Lemma search_headers_binary_total height bad bad_header chain st :
  exists out, _search_headers_binary height bad bad_header chain st = Some out.
Proof.
  unfold _search_headers_binary.
  destruct (binary_entry bad bad_header chain st) as [[u|e] st1]; [|eauto].
  destruct (binary_loop_total (Z.to_nat (bad - height) + 1) height bad
              bad_header st1 ltac:(lia)) as ([[[[g b] h]|e] st2] & ->); eauto.
Qed.

End Interface.

(** *** A small world for running the methods

    The local chain and the server agree up to height 5; the server's
    chain differs from height 6 on and its tip is at height 10.  A parsed
    header is its height and whether it is the local chain's header at
    that height; a raw header is 80 bytes whose first byte is 0 for a
    shared header and 1 otherwise. *)
Module Toy.

Definition header : Type := Z * bool.
Definition chain : Type := unit.
Definition toy_world : Type := unit.
Abbreviation toy_state := (@State chain toy_world).

Definition server_tip : Z := 10.
Definition fork_height : Z := 5.

Fixpoint zeros (n : nat) : string :=
  match n with
  | O => ""
  | S n' => "00" +:+ zeros n'
  end.

Definition header_hex (h : Z) : string :=
  (if h <=? fork_height then "00" else "01") +:+ zeros 79.

Definition headers_hex (start : Z) (n : nat) : string :=
  fold_right (fun h acc => header_hex h +:+ acc) ""
             (seqZ start (Z.of_nat n)).

Definition txid (c : ascii) : string := string_of_list_ascii (repeat c 64).

Definition history_reply : pyval :=
  PList [PDict [("height", PInt 100); ("tx_hash", PStr (txid "a"))];
         PDict [("height", PInt 100); ("tx_hash", PStr (txid "b"))];
         PDict [("height", PInt 0); ("tx_hash", PStr (txid "c"));
                ("fee", PInt 250)]].

Definition headers_reply (start count : Z) : pyval :=
  let n := Z.min count (server_tip - start + 1) in
  PDict [("count", PInt n); ("hex", PStr (headers_hex start (Z.to_nat n)));
         ("max", PInt 2016)].

(** The server: answers at once and touches nothing else. *)
Definition toy_rpc (estimate : res pyval) (method : string)
  (params : list pyval) (st : toy_state) : res pyval * toy_state :=
  if String.eqb method "blockchain.block.header" then
    match params with
    | [PInt h] => (Ok (PStr (header_hex h)), st)
    | _ => (Raise (RPCError (-32602) "invalid params"), st)
    end
  else if String.eqb method "blockchain.block.headers" then
    match params with
    | [PInt start; PInt count] => (Ok (headers_reply start count), st)
    | _ => (Raise (RPCError (-32602) "invalid params"), st)
    end
  else if String.eqb method "blockchain.scripthash.get_history" then
    (Ok history_reply, st)
  else if String.eqb method "blockchain.estimatefee" then (estimate, st)
  else (Raise (RPCError (-32601) "unknown method"), st).

Definition toy_check_header (w : toy_world) (hd : header) : option chain :=
  if snd hd then Some tt else None.

Definition toy_can_connect (w : toy_world) (c : chain) (hd : header)
  (check_height : bool) : bool :=
  fst hd =? fork_height + 1.

(** [connects] says whether the store accepts the chunk. *)
Definition toy_connect_chunk (connects : bool) (c : chain) (index : Z)
  (data : list byte) (w : toy_world) : bool * toy_world :=
  (connects, w).

Definition toy_deserialize_header (raw : list byte) (height : Z) : res header :=
  match raw with
  | b :: _ => Ok (height, Byte.eqb b x00)
  | [] => Raise (OtherError "InvalidHeader")
  end.

Definition initial : toy_state :=
  {| self := {| blockchain := Some tt; _requested_chunks := ∅;
                tip := server_tip; _headers_cache := ∅; _msg_counter := 0 |};
     world := tt |}.

Definition no_estimate : res pyval := Ok (PInt (-1)).

Definition COIN : Z := 100000000.

(** **** Headers *)

Example headers_reply_accepted :
  option_map (map (@length byte))
    (match fst (get_block_headers (toy_rpc no_estimate) 4 5 initial) with
     | Ok hs => Some hs
     | Raise _ => None
     end) = Some [80; 80; 80; 80; 80]%nat.
Proof. vm_compute. reflexivity. Qed.

(** Fewer headers than requested are accepted when they reach the tip. *)
Example headers_short_at_tip :
  option_map (@length (list byte))
    (match fst (get_block_headers (toy_rpc no_estimate) 8 10 initial) with
     | Ok hs => Some hs
     | Raise _ => None
     end) = Some 3%nat.
Proof. vm_compute. reflexivity. Qed.

Lemma get_block_headers_accepts_only_valid_witness :
  (forall headers st',
     get_block_headers (toy_rpc no_estimate) 4 5 initial = (Ok headers, st') ->
     st' = sent initial /\
     exists decoded,
       block_headers_ok (tip (self (sent initial))) 4 5 (headers_reply 4 5)
                        decoded /\
       headers = chunks decoded (Z.to_nat HEADER_SIZE)) /\
  ((~ exists decoded,
        block_headers_ok (tip (self (sent initial))) 4 5 (headers_reply 4 5)
                         decoded) ->
   get_block_headers (toy_rpc no_estimate) 4 5 initial
     = (Raise RequestCorrupted, sent initial)).
Proof.
  apply (get_block_headers_accepts_only_valid (toy_rpc no_estimate) 4 5
           initial (headers_reply 4 5) (sent initial)).
  - lia.
  - unfold MAX_NUM_HEADERS_PER_REQUEST. lia.
  - reflexivity.
Defined.

(** **** History *)

Example history_accepted :
  fst (get_history_for_scripthash (toy_rpc no_estimate) (PStr (txid "f")) initial)
  = Ok history_reply.
Proof. vm_compute. reflexivity. Qed.

(** A confirmed item after an unconfirmed one, decreasing heights and a
    repeated txid are all refused. *)
Example history_confirmed_after_unconfirmed :
  check_history
    (PList [PDict [("height", PInt 0); ("tx_hash", PStr (txid "a"));
                   ("fee", PInt 1)];
            PDict [("height", PInt 7); ("tx_hash", PStr (txid "b"))]])
  = Raise RequestCorrupted.
Proof. vm_compute. reflexivity. Qed.

Example history_decreasing_heights :
  check_history
    (PList [PDict [("height", PInt 8); ("tx_hash", PStr (txid "a"))];
            PDict [("height", PInt 7); ("tx_hash", PStr (txid "b"))]])
  = Raise RequestCorrupted.
Proof. vm_compute. reflexivity. Qed.

Example history_repeated_txid :
  check_history
    (PList [PDict [("height", PInt 7); ("tx_hash", PStr (txid "a"))];
            PDict [("height", PInt 7); ("tx_hash", PStr (txid "a"))]])
  = Raise RequestCorrupted.
Proof. vm_compute. reflexivity. Qed.

Lemma get_history_accepts_only_valid_witness :
  (forall res st',
     get_history_for_scripthash (toy_rpc no_estimate) (PStr (txid "f")) initial
       = (Ok res, st') ->
     res = history_reply /\ st' = sent initial /\
     exists items, res = PList items /\ history_ok items) /\
  ((~ exists items, history_reply = PList items /\ history_ok items) ->
   get_history_for_scripthash (toy_rpc no_estimate) (PStr (txid "f")) initial
     = (Raise RequestCorrupted, sent initial)).
Proof.
  apply (get_history_accepts_only_valid (toy_rpc no_estimate)
           (PStr (txid "f")) initial history_reply (sent initial)).
  - reflexivity.
  - reflexivity.
Defined.

(** **** Chunks below the checkpoint *)

Definition in_flight (index : Z) : toy_state :=
  {| self := {| blockchain := Some tt; _requested_chunks := {[index]};
                tip := server_tip; _headers_cache := ∅; _msg_counter := 0 |};
     world := tt |}.

Definition chunk_outcome (r : res unit * toy_state) : res unit * list Z * Z :=
  (fst r, elements (_requested_chunks (self (snd r))), _msg_counter (self (snd r))).

(** Normal return: one request went out, the marker is gone. *)
Example chunk_connected :
  chunk_outcome (request_chunk_below_max_checkpoint (toy_rpc no_estimate)
                   (toy_connect_chunk true) 4031 0 initial)
  = (Ok tt, [], 1).
Proof. vm_compute. reflexivity. Qed.

(** The chunk does not connect. *)
Example chunk_not_connected :
  chunk_outcome (request_chunk_below_max_checkpoint (toy_rpc no_estimate)
                   (toy_connect_chunk false) 4031 0 initial)
  = (Raise RequestCorrupted, [], 1).
Proof. vm_compute. reflexivity. Qed.

(** The fetch fails: the server has nothing at heights 2016 and up. *)
Example chunk_fetch_fails :
  chunk_outcome (request_chunk_below_max_checkpoint (toy_rpc no_estimate)
                   (toy_connect_chunk true) 4031 2016 initial)
  = (Raise RequestCorrupted, [], 1).
Proof. vm_compute. reflexivity. Qed.

(** Already in flight: nothing is sent. *)
Example chunk_in_flight :
  chunk_outcome (request_chunk_below_max_checkpoint (toy_rpc no_estimate)
                   (toy_connect_chunk true) 4031 100 (in_flight 0))
  = (Ok tt, [0], 0).
Proof. vm_compute. reflexivity. Qed.

Lemma request_chunk_marker_removed_witness :
  (0 <= 100 -> 0 ∈ _requested_chunks (self initial) ->
   request_chunk_below_max_checkpoint (toy_rpc no_estimate)
     (toy_connect_chunk true) 4031 100 initial = (Ok tt, initial)) /\
  (0 ∉ _requested_chunks (self initial) ->
   forall r st',
     request_chunk_below_max_checkpoint (toy_rpc no_estimate)
       (toy_connect_chunk true) 4031 100 initial = (r, st') ->
     0 ∉ _requested_chunks (self st')).
Proof.
  apply (request_chunk_marker_removed (toy_rpc no_estimate)
           (toy_connect_chunk true) 4031 100 initial).
  lia.
Defined.

(** **** Fee estimates *)

Example estimatefee_internal_error :
  fst (get_estimatefee
         (toy_rpc (Raise (RPCError INTERNAL_ERROR
                            "internal error: bitcoind request timed out")))
         COIN (PInt 2) initial)
  = Ok (PInt (-1)).
Proof. vm_compute. reflexivity. Qed.

(** 0.00001 BTC/kB, the binary64 value [0x1.4f8b588e368f1p-17]. *)
Definition btc_0_00001 : spec_float :=
  S754_finite false 5902958103587057 (-69).

Example estimatefee_float :
  fst (get_estimatefee (toy_rpc (Ok (PFloat btc_0_00001))) COIN (PInt 2) initial)
  = Ok (PInt 1000).
Proof. vm_compute. reflexivity. Qed.

Example estimatefee_negative :
  fst (get_estimatefee (toy_rpc (Ok (PInt (-2)))) COIN (PInt 2) initial)
  = Raise RequestCorrupted.
Proof. vm_compute. reflexivity. Qed.

(** C6, as stated, fails: the server's successful result -1 is not a
    non-negative int-or-float, yet the call does not raise
    [RequestCorrupted]; it returns -1. *)
Lemma get_estimatefee_minus_one_counterexample :
  let reply := PInt (-1) in
  is_non_negative_int_or_float reply = false /\
  toy_rpc (Ok reply) "blockchain.estimatefee" [PInt 2] (sent initial)
    = (Ok reply, sent initial) /\
  get_estimatefee (toy_rpc (Ok reply)) COIN (PInt 2) initial
    = (Ok (PInt (-1)), sent initial) /\
  get_estimatefee (toy_rpc (Ok reply)) COIN (PInt 2) initial
    <> (Raise RequestCorrupted, sent initial).
Proof.
  cbv zeta. split; [reflexivity|]. split; [reflexivity|].
  split; [reflexivity | discriminate].
Qed.

Lemma get_estimatefee_outcomes_witness :
  get_estimatefee (toy_rpc (Ok (PInt 3))) COIN (PInt 2) initial
  = (Ok (PInt (3 * COIN)), sent initial).
Proof.
  destruct (get_estimatefee_outcomes (toy_rpc (Ok (PInt 3))) COIN (PInt 2)
              initial (Ok (PInt 3)) (sent initial)
              ltac:(reflexivity) ltac:(reflexivity))
    as (_ & _ & _ & _ & Hint & _).
  apply (Hint 3); [reflexivity | lia].
Defined.

(** **** The binary search *)

Definition search : option (res (Z * Z * header) * toy_state) :=
  _search_headers_binary (toy_rpc no_estimate) toy_check_header toy_can_connect
    toy_deserialize_header fst 4 8 (8, false) (Some tt) initial.

Definition search_final : toy_state :=
  match search with
  | Some (_, st') => st'
  | None => initial
  end.

(** Between a good height 4 and a bad height 8 the search finds the fork
    point (5, 6) with a single batch request. *)
Example search_result :
  option_map (fun out => (fst out, _msg_counter (self (snd out)))) search
  = Some (Ok (5, 6, (6, false)), 1).
Proof. vm_compute. reflexivity. Qed.

Lemma search_headers_binary_postcondition_witness :
  5 + 1 = 6 /\
  toy_check_header (world search_final) (6, false) = None /\
  exists adopted,
    blockchain (self search_final) = Some adopted /\
    toy_can_connect (world search_final) adopted (6, false) false = true.
Proof.
  apply (search_headers_binary_postcondition (toy_rpc no_estimate)
           toy_check_header toy_can_connect toy_deserialize_header fst
           4 8 (8, false) (Some tt) initial 5 6 (6, false) search_final).
  vm_compute. reflexivity.
Defined.

End Toy.

End Iface.

(* ===================================================================== *)
(** ** ServerAddr *)
(* ===================================================================== *)

Module Addr.
Import Py Val.
Local Open Scope py_scope.
Local Open Scope string_scope.

(** [_KNOWN_NETWORK_PROTOCOLS = {'t', 's'}] *)
Definition is_known_protocol (protocol : string) : bool :=
  String.eqb protocol "t" || String.eqb protocol "s".

(** **** String operations used by [ServerAddr] *)

(** [s[0]], [s[-1]] and [s[1:-1]] *)
Definition str_first (s : string) : option ascii :=
  match s with
  | EmptyString => None
  | String c _ => Some c
  end.

Fixpoint str_last (s : string) : option ascii :=
  match s with
  | EmptyString => None
  | String c EmptyString => Some c
  | String _ r => str_last r
  end.

Fixpoint drop_last (s : string) : string :=
  match s with
  | EmptyString => EmptyString
  | String _ EmptyString => EmptyString
  | String c r => String c (drop_last r)
  end.

Definition str_inner (s : string) : string :=
  match s with
  | EmptyString => EmptyString
  | String _ r => drop_last r
  end.

(** [host[0] == '[' and host[-1] == ']'] *)
Definition bracketed (host : string) : bool :=
  match str_first host, str_last host with
  | Some a, Some b => Ascii.eqb a "[" && Ascii.eqb b "]"
  | _, _ => false
  end.

(** Split at the last [':'], if there is one. *)
Fixpoint rsplit1 (s : string) : option (string * string) :=
  match s with
  | EmptyString => None
  | String c r =>
    match rsplit1 r with
    | Some (a, b) => Some (String c a, b)
    | None => if Ascii.eqb c ":" then Some (EmptyString, r) else None
    end
  end.

(** [s.rsplit(':', 2)] *)
Definition rsplit2 (s : string) : list string :=
  match rsplit1 s with
  | None => [s]
  | Some (a, c) =>
    match rsplit1 a with
    | None => [a; c]
    | Some (x, b) => [x; b; c]
    end
  end.

(** [str(n)] for an int *)
Definition int_str (n : Z) : string := NilZero.string_of_int (Z.to_int n).

Example rsplit2_ipv6 :
  rsplit2 "[2001:db8::1]:50002:s" = ["[2001:db8::1]"; "50002"; "s"].
Proof. reflexivity. Qed.

Example rsplit2_short : rsplit2 "localhost:50001" = ["localhost"; "50001"].
Proof. reflexivity. Qed.

Example int_str_port : int_str 50002 = "50002".
Proof. reflexivity. Qed.

(** **** The address object *)

(** The port argument of the constructor: [Union[int, str]].  A [bool] is
    an [int] in Python, so [True] and [False] can be passed too. *)
Inductive port_arg : Type :=
| PortInt (n : Z)
| PortBool (b : bool)
| PortStr (s : string).

(** An [int] object as the library keeps it: a plain int or a bool, with
    [int(True) = 1] and [str(True) = 'True']. *)
Inductive py_int : Type :=
| IntVal (n : Z)
| BoolVal (b : bool).

(** [int(p)] *)
Definition int_of (p : py_int) : Z :=
  match p with
  | IntVal n => n
  | BoolVal b => if b then 1 else 0
  end.

(** [str(p)] *)
Definition str_of (p : py_int) : string :=
  match p with
  | IntVal n => int_str n
  | BoolVal true => "True"
  | BoolVal false => "False"
  end.

(** An [aiorpcx.NetAddress]: [str(net_addr.host)], whether the host is an
    [IPv6Address], and the port object. *)
Record NetAddress : Type := {
  na_host : string;
  na_is_ipv6 : bool;
  na_port : py_int
}.

Record ServerAddr : Type := {
  host : string;
  port : Z;
  protocol : string;
  _net_addr_str : string
}.

(** What [==] can be handed: another [ServerAddr] or anything else. *)
Inductive pyobj : Type :=
| OServerAddr (a : ServerAddr)
| OOther (v : pyval).

(** [__eq__] *)
Definition ServerAddr_eq (self : ServerAddr) (other : pyobj) : bool :=
  match other with
  | OServerAddr other =>
    String.eqb (host self) (host other)
    && (port self =? port other)%Z
    && String.eqb (protocol self) (protocol other)
  | OOther _ => false
  end.

(** [__ne__] *)
Definition ServerAddr_ne (self : ServerAddr) (other : pyobj) : bool :=
  negb (ServerAddr_eq self other).

(** [net_addr_str] and [__str__] *)
Definition net_addr_str (self : ServerAddr) : string := _net_addr_str self.

Definition ServerAddr_str (self : ServerAddr) : string :=
  net_addr_str self ++ ":" ++ protocol self.

(** [to_friendly_name] *)
Definition to_friendly_name (self : ServerAddr) : string :=
  if String.eqb (protocol self) "s" then net_addr_str self
  else ServerAddr_str self.

Section WithNetAddress.

(** [aiorpcx.NetAddress] validates the host and the port.  The library is
    not part of the repository: [classify_host h] is [None] when the
    library rejects [h], else whether the host is an IPv6 address together
    with [str] of the classified host; [validate_port p] is the accepted
    port object. *)
Variable classify_host : string -> option (bool * string).
Variable validate_port : port_arg -> option py_int.

(** Python's [hash] on the tuple [(host, port, protocol)]. *)
Variable tuple_hash : string * Z * string -> Z.

(** [NetAddress(host, port)]; [None] stands for the exception. *)
Definition NetAddress_new (host : string) (port : port_arg)
  : option NetAddress :=
  match classify_host host, validate_port port with
  | Some (v6, h), Some p => Some {| na_host := h; na_is_ipv6 := v6; na_port := p |}
  | _, _ => None
  end.

(** [str(net_addr)]: the library prints an IPv6 host in brackets, and the
    port with [str]. *)
Definition NetAddress_str (na : NetAddress) : string :=
  if na_is_ipv6 na
  then "[" ++ na_host na ++ "]:" ++ str_of (na_port na)
  else na_host na ++ ":" ++ str_of (na_port na).

(** [ServerAddr(host, port, protocol=protocol)] *)
Definition ServerAddr_init (host : string) (port : port_arg)
  (protocol : option string) : res ServerAddr :=
  let protocol := match protocol with None => "s" | Some p => p end in
  if String.eqb host "" then Raise ValueError else
  let host := if bracketed host then str_inner host else host in
  match NetAddress_new host port with
  | None => Raise ValueError
  | Some net_addr =>
    if negb (is_known_protocol protocol) then Raise ValueError else
    Ok {| host := na_host net_addr;
          port := int_of (na_port net_addr);
          protocol := protocol;
          _net_addr_str := NetAddress_str net_addr |}
  end.

(** [ServerAddr.from_str(s)]; unpacking fewer than three parts is a
    [ValueError]. *)
Definition from_str (s : string) : res ServerAddr :=
  match rsplit2 s with
  | [host; port; protocol] => ServerAddr_init host (PortStr port) (Some protocol)
  | _ => Raise ValueError
  end.

(** [__hash__] *)
Definition ServerAddr_hash (self : ServerAddr) : Z :=
  tuple_hash (host self, port self, protocol self).

(** C9.  Equality of [ServerAddr] values is a total boolean function
    consistent with hashing: [a == b] exactly when the triples
    [(host, port, protocol)] are equal; [a == b] implies
    [hash(a) == hash(b)]; comparing with a value of another type gives
    [False]. *)
Theorem ServerAddr_eq_triple_hash (a b : ServerAddr) :
  (ServerAddr_eq a (OServerAddr b) = true <->
   (host a, port a, protocol a) = (host b, port b, protocol b)) /\
  (ServerAddr_eq a (OServerAddr b) = true ->
   ServerAddr_hash a = ServerAddr_hash b) /\
  (forall v, ServerAddr_eq a (OOther v) = false).
Proof.
  assert (Hiff : ServerAddr_eq a (OServerAddr b) = true <->
                 (host a, port a, protocol a) = (host b, port b, protocol b)).
  { cbn [ServerAddr_eq]. rewrite !andb_true_iff, !String.eqb_eq, Z.eqb_eq.
    split.
    - intros [[-> ->] ->]. reflexivity.
    - intros [= -> -> ->]. repeat split. }
  split; [exact Hiff|]. split.
  - intros Heq. apply Hiff in Heq. unfold ServerAddr_hash. now rewrite Heq.
  - intros v. reflexivity.
Qed.

(** **** The text of an address and its parts *)

Fixpoint no_colon (s : string) : bool :=
  match s with
  | EmptyString => true
  | String c r => negb (Ascii.eqb c ":") && no_colon r
  end.

Lemma rsplit1_no_colon s : no_colon s = true -> rsplit1 s = None.
Proof.
  induction s as [|c r IH]; cbn [no_colon rsplit1]; [reflexivity|].
  intros H. apply andb_true_iff in H as [Hc Hr].
  rewrite (IH Hr). apply negb_true_iff in Hc. now rewrite Hc.
Qed.

Lemma rsplit1_app a b :
  no_colon b = true -> rsplit1 (a ++ String ":" b) = Some (a, b).
Proof.
  intros Hb. induction a as [|c r IH]; simpl.
  - now rewrite (rsplit1_no_colon b Hb).
  - now rewrite IH.
Qed.

Lemma append_cons x (a b : string) : String x a ++ b = String x (a ++ b).
Proof. reflexivity. Qed.

Lemma append_assoc (a b c : string) : (a ++ b) ++ c = a ++ (b ++ c).
Proof.
  induction a as [|x a IH]; [reflexivity|].
  now rewrite !append_cons, IH.
Qed.

Lemma no_colon_uint d : no_colon (NilEmpty.string_of_uint d) = true.
Proof. induction d; cbn [NilEmpty.string_of_uint no_colon]; auto. Qed.

Lemma no_colon_int_str n : no_colon (int_str n) = true.
Proof.
  unfold int_str, NilZero.string_of_int, NilZero.string_of_uint.
  destruct (Z.to_int n) as [d|d]; destruct d; try reflexivity;
    cbn [no_colon]; rewrite ?no_colon_uint; reflexivity.
Qed.

Lemma no_colon_known_protocol p : is_known_protocol p = true -> no_colon p = true.
Proof.
  unfold is_known_protocol. intros H.
  apply orb_true_iff in H as [H|H]; apply String.eqb_eq in H; subst; reflexivity.
Qed.

Lemma str_last_snoc s c : str_last (s ++ String c EmptyString) = Some c.
Proof.
  induction s as [|x r IH]; [reflexivity|].
  rewrite append_cons. cbn [str_last]. rewrite IH.
  destruct (r ++ String c "") eqn:E; [|reflexivity].
  destruct r; discriminate.
Qed.

Lemma drop_last_snoc s c : drop_last (s ++ String c EmptyString) = s.
Proof.
  induction s as [|x r IH]; [reflexivity|].
  rewrite append_cons. cbn [drop_last]. rewrite IH.
  destruct (r ++ String c "") eqn:E; [destruct r; discriminate | reflexivity].
Qed.

Lemma bracketed_brackets c : bracketed ("[" ++ c ++ "]") = true.
Proof.
  unfold bracketed.
  replace (str_last ("[" ++ c ++ "]")) with (Some "]"%char)
    by (rewrite <- append_assoc; now rewrite str_last_snoc).
  reflexivity.
Qed.

Lemma str_inner_brackets c : str_inner ("[" ++ c ++ "]") = c.
Proof.
  change ("[" ++ c ++ "]") with (String "[" (c ++ "]")).
  cbn [str_inner]. apply drop_last_snoc.
Qed.

(** **** Parsing back the printed form *)

(** What the round trip relies on from [aiorpcx.NetAddress]: the printed
    form of an accepted host is accepted again and classified as itself; it
    is not empty; the printed form of a host that is not an IPv6 address is
    not enclosed in brackets; a port that is accepted and was not given as
    a bool is kept as a plain int, whose decimal text is accepted as the
    same port. *)
Hypothesis classify_canonical : forall h v6 c,
  classify_host h = Some (v6, c) -> classify_host c = Some (v6, c).
Hypothesis classify_nonempty : forall h v6 c,
  classify_host h = Some (v6, c) -> c <> "".
Hypothesis classify_plain : forall h c,
  classify_host h = Some (false, c) -> bracketed c = false.
Hypothesis port_canonical : forall p v,
  validate_port p = Some v -> (forall b, p <> PortBool b) ->
  exists n,
    v = IntVal n /\ validate_port (PortStr (int_str n)) = Some (IntVal n).

Lemma ServerAddr_init_Ok h p proto addr :
  ServerAddr_init h p proto = Ok addr ->
  exists h' v6 v,
    classify_host h' = Some (v6, host addr) /\
    validate_port p = Some v /\
    port addr = int_of v /\
    is_known_protocol (protocol addr) = true /\
    _net_addr_str addr =
      NetAddress_str {| na_host := host addr; na_is_ipv6 := v6;
                        na_port := v |}.
Proof.
  unfold ServerAddr_init, NetAddress_new.
  destruct (String.eqb h ""); [discriminate|].
  set (h' := if bracketed h then str_inner h else h).
  destruct (classify_host h') as [[v6 c]|] eqn:Hc; [|discriminate].
  destruct (validate_port p) as [v|] eqn:Hp; [|discriminate].
  destruct (is_known_protocol _) eqn:Hk; [|discriminate].
  cbn [negb]. intros [= <-]. exists h', v6, v. cbn. repeat split; assumption.
Qed.

(** C7, amended.  For every address built by the constructor from an
    accepted host (bracketed or not), an accepted port that was given as
    an int other than a bool or as a string, and protocol 't' or 's',
    [ServerAddr.from_str(str(addr))] succeeds and is equal to [addr]. *)
Theorem from_str_str_roundtrip h p proto addr :
  ServerAddr_init h p proto = Ok addr ->
  (forall b, p <> PortBool b) ->
  exists addr',
    from_str (ServerAddr_str addr) = Ok addr' /\
    ServerAddr_eq addr' (OServerAddr addr) = true.
Proof.
  intros Hinit Hint.
  destruct (ServerAddr_init_Ok _ _ _ _ Hinit)
    as (h' & v6 & v & Hc & Hp & Hport & Hk & Hs).
  exists addr. split.
  2:{ cbn [ServerAddr_eq]. now rewrite !String.eqb_refl, Z.eqb_refl. }
  pose proof (classify_canonical _ _ _ Hc) as Hc'.
  pose proof (classify_nonempty _ _ _ Hc) as Hne.
  destruct (port_canonical _ _ Hp Hint) as (n & -> & Hp').
  cbn [int_of] in Hport. rewrite <- Hport in Hp', Hs.
  set (hrepr := if v6 then "[" ++ host addr ++ "]" else host addr).
  assert (Hstr : ServerAddr_str addr
                  = (hrepr ++ String ":" (int_str (port addr)))
                      ++ String ":" (protocol addr)).
  { unfold ServerAddr_str, net_addr_str. rewrite Hs. unfold NetAddress_str.
    cbn [na_is_ipv6 na_host na_port str_of]. subst hrepr.
    destruct v6; [|reflexivity].
    change ("]:" ++ int_str (port addr))
      with ("]" ++ String ":" (int_str (port addr))).
    now rewrite !append_assoc. }
  unfold from_str, rsplit2. rewrite Hstr.
  rewrite rsplit1_app by now apply no_colon_known_protocol.
  rewrite rsplit1_app by apply no_colon_int_str.
  unfold ServerAddr_init, NetAddress_new.
  assert (Hnonempty : String.eqb hrepr "" = false).
  { apply String.eqb_neq. subst hrepr. destruct v6; [discriminate | assumption]. }
  rewrite Hnonempty.
  assert (Hhost : (if bracketed hrepr then str_inner hrepr else hrepr) = host addr).
  { subst hrepr. destruct v6.
    - now rewrite bracketed_brackets, str_inner_brackets.
    - now rewrite (classify_plain _ _ Hc). }
  rewrite Hhost, Hc', Hp', Hk. cbn [negb int_of].
  f_equal. destruct addr as [ah ap apr an]. cbn in *. now rewrite Hs.
Qed.

End WithNetAddress.

(** **** A small address library for examples

    Host names are non-empty strings over letters, digits, ['.'], ['-'] and
    ['_'], kept as they are; IPv6 addresses are strings over hex digits,
    [':'] and ['.'] with at least one [':'], printed in lower case; ports
    are the numbers 1..65535, given as ints or as decimal text.  As in
    [aiorpcx.util.validate_port], which tests
    [isinstance(port, int) and 0 < port <= 65535] and returns the object it
    was given, the bool [True] passes as a port and is kept as [True]. *)

Fixpoint string_forall (f : ascii -> bool) (s : string) : bool :=
  match s with
  | EmptyString => true
  | String c r => f c && string_forall f r
  end.

Fixpoint string_map (f : ascii -> ascii) (s : string) : string :=
  match s with
  | EmptyString => EmptyString
  | String c r => String (f c) (string_map f r)
  end.

Definition in_range (lo hi : N) (c : ascii) : bool :=
  ((lo <=? N_of_ascii c) && (N_of_ascii c <=? hi))%N.

Definition is_host_char (c : ascii) : bool :=
  in_range 97 122 c || in_range 65 90 c || in_range 48 57 c
  || Ascii.eqb c "." || Ascii.eqb c "-" || Ascii.eqb c "_".

Definition is_v6_char (c : ascii) : bool :=
  in_range 48 57 c || in_range 97 102 c || in_range 65 70 c
  || Ascii.eqb c ":" || Ascii.eqb c ".".

Definition lower (c : ascii) : ascii :=
  if in_range 65 90 c then ascii_of_N (N_of_ascii c + 32) else c.

Definition toy_classify_host (h : string) : option (bool * string) :=
  if String.eqb h "" then None
  else if string_forall is_host_char h then Some (false, h)
  else if string_forall is_v6_char h && negb (no_colon h)
       then Some (true, string_map lower h)
  else None.

Definition port_in_range (n : Z) : option Z :=
  if ((0 <? n) && (n <=? 65535))%Z then Some n else None.

Definition toy_validate_port (p : port_arg) : option py_int :=
  match p with
  | PortInt n => option_map IntVal (port_in_range n)
  | PortBool b =>
    option_map (fun _ => BoolVal b) (port_in_range (int_of (BoolVal b)))
  | PortStr s =>
    match NilZero.uint_of_string s with
    | Some d => option_map IntVal (port_in_range (Z.of_N (N.of_uint d)))
    | None => None
    end
  end.

Definition toy_addr : ServerAddr :=
  {| host := "2001:db8::1"; port := 50002; protocol := "t";
     _net_addr_str := "[2001:db8::1]:50002" |}.

Example toy_init :
  ServerAddr_init toy_classify_host toy_validate_port
    "[2001:DB8::1]" (PortInt 50002) (Some "t") = Ok toy_addr.
Proof. reflexivity. Qed.

Example toy_str : ServerAddr_str toy_addr = "[2001:db8::1]:50002:t".
Proof. reflexivity. Qed.

Example toy_from_str :
  from_str toy_classify_host toy_validate_port "[2001:db8::1]:50002:t"
  = Ok toy_addr.
Proof. reflexivity. Qed.

Example toy_hostname :
  from_str toy_classify_host toy_validate_port "electrum.example.org:50001:s"
  = Ok {| host := "electrum.example.org"; port := 50001; protocol := "s";
          _net_addr_str := "electrum.example.org:50001" |}.
Proof. reflexivity. Qed.

Example toy_from_str_short :
  from_str toy_classify_host toy_validate_port "localhost:50001"
  = Raise ValueError.
Proof. reflexivity. Qed.

Lemma lower_facts c :
  lower (lower c) = lower c /\
  (is_v6_char c = true -> is_v6_char (lower c) = true) /\
  Ascii.eqb (lower c) ":" = Ascii.eqb c ":" /\
  (Ascii.eqb c ":" = true -> is_host_char c = false) /\
  (is_host_char c = true -> Ascii.eqb c "[" = false).
Proof.
  destruct c as [[] [] [] [] [] [] [] []]; vm_compute;
    repeat split; congruence.
Qed.

Lemma no_colon_lower s : no_colon (string_map lower s) = no_colon s.
Proof.
  induction s as [|c r IH]; [reflexivity|]. cbn [string_map no_colon].
  destruct (lower_facts c) as (_ & _ & -> & _). now rewrite IH.
Qed.

Lemma v6_lower s :
  string_forall is_v6_char s = true ->
  string_forall is_v6_char (string_map lower s) = true.
Proof.
  induction s as [|c r IH]; [reflexivity|]. cbn [string_map string_forall].
  intros H. apply andb_true_iff in H as [Hc Hr].
  destruct (lower_facts c) as (_ & Hv & _). now rewrite (Hv Hc), (IH Hr).
Qed.

Lemma lower_lower s : string_map lower (string_map lower s) = string_map lower s.
Proof.
  induction s as [|c r IH]; [reflexivity|]. cbn [string_map].
  destruct (lower_facts c) as (-> & _). now rewrite IH.
Qed.

Lemma colon_not_host s :
  no_colon s = false -> string_forall is_host_char s = false.
Proof.
  induction s as [|c r IH]; [discriminate|]. cbn [no_colon string_forall].
  destruct (Ascii.eqb c ":") eqn:E.
  - destruct (lower_facts c) as (_ & _ & _ & Hh & _). now rewrite (Hh E).
  - cbn [negb andb]. intros H. rewrite (IH H). apply andb_false_r.
Qed.

Lemma toy_classify_canonical h v6 c :
  toy_classify_host h = Some (v6, c) -> toy_classify_host c = Some (v6, c).
Proof.
  unfold toy_classify_host.
  destruct (String.eqb h "") eqn:Hne; [discriminate|].
  destruct (string_forall is_host_char h) eqn:Hh.
  - intros [= <- <-]. now rewrite Hne, Hh.
  - destruct (string_forall is_v6_char h) eqn:Hv; [|discriminate].
    destruct (no_colon h) eqn:Hc; [discriminate|].
    intros [= <- <-].
    replace (String.eqb (string_map lower h) "") with false
      by (destruct h; [discriminate | reflexivity]).
    rewrite colon_not_host by now rewrite no_colon_lower.
    now rewrite v6_lower, no_colon_lower, Hc, lower_lower.
Qed.

Lemma toy_classify_nonempty h v6 c :
  toy_classify_host h = Some (v6, c) -> c <> "".
Proof.
  unfold toy_classify_host.
  destruct (String.eqb h "") eqn:Hne; [discriminate|].
  apply String.eqb_neq in Hne.
  destruct (string_forall is_host_char h).
  - now intros [= <- <-].
  - destruct (_ && _); [|discriminate]. intros [= <- <-].
    destruct h; [congruence | discriminate].
Qed.

Lemma toy_classify_plain h c :
  toy_classify_host h = Some (false, c) -> bracketed c = false.
Proof.
  unfold toy_classify_host.
  destruct (String.eqb h ""); [discriminate|].
  destruct (string_forall is_host_char h) eqn:Hh.
  - intros [= <-]. destruct h as [|x r]; [reflexivity|].
    cbn [string_forall] in Hh. apply andb_true_iff in Hh as [Hx _].
    destruct (lower_facts x) as (_ & _ & _ & _ & Hb).
    unfold bracketed. cbn [str_first]. rewrite (Hb Hx).
    now destruct (str_last (String x r)).
  - destruct (_ && _); discriminate.
Qed.

Lemma toy_port_canonical p v :
  toy_validate_port p = Some v -> (forall b, p <> PortBool b) ->
  exists n,
    v = IntVal n /\ toy_validate_port (PortStr (int_str n)) = Some (IntVal n).
Proof.
  intros Hp Hint.
  assert (Hr : exists n, v = IntVal n /\ port_in_range n = Some n /\ (0 < n)%Z).
  { unfold toy_validate_port, port_in_range in *.
    destruct p as [m|b|t].
    - destruct ((0 <? m) && (m <=? 65535))%Z eqn:E; [|discriminate].
      injection Hp as <-. exists m. rewrite E.
      split; [reflexivity|]. split; [reflexivity | lia].
    - now destruct (Hint b).
    - destruct (NilZero.uint_of_string t) as [d|]; [|discriminate].
      destruct ((0 <? Z.of_N (N.of_uint d))
                && (Z.of_N (N.of_uint d) <=? 65535))%Z eqn:E; [|discriminate].
      injection Hp as <-. exists (Z.of_N (N.of_uint d)). rewrite E.
      split; [reflexivity|]. split; [reflexivity | lia]. }
  destruct Hr as (n & -> & Hr & Hpos). exists n. split; [reflexivity|].
  destruct n as [|q|q]; try lia.
  unfold toy_validate_port, int_str, NilZero.string_of_int. cbn [Z.to_int].
  rewrite NilZero.usu by apply DecimalPos.Unsigned.to_uint_nonnil.
  unfold N.of_uint. rewrite DecimalPos.Unsigned.of_to.
  cbn [Z.of_N]. now rewrite Hr.
Qed.

(** C7, as stated, fails: [True] is a valid port for the constructor, the
    address built from it has port 1 and keeps the library's text
    ['localhost:True'], and [from_str] rejects its printed form. *)
Lemma from_str_str_bool_port_counterexample :
  exists addr,
    ServerAddr_init toy_classify_host toy_validate_port
      "localhost" (PortBool true) (Some "s") = Ok addr /\
    port addr = 1%Z /\
    ServerAddr_str addr = "localhost:True:s" /\
    from_str toy_classify_host toy_validate_port (ServerAddr_str addr)
    = Raise ValueError.
Proof. eexists. repeat split. Qed.

Lemma from_str_str_roundtrip_witness :
  exists addr',
    from_str toy_classify_host toy_validate_port (ServerAddr_str toy_addr)
      = Ok addr' /\
    ServerAddr_eq addr' (OServerAddr toy_addr) = true.
Proof.
  apply (from_str_str_roundtrip toy_classify_host toy_validate_port
           toy_classify_canonical toy_classify_nonempty toy_classify_plain
           toy_port_canonical
           "[2001:DB8::1]" (PortInt 50002) (Some "t") toy_addr).
  - reflexivity.
  - discriminate.
Defined.

End Addr.

(* ===================================================================== *)
(** ** NotificationSession: the subscription registry *)
(* ===================================================================== *)

Module Session.
Import Py Val.
Local Open Scope py_scope.

(** An [asyncio.Queue] object; queues are compared by identity. *)
Definition Queue : Type := positive.

(** [subscriptions] is the [defaultdict(list)] from subscription key to
    subscriber queues, [cache] the last result per key, [queue_items] the
    pending items of every queue object. *)
Record NotificationSession : Type := {
  subscriptions : gmap string (list Queue);
  cache : gmap string pyval;
  queue_items : gmap Queue (list pyval)
}.

(** [v.remove(x)]: drops the first occurrence, [ValueError] if there is
    none. *)
Fixpoint list_remove (x : Queue) (v : list Queue) : res (list Queue) :=
  match v with
  | [] => Raise ValueError
  | y :: r =>
    if decide (y = x) then Ok r
    else r' <- list_remove x r ;; Ok (y :: r')
  end.

(** The body of the loop: [if queue in v: v.remove(queue)]. *)
Definition unsubscribe_value (queue : Queue) (v : list Queue)
  : res (list Queue) :=
  if bool_decide (queue ∈ v) then list_remove queue v else Ok v.

(** [for v in d.values(): body v], each list being updated in place. *)
Fixpoint for_each_value (body : list Queue -> res (list Queue))
  (entries : list (string * list Queue)) : res (list (string * list Queue)) :=
  match entries with
  | [] => Ok []
  | (k, v) :: rest =>
    v' <- body v ;;
    rest' <- for_each_value body rest ;;
    Ok ((k, v') :: rest')
  end.

(** [unsubscribe(queue)] *)
Definition unsubscribe (queue : Queue) (self : NotificationSession)
  : res NotificationSession :=
  entries <- for_each_value (unsubscribe_value queue)
                            (map_to_list (subscriptions self)) ;;
  Ok {| subscriptions := list_to_map entries;
        cache := cache self;
        queue_items := queue_items self |}.

(** A list with the first occurrence of [x] removed, if there is one. *)
Fixpoint remove_first (x : Queue) (v : list Queue) : list Queue :=
  match v with
  | [] => []
  | y :: r => if decide (y = x) then r else y :: remove_first x r
  end.

Definition two_keys : NotificationSession :=
  {| subscriptions := {[ "a" := [1; 2]; "b" := [3]; "c" := [2; 1; 2] ]}%positive;
     cache := {[ "a" := PInt 7 ]};
     queue_items := ∅ |}.

Example unsubscribe_two_keys :
  option_map (fun s => map_to_list (subscriptions s))
    (match unsubscribe 2%positive two_keys with
     | Ok s => Some s
     | Raise _ => None
     end)
  = Some (map_to_list
            ({[ "a" := [1]; "b" := [3]; "c" := [1; 2] ]}%positive
               : gmap string (list Queue))).
Proof. vm_compute. reflexivity. Qed.

Lemma remove_first_notin x v : x ∉ v -> remove_first x v = v.
Proof.
  induction v as [|y r IH]; intros Hnin; [reflexivity|].
  cbn [remove_first]. apply not_elem_of_cons in Hnin as [Hne Hr].
  destruct (decide (y = x)); [congruence|]. now rewrite IH.
Qed.

Lemma list_remove_in x v : x ∈ v -> list_remove x v = Ok (remove_first x v).
Proof.
  induction v as [|y r IH]; intros Hin; [inversion Hin|].
  cbn [list_remove remove_first].
  destruct (decide (y = x)); [reflexivity|].
  apply elem_of_cons in Hin as [->|Hin]; [congruence|].
  now rewrite (IH Hin).
Qed.

Lemma unsubscribe_value_Ok queue v :
  unsubscribe_value queue v = Ok (remove_first queue v).
Proof.
  unfold unsubscribe_value. case_bool_decide as Hin.
  - now apply list_remove_in.
  - now rewrite remove_first_notin.
Qed.

Lemma for_each_value_Ok body g entries :
  (forall v, body v = Ok (g v)) ->
  for_each_value body entries = Ok (prod_map id g <$> entries).
Proof.
  intros Hbody. induction entries as [|[k v] rest IH]; [reflexivity|].
  cbn [for_each_value]. rewrite Hbody, IH. reflexivity.
Qed.









End Session.

(* ===================================================================== *)
(** ** PaddedRSTransport: what a send does to the buffer *)
(* ===================================================================== *)

Module TransportProps.
Import Py Transport.

Lemma slice_range {A} (l : list A) a b :
  0 <= a <= b -> b <= Z.of_nat (length l) ->
  Seq.slice l a b = take (Z.to_nat (b - a)) (drop (Z.to_nat a) l).
Proof.
  intros Hab Hb. unfold Seq.slice, Seq.clamp. cbv zeta.
  destruct (a <? 0) eqn:Ea; [apply Z.ltb_lt in Ea; lia|].
  destruct (b <? 0) eqn:Eb; [apply Z.ltb_lt in Eb; lia|].
  now rewrite !Z.min_l by lia.
Qed.

(** Cutting a buffer at [p_idx]: the part before the terminator, the two
    terminator bytes and the rest make up the buffer again. *)
Lemma cut_pieces (buf : list byte) p_idx :
  2 <= p_idx <= Z.of_nat (length buf) ->
  Seq.slice_to buf (p_idx - 2) ++ Seq.slice buf (p_idx - 2) p_idx
    ++ Seq.slice_from buf p_idx = buf.
Proof.
  intros Hp. unfold Seq.slice_to, Seq.slice_from.
  rewrite !slice_range by lia.
  replace (Z.to_nat (p_idx - 2 - 0)) with (Z.to_nat (p_idx - 2)) by lia.
  replace (Z.to_nat (p_idx - (p_idx - 2))) with 2%nat by lia.
  change (Z.to_nat 0) with 0%nat. rewrite drop_0.
  rewrite (take_ge (drop (Z.to_nat p_idx) buf))
    by (rewrite length_drop; lia).
  rewrite app_assoc, take_take_drop.
  replace (Z.to_nat (p_idx - 2) + 2)%nat with (Z.to_nat p_idx) by lia.
  apply take_drop.
Qed.

Lemma terminator_cut buf p_idx :
  1 <= p_idx <= Z.of_nat (length buf) ->
  is_json_rpc_terminator (Seq.slice buf (p_idx - 2) p_idx) = true ->
  2 <= p_idx.
Proof.
  intros Hp Ht. apply terminator_length in Ht.
  assert (Hl : Z.of_nat (length (Seq.slice buf (p_idx - 2) p_idx)) = 2) by lia.
  rewrite Seq.length_slice in Hl. unfold Seq.clamp in Hl.
  destruct (p_idx <? 0) eqn:E1; destruct (p_idx - 2 <? 0) eqn:E2; lia.
Qed.

(** Every way [_maybe_consume_sbuffer] can return: nothing happened, or
    the buffer was cut at some [p_idx] behind a terminator, the part before
    it went out with [npad] spaces in front of the terminator, and the rest
    stayed. *)
Lemma consume_cases now sent_at self self' :
  _maybe_consume_sbuffer now sent_at self = Ok self' ->
  self' = self \/
  exists p_idx npad,
    2 <= p_idx <= Z.of_nat (length (_sbuffer self)) /\ 0 <= npad /\
    is_json_rpc_terminator
      (Seq.slice (_sbuffer self) (p_idx - 2) p_idx) = true /\
    wire self' = wire self
                 ++ [Seq.slice_to (_sbuffer self) (p_idx - 2)
                     ++ Seq.times npad SPACE
                     ++ Seq.slice (_sbuffer self) (p_idx - 2) p_idx] /\
    _sbuffer self' = Seq.slice_from (_sbuffer self) p_idx /\
    _last_send self' = sent_at /\
    ((p_idx = payload_lsize (_sbuffer self) /\
      npad = npad_lsize (_sbuffer self)) \/
     (_force_send self = false /\
      npad_ssize (_sbuffer self) = Some npad /\
      npad < npad_lsize (_sbuffer self))) /\
    _can_send self = true /\ closing self = false /\
    should_send now self = true.
Proof.
  unfold _maybe_consume_sbuffer.
  destruct (_can_send self) eqn:Hcan; cbn [negb orb];
    [|intros [= <-]; now left].
  destruct (closing self) eqn:Hcl; [intros [= <-]; now left|].
  destruct (_sbuffer self) as [|b0 buf'] eqn:Ebuf; [intros [= <-]; now left|].
  destruct (should_send now self) eqn:Hsend; cbn [negb];
    [|intros [= <-]; now left].
  set (buf := b0 :: buf') in *.
  intros H. apply bind_Ok_inv in H as (_ & _ & H).
  assert (Hlen : 1 <= Z.of_nat (length buf)) by (subst buf; simpl; lia).
  pose proof (payload_lt_total_lsize buf) as Hlt. unfold payload_lsize in Hlt.
  right.
  destruct (npad_ssize buf) as [ns|] eqn:Ens.
  - destruct (npad_ssize_Some _ _ Ens) as (Hns & Hp & Htot).
    destruct (_force_send self || (npad_lsize buf <=? ns)) eqn:Echoice.
    + apply bind_Ok_inv in H as (u & Ht & H). apply assert_Ok_inv in Ht.
      injection H as <-. cbn [wire _sbuffer _last_send].
      exists (payload_lsize buf), (npad_lsize buf).
      pose proof (terminator_cut buf (payload_lsize buf)
                    ltac:(unfold payload_lsize; lia) Ht).
      unfold npad_lsize, payload_lsize in *.
      repeat split; try assumption; try reflexivity; lia.
    + apply bind_Ok_inv in H as (u & Ht & H). apply assert_Ok_inv in Ht.
      injection H as <-. cbn [wire _sbuffer _last_send].
      exists (payload_ssize buf), ns.
      pose proof (terminator_cut buf (payload_ssize buf) Hp Ht).
      apply orb_false_iff in Echoice as [Hf Hle].
      repeat split; try assumption; try reflexivity; try lia.
      right. repeat split; try assumption. lia.
  - apply bind_Ok_inv in H as (u & Ht & H). apply assert_Ok_inv in Ht.
    injection H as <-. cbn [wire _sbuffer _last_send].
    exists (payload_lsize buf), (npad_lsize buf).
    pose proof (terminator_cut buf (payload_lsize buf)
                  ltac:(unfold payload_lsize; lia) Ht).
    unfold npad_lsize, payload_lsize in *.
    repeat split; try assumption; try reflexivity; lia.
Qed.

Lemma wire_grows_by_one (w : list (list byte)) pkt : w <> w ++ [pkt].
Proof.
  intros H. apply (f_equal (@length _)) in H.
  rewrite length_app in H. simpl in H. lia.
Qed.

(** X1.  A send loses nothing: the packet handed to the socket is a
    prefix of the buffer with spaces inserted in front of its final
    terminator ([}\n] or []\n]); that prefix followed by what stays in the
    buffer is the buffer as it was. *)
Theorem consume_conserves_bytes now sent_at self self' pkt :
  _maybe_consume_sbuffer now sent_at self = Ok self' ->
  wire self' = wire self ++ [pkt] ->
  exists payload npad term,
    pkt = payload ++ repeat SPACE npad ++ term /\
    is_json_rpc_terminator term = true /\
    payload ++ term ++ _sbuffer self' = _sbuffer self.
Proof.
  intros Hrun Hw.
  destruct (consume_cases _ _ _ _ Hrun)
    as [-> | (p & npad & Hp & Hn & Ht & Hw' & Hbuf & _)].
  - now apply wire_grows_by_one in Hw.
  - rewrite Hw' in Hw. apply app_inj_tail in Hw as [_ <-].
    exists (Seq.slice_to (_sbuffer self) (p - 2)), (Z.to_nat npad),
           (Seq.slice (_sbuffer self) (p - 2) p).
    split; [reflexivity|]. split; [exact Ht|].
    rewrite Hbuf. now apply cut_pieces.
Qed.

Lemma consume_conserves_bytes_witness :
  exists payload npad term,
    padded_msg 1000 ++ padded_msg 100 ++ []
      = payload ++ term ++ padded_msg 100 /\
    is_json_rpc_terminator term = true /\ npad = 24%nat.
Proof.
  pose (self := fresh (padded_msg 1000 ++ padded_msg 100) false).
  pose (pkt := Seq.slice_to (_sbuffer self) 998 ++ Seq.times 24 SPACE
               ++ [RBRACE; LF]).
  pose (self' := {| _sbuffer := padded_msg 100; _sbuffer_has_data_evt := true;
                    _last_send := seconds 0; _force_send := false;
                    _can_send := true; closing := false; wire := [pkt] |}).
  destruct (consume_conserves_bytes (seconds 0) (seconds 0) self self' pkt
              ltac:(vm_compute; reflexivity) ltac:(reflexivity))
    as (payload & npad & term & Hpkt & Ht & Hcut).
  exists payload, 24%nat, term. split; [|split; [exact Ht | reflexivity]].
  rewrite app_nil_r. symmetry. exact Hcut.
Defined.

Lemma slice_tail2 (body term : list byte) :
  length term = 2%nat ->
  Seq.slice_from (body ++ term) (-2) = term /\
  Seq.slice (body ++ term) (payload_lsize (body ++ term) - 2)
            (payload_lsize (body ++ term)) = term /\
  Seq.slice_to (body ++ term) (payload_lsize (body ++ term) - 2) = body /\
  Seq.slice_from (body ++ term) (payload_lsize (body ++ term)) = [].
Proof.
  intros Ht. unfold payload_lsize, Seq.slice_to.
  assert (Hlen : Z.of_nat (length (body ++ term))
                 = Z.of_nat (length body) + 2)
    by (rewrite length_app; lia).
  assert (Hfrom : Seq.slice_from (body ++ term) (-2) = term).
  { unfold Seq.slice_from, Seq.slice, Seq.clamp. cbv zeta.
    change (-2 <? 0) with true. cbv iota.
    destruct (Z.of_nat (length (body ++ term)) <? 0) eqn:E;
      [apply Z.ltb_lt in E; lia|].
    rewrite Z.min_id, Z.max_r by lia.
    replace (Z.to_nat (Z.of_nat (length (body ++ term)) + -2))
      with (length body) by lia.
    rewrite drop_app_length. apply take_ge. lia. }
  split; [exact Hfrom|]. unfold Seq.slice_from.
  rewrite !slice_range by lia. rewrite Hlen.
  replace (Z.to_nat (Z.of_nat (length body) + 2 - 2)) with (length body) by lia.
  replace (Z.to_nat (Z.of_nat (length body) + 2
                     - (Z.of_nat (length body) + 2 - 2))) with 2%nat by lia.
  replace (Z.to_nat (Z.of_nat (length body) + 2 - 2 - 0))
    with (length body) by lia.
  change (Z.to_nat 0) with 0%nat. rewrite drop_0, drop_app_length.
  rewrite take_app_length.
  split; [apply take_ge; lia|]. split; [reflexivity|].
  replace (Z.to_nat (Z.of_nat (length body) + 2))
    with (length (body ++ term)) by lia.
  rewrite drop_all. apply take_nil.
Qed.

(** X2.  A forced send (the short-lived certificate session) always
    empties the buffer: when the transport may send and the buffer ends in
    a terminator, the whole buffer goes out as one packet of [total_lsize]
    bytes, the buffer is empty afterwards and the has-data event is
    cleared, whatever the clock says. *)
Theorem forced_send_empties_buffer now sent_at self body term :
  _force_send self = true ->
  _can_send self = true ->
  closing self = false ->
  _sbuffer self = body ++ term ->
  is_json_rpc_terminator term = true ->
  exists self',
    _maybe_consume_sbuffer now sent_at self = Ok self' /\
    _sbuffer self' = [] /\
    _sbuffer_has_data_evt self' = false /\
    wire self' = wire self
                 ++ [body ++ Seq.times (npad_lsize (body ++ term)) SPACE ++ term].
Proof.
  intros Hf Hcan Hcl Hbuf Ht.
  pose proof (terminator_length _ Ht) as Htl.
  destruct (slice_tail2 body term Htl) as (H1 & H2 & H3 & H4).
  unfold _maybe_consume_sbuffer, should_send.
  rewrite Hcan, Hcl, Hf, Hbuf. cbn [negb orb].
  destruct (body ++ term) as [|b0 r] eqn:E.
  { destruct body; destruct term; discriminate. }
  rewrite <- E in *. rewrite H1, Ht. cbn [assert_ bind].
  destruct (npad_ssize (body ++ term)); rewrite H2, H3, H4, Ht;
    cbn [assert_ bind]; (eexists; split; [reflexivity|]; cbn; repeat split).
Qed.

Lemma forced_send_empties_buffer_witness :
  exists self',
    _maybe_consume_sbuffer (seconds 0) (seconds 0) (fresh (padded_msg 3) true) = Ok self' /\
    _sbuffer self' = [] /\
    _sbuffer_has_data_evt self' = false /\
    wire self' = wire (fresh (padded_msg 3) true)
                 ++ [[x7b] ++ Seq.times (npad_lsize ([x7b] ++ [RBRACE; LF])) SPACE
                     ++ [RBRACE; LF]].
Proof.
  apply (forced_send_empties_buffer (seconds 0) (seconds 0) (fresh (padded_msg 3) true)
           [x7b] [RBRACE; LF]); reflexivity.
Defined.

Lemma total_lsize_at_most_double buf :
  total_lsize buf <= Z.max 1024 (2 * payload_lsize buf).
Proof.
  unfold total_lsize, MIN_PACKET_SIZE, payload_lsize.
  destruct buf as [|b r]; [vm_compute; discriminate|].
  set (n := Z.of_nat (length (b :: r))).
  assert (Hn : 0 < n) by (subst n; simpl; lia).
  pose proof (bit_length_spec n Hn) as [Hlo _].
  pose proof (bit_length_nonneg n).
  assert (bit_length n <> 0).
  { intros E. pose proof (bit_length_spec n Hn) as [_ Hhi].
    rewrite E in Hhi. simpl in Hhi. lia. }
  assert (E : 2 ^ bit_length n = 2 * 2 ^ (bit_length n - 1)).
  { replace (bit_length n) with (Z.succ (bit_length n - 1)) at 1 by lia.
    rewrite Z.pow_succ_r by lia. reflexivity. }
  lia.
Qed.

(** X3.  The cost of padding is bounded: an emitted packet carries at
    most [npad_lsize] pad bytes (option (2) is taken only when it pads
    less), is never longer than [total_lsize], and so never longer than the
    larger of 1024 and twice the buffer length. *)
Theorem padding_is_bounded now sent_at self self' pkt :
  _maybe_consume_sbuffer now sent_at self = Ok self' ->
  wire self' = wire self ++ [pkt] ->
  let buf := _sbuffer self in
  let consumed := payload_lsize buf - payload_lsize (_sbuffer self') in
  0 <= Z.of_nat (length pkt) - consumed <= npad_lsize buf /\
  Z.of_nat (length pkt) <= total_lsize buf /\
  Z.of_nat (length pkt) <= Z.max 1024 (2 * payload_lsize buf).
Proof.
  intros Hrun Hw buf consumed. subst buf consumed.
  pose proof (total_lsize_at_most_double (_sbuffer self)) as Hdouble.
  destruct (consume_cases _ _ _ _ Hrun)
    as [-> | (p & npad & Hp & Hn & Ht & Hw' & Hbuf & _ & Hopt & _)].
  - now apply wire_grows_by_one in Hw.
  - rewrite Hw' in Hw. apply app_inj_tail in Hw as [_ <-].
    rewrite packet_length by (try assumption; lia).
    assert (Hrest : payload_lsize (_sbuffer self)
                    - payload_lsize (_sbuffer self') = p).
    { unfold payload_lsize. rewrite Hbuf.
      unfold Seq.slice_from. rewrite slice_range by lia.
      rewrite length_take, length_drop. lia. }
    rewrite Hrest.
    assert (Hle : npad <= npad_lsize (_sbuffer self) /\
                  p + npad <= total_lsize (_sbuffer self)).
    { destruct Hopt as [[-> ->] | (_ & Hs & Hlt)].
      - unfold npad_lsize. lia.
      - destruct (npad_ssize_Some _ _ Hs) as (_ & Hps & Htot).
        pose proof (total_ssize_pow2 (_sbuffer self)) as (k & Hk & Hss).
        assert (total_ssize (_sbuffer self) <= total_lsize (_sbuffer self)).
        { unfold total_ssize.
          pose proof (total_lsize_pow2 (_sbuffer self)) as (j & Hj & Hls).
          assert (1024 <= total_lsize (_sbuffer self)).
          { rewrite Hls. change 1024 with (2 ^ 10).
            apply Z.pow_le_mono_r; lia. }
          pose proof (Z.div_le_upper_bound (total_lsize (_sbuffer self)) 2
                        (total_lsize (_sbuffer self)) ltac:(lia) ltac:(lia)).
          unfold MIN_PACKET_SIZE. lia. }
        unfold npad_lsize, payload_lsize in *. lia. }
    lia.
Qed.

Lemma padding_is_bounded_witness :
  Z.of_nat 1024 <= Z.max 1024 (2 * 1100).
Proof.
  pose (self := fresh (padded_msg 1000 ++ padded_msg 100) false).
  pose (pkt := Seq.slice_to (_sbuffer self) 998 ++ Seq.times 24 SPACE
               ++ [RBRACE; LF]).
  pose (self' := {| _sbuffer := padded_msg 100; _sbuffer_has_data_evt := true;
                    _last_send := seconds 0; _force_send := false;
                    _can_send := true; closing := false; wire := [pkt] |}).
  destruct (padding_is_bounded (seconds 0) (seconds 0) self self' pkt
              ltac:(vm_compute; reflexivity) ltac:(reflexivity))
    as (_ & _ & H).
  exact H.
Defined.

End TransportProps.

(* ===================================================================== *)
(** ** NotificationSession: subscribing and incoming notifications *)
(* ===================================================================== *)

Module SessionOps.
Import Py Val Session.

(** The session object: the registry of [Session], whether [close] was
    called, and the message counter. *)
Record Sess : Type := {
  reg : NotificationSession;
  closed : bool;
  _msg_counter : Z
}.

(** The arguments of an incoming message: a JSON array or a JSON object. *)
Inductive rpc_args : Type :=
| ArgList (l : list pyval)
| ArgDict (d : list (string * pyval)).

(** What arrives from the server: a notification or a request. *)
Inductive request : Type :=
| Notification (method : string) (args : rpc_args)
| Request (method : string) (args : rpc_args).

Definition set_reg (f : NotificationSession -> NotificationSession) (s : Sess)
  : Sess :=
  {| reg := f (reg s); closed := closed s; _msg_counter := _msg_counter s |}.

(** [self.subscriptions[key].append(queue)] on a [defaultdict(list)] *)
Definition append_subscriber (key : string) (queue : Queue)
  (r : NotificationSession) : NotificationSession :=
  {| subscriptions :=
       <[key := default [] (subscriptions r !! key) ++ [queue]]> (subscriptions r);
     cache := cache r;
     queue_items := queue_items r |}.

(** [self.cache[key] = result] *)
Definition set_cache (key : string) (result : pyval) (r : NotificationSession)
  : NotificationSession :=
  {| subscriptions := subscriptions r;
     cache := <[key := result]> (cache r);
     queue_items := queue_items r |}.

(** [await queue.put(item)]; the queues handed to [subscribe] are
    unbounded, so [put] appends without suspending. *)
Definition queue_put (queue : Queue) (item : pyval) (r : NotificationSession)
  : NotificationSession :=
  {| subscriptions := subscriptions r;
     cache := cache r;
     queue_items :=
       <[queue := default [] (queue_items r !! queue) ++ [item]]> (queue_items r) |}.

(** [for queue in queues: await queue.put(item)] *)
Fixpoint put_all (queues : list Queue) (item : pyval) (r : NotificationSession)
  : NotificationSession :=
  match queues with
  | [] => r
  | queue :: rest => put_all rest item (queue_put queue item r)
  end.

(** [close()] *)
Definition close (s : Sess) : Sess :=
  {| reg := reg s; closed := true; _msg_counter := _msg_counter s |}.

Section WithServer.

(** [repr(params)], part of the subscription key. *)
Variable repr : list pyval -> string.

(** The reply to a request, or the exception raised while waiting for it,
    and the session as it is when the wait is over. *)
Variable rpc : string -> list pyval -> Sess -> res pyval * Sess.

(** [get_hashable_key_for_rpc_call(method, params)] *)
Definition get_hashable_key_for_rpc_call (method : string)
  (params : list pyval) : string :=
  (method +:+ repr params)%string.

(** [send_request]: take the next message id, then wait. *)
Definition send_request (method : string) (params : list pyval) (s : Sess)
  : res pyval * Sess :=
  rpc method params
      {| reg := reg s; closed := closed s; _msg_counter := _msg_counter s + 1 |}.

(** [subscribe(method, params, queue)] *)
Definition subscribe (method : string) (params : list pyval) (queue : Queue)
  (s : Sess) : res unit * Sess :=
  let key := get_hashable_key_for_rpc_call method params in
  let s1 := set_reg (append_subscriber key queue) s in
  match cache (reg s1) !! key with
  | Some result =>
    (Ok tt, set_reg (queue_put queue (PList (params ++ [result]))) s1)
  | None =>
    match send_request method params s1 with
    | (Ok result, s2) =>
      let s3 := set_reg (set_cache key result) s2 in
      (Ok tt, set_reg (queue_put queue (PList (params ++ [result]))) s3)
    | (Raise e, s2) => (Raise e, s2)
    end
  end.

(** [request.args[:-1], request.args[-1]]: [None] when Python raises (an
    empty array has no last element, a JSON object cannot be sliced). *)
Definition split_last (args : rpc_args) : option (list pyval * pyval) :=
  match args with
  | ArgList l =>
    match last l with
    | Some result => Some (take (length l - 1) l, result)
    | None => None
    end
  | ArgDict _ => None
  end.

(** [request.args] as the item put on the queues. *)
Definition args_value (args : rpc_args) : pyval :=
  match args with
  | ArgList l => PList l
  | ArgDict d => PDict d
  end.

(** [handle_request(request)]: every exception of the body ends in
    [close()]. *)
Definition handle_request (req : request) (s : Sess) : Sess :=
  match req with
  | Notification method args =>
    match split_last args with
    | Some (params, result) =>
      let key := get_hashable_key_for_rpc_call method params in
      match subscriptions (reg s) !! key with
      | Some queues =>
        set_reg (fun r => put_all queues (args_value args)
                                  (set_cache key result r)) s
      | None => close s
      end
    | None => close s
    end
  | Request _ _ => close s
  end.

(** *** Subscribing *)

Definition key_of := get_hashable_key_for_rpc_call.

(** The pending items of a queue. *)
Definition pending (queue : Queue) (s : Sess) : list pyval :=
  default [] (queue_items (reg s) !! queue).

Lemma pending_put queue item q r c m :
  pending q {| reg := queue_put queue item r; closed := c; _msg_counter := m |}
  = if decide (queue = q)
    then pending q {| reg := r; closed := c; _msg_counter := m |} ++ [item]
    else pending q {| reg := r; closed := c; _msg_counter := m |}.
Proof.
  unfold pending. cbn. destruct (decide (queue = q)) as [->|Hne].
  - now rewrite lookup_insert_eq.
  - now rewrite lookup_insert_ne.
Qed.

(** A subscription whose key is in the cache is served from the cache. *)
Lemma subscribe_cache_hit method params queue s v :
  cache (reg s) !! key_of method params = Some v ->
  subscribe method params queue s
  = (Ok tt,
     set_reg (fun r => queue_put queue (PList (params ++ [v]))
                         (append_subscriber (key_of method params) queue r)) s).
Proof.
  intros Hc. unfold subscribe. cbn. unfold key_of in Hc. now rewrite Hc.
Qed.


(** X5.  A failed first subscription leaves the queue registered: when the
    key is not cached and the request raises (the session being otherwise
    left alone while waiting), the exception reaches the caller, nothing is
    cached or delivered, one message id is used, and the queue stays at the end of the
    key's subscriber list. *)
Theorem failed_subscribe_keeps_subscriber method params queue s e :
  cache (reg s) !! key_of method params = None ->
  (forall s', rpc method params s' = (Raise e, s')) ->
  exists s1,
    subscribe method params queue s = (Raise e, s1) /\
    subscriptions (reg s1) !! key_of method params
    = Some (default [] (subscriptions (reg s) !! key_of method params)
            ++ [queue]) /\
    cache (reg s1) = cache (reg s) /\
    queue_items (reg s1) = queue_items (reg s) /\
    _msg_counter s1 = _msg_counter s + 1.
Proof.
  intros Hc Hrpc. unfold subscribe, send_request. cbn.
  unfold key_of in Hc. rewrite Hc, Hrpc. eexists. split; [reflexivity|].
  cbn. split; [apply lookup_insert_eq|]. repeat split.
Qed.

(** What [unsubscribe] does to every key (shared with the proof that it
    only shrinks lists). *)
Lemma unsubscribe_lookup queue r :
  exists r',
    unsubscribe queue r = Ok r' /\
    cache r' = cache r /\ queue_items r' = queue_items r /\
    forall key,
      subscriptions r' !! key = remove_first queue <$> subscriptions r !! key.
Proof.
  unfold unsubscribe.
  rewrite (for_each_value_Ok _ (remove_first queue))
    by apply unsubscribe_value_Ok.
  cbn [bind]. eexists. split; [reflexivity|]. cbn.
  split; [reflexivity|]. split; [reflexivity|].
  intros key. rewrite list_to_map_fmap, list_to_map_to_list.
  apply lookup_fmap.
Qed.

Lemma remove_first_snoc queue v :
  queue ∉ v -> remove_first queue (v ++ [queue]) = v.
Proof.
  induction v as [|y r IH]; intros Hnin; cbn [app remove_first].
  - now rewrite decide_True.
  - apply not_elem_of_cons in Hnin as [Hne Hr].
    rewrite decide_False by congruence. now rewrite IH.
Qed.

(** X6.  Subscribing and then unsubscribing restores every subscriber
    list, but not the set of keys: for a queue that was subscribed nowhere
    and a key served from the cache, afterwards each key has the list it
    had before, and the subscribed key is present even if it was not before
    (with an empty list). *)
Theorem subscribe_unsubscribe_restores_lists method params queue s v :
  cache (reg s) !! key_of method params = Some v ->
  (forall key l, subscriptions (reg s) !! key = Some l -> queue ∉ l) ->
  exists s1 r',
    subscribe method params queue s = (Ok tt, s1) /\
    unsubscribe queue (reg s1) = Ok r' /\
    forall key,
      subscriptions r' !! key
      = if decide (key = key_of method params)
        then Some (default [] (subscriptions (reg s) !! key))
        else subscriptions (reg s) !! key.
Proof.
  intros Hc Hfresh. eexists.
  destruct (unsubscribe_lookup queue
              (queue_put queue (PList (params ++ [v]))
                 (append_subscriber (key_of method params) queue (reg s))))
    as (r' & Hun & _ & _ & Hlook).
  exists r'. split; [apply (subscribe_cache_hit _ _ _ _ _ Hc)|].
  split; [exact Hun|]. intros key. rewrite Hlook. cbn.
  destruct (decide (key = key_of method params)) as [->|Hne].
  - rewrite lookup_insert_eq. cbn. f_equal. apply remove_first_snoc.
    destruct (subscriptions (reg s) !! key_of method params) as [l|] eqn:E;
      cbn; [now apply (Hfresh _ _ E) | apply not_elem_of_nil].
  - rewrite lookup_insert_ne by congruence.
    destruct (subscriptions (reg s) !! key) as [l|] eqn:E; cbn; [|reflexivity].
    f_equal. apply remove_first_notin. now apply (Hfresh _ _ E).
Qed.

(** *** Incoming messages *)



(** X8.  Anything else closes the session and delivers nothing: a
    request, a notification without arguments or with named arguments, and
    a notification whose key was never subscribed leave the registry as it
    is and set the session to closed. *)
Theorem unexpected_message_closes_session req s :
  (match req with
   | Request _ _ => True
   | Notification method (ArgDict _) => True
   | Notification method (ArgList l) =>
     l = [] \/
     subscriptions (reg s)
       !! key_of method (take (length l - 1) l) = None
   end) ->
  handle_request req s = close s /\
  closed (handle_request req s) = true /\
  reg (handle_request req s) = reg s.
Proof.
  intros Hreq.
  assert (H : handle_request req s = close s).
  { destruct req as [method [l|d] | method args]; try reflexivity.
    unfold handle_request, split_last.
    destruct (last l) as [result|] eqn:El; [|reflexivity].
    destruct Hreq as [-> | Hnone]; [discriminate|].
    unfold key_of in Hnone. now rewrite Hnone. }
  rewrite H. repeat split.
Qed.

(** X9.  Unsubscribing does not make later notifications unexpected: a
    key stays registered after [unsubscribe], so a notification for it is
    still accepted and cached, and when the queue was the key's only
    subscriber that notification reaches no queue at all. *)
Theorem notification_after_unsubscribe method params result queue s r' :
  subscriptions (reg s) !! key_of method params = Some [queue] ->
  unsubscribe queue (reg s) = Ok r' ->
  let s1 := set_reg (fun _ => r') s in
  let s2 := handle_request
              (Notification method (ArgList (params ++ [result]))) s1 in
  closed s2 = closed s /\
  cache (reg s2) !! key_of method params = Some result /\
  queue_items (reg s2) = queue_items (reg s).
Proof.
  intros Hk Hun s1 s2.
  destruct (unsubscribe_lookup queue (reg s)) as (r'' & Hun' & Hc & Hq & Hlook).
  rewrite Hun in Hun'. injection Hun' as <-.
  assert (Hk' : subscriptions (reg s1) !! key_of method params = Some []).
  { subst s1. cbn. rewrite Hlook, Hk. cbn. now rewrite decide_True. }
  subst s2. unfold handle_request, split_last.
  rewrite last_snoc, length_app, Nat.add_sub, take_app_length.
  fold (key_of method params). rewrite Hk'. cbn.
  split; [reflexivity|]. split; [apply lookup_insert_eq | exact Hq].
Qed.

End WithServer.

(** *** A concrete server *)

(** A printing of parameter lists that tells strings and integers apart. *)
Definition toy_show (v : pyval) : string :=
  match v with
  | PStr x => ("'" +:+ x +:+ "'")%string
  | PInt z => Addr.int_str z
  | _ => "?"%string
  end.

Definition toy_repr (params : list pyval) : string :=
  ("[" +:+ String.concat ", " (map toy_show params) +:+ "]")%string.

(** A server that answers every request with [7], except ["fail"], which
    times out. *)
Definition toy_rpc (method : string) (params : list pyval) (s : Sess)
  : res pyval * Sess :=
  if String.eqb method "fail" then (Raise RequestTimedOut, s)
  else (Ok (PInt 7), s).

Definition toy_key : string :=
  Eval vm_compute in key_of toy_repr "headers.subscribe" [PStr "x"].

(** A session with one subscriber of [toy_key], whose status is cached. *)
Definition toy_session : Sess :=
  {| reg := {| subscriptions := {[ toy_key := [1%positive] ]};
               cache := {[ toy_key := PInt 7 ]};
               queue_items := ∅ |};
     closed := false;
     _msg_counter := 0 |}.

Definition empty_session : Sess :=
  {| reg := {| subscriptions := ∅; cache := ∅; queue_items := ∅ |};
     closed := false;
     _msg_counter := 0 |}.

(** The empty session after a first subscription. *)
Definition after_first : Sess :=
  snd (subscribe toy_repr toy_rpc "headers.subscribe" [PStr "x"] 1%positive
         empty_session).

(** Subscribing the same queue twice to the same call is possible, and
    then one [unsubscribe] leaves it subscribed once. *)
Definition after_second : Sess :=
  snd (subscribe toy_repr toy_rpc "headers.subscribe" [PStr "x"] 1%positive
         after_first).

Example double_subscription_survives_unsubscribe :
  subscriptions (reg after_second) !! toy_key = Some [1; 1]%positive /\
  exists r',
    unsubscribe 1%positive (reg after_second) = Ok r' /\
    subscriptions r' !! toy_key = Some [1%positive].
Proof.
  split; [reflexivity|].
  destruct (unsubscribe_lookup 1%positive (reg after_second))
    as (r' & Hun & _ & _ & Hlook).
  exists r'. split; [exact Hun|]. rewrite Hlook. reflexivity.
Qed.


Lemma failed_subscribe_keeps_subscriber_witness :
  exists s1,
    subscribe toy_repr toy_rpc "fail" [] 2%positive toy_session
    = (Raise RequestTimedOut, s1) /\
    subscriptions (reg s1) !! key_of toy_repr "fail" [] = Some [2%positive].
Proof.
  destruct (failed_subscribe_keeps_subscriber toy_repr toy_rpc "fail" []
              2%positive toy_session RequestTimedOut)
    as (s1 & Hsub & Hk & _); [reflexivity | reflexivity |].
  exists s1. split; [exact Hsub|]. exact Hk.
Defined.

Lemma subscribe_unsubscribe_restores_lists_witness :
  exists s1 r',
    subscribe toy_repr toy_rpc "headers.subscribe" [PStr "x"] 2%positive
      toy_session = (Ok tt, s1) /\
    unsubscribe 2%positive (reg s1) = Ok r' /\
    subscriptions r' !! toy_key = Some [1%positive].
Proof.
  destruct (subscribe_unsubscribe_restores_lists toy_repr toy_rpc
              "headers.subscribe" [PStr "x"] 2%positive toy_session (PInt 7))
    as (s1 & r' & Hsub & Hun & Hk).
  - reflexivity.
  - intros key l H. cbn [toy_session reg subscriptions] in H.
    apply lookup_singleton_Some in H as [_ <-].
    intros Hin. apply list_elem_of_singleton in Hin. discriminate.
  - exists s1, r'. split; [exact Hsub|]. split; [exact Hun|].
    exact (Hk toy_key).
Defined.


Lemma unexpected_message_closes_session_witness :
  closed (handle_request toy_repr
            (Notification "address.subscribe" (ArgList [PStr "x"; PInt 9]))
            toy_session) = true.
Proof.
  apply (unexpected_message_closes_session toy_repr
           (Notification "address.subscribe" (ArgList [PStr "x"; PInt 9]))
           toy_session).
  right. reflexivity.
Defined.

Lemma notification_after_unsubscribe_witness :
  exists r',
    unsubscribe 1%positive (reg toy_session) = Ok r' /\
    let s2 := handle_request toy_repr
                (Notification "headers.subscribe" (ArgList [PStr "x"; PInt 9]))
                (set_reg (fun _ => r') toy_session) in
    closed s2 = false /\ queue_items (reg s2) = ∅.
Proof.
  destruct (unsubscribe_lookup 1%positive (reg toy_session))
    as (r' & Hun & _).
  exists r'. split; [exact Hun|].
  destruct (notification_after_unsubscribe toy_repr "headers.subscribe"
              [PStr "x"] (PInt 9) 1%positive toy_session r')
    as (Hcl & _ & Hq); [reflexivity | exact Hun |].
  split; [exact Hcl | exact Hq].
Defined.

End SessionOps.

(* ===================================================================== *)
(** ** ServerAddr: guessing missing details *)
(* ===================================================================== *)

Module AddrInference.
Import Py Val Addr.
Local Open Scope string_scope.

(** [PREFERRED_NETWORK_PROTOCOL = 's'] *)
Definition PREFERRED_NETWORK_PROTOCOL : string := "s".

(** For a character that occurs in [s], the text before its first
    occurrence and the text after it: [s[:s.index(c)]] and
    [s[s.index(c)+1:]]; [None] when [c not in s]. *)
Fixpoint partition_at (c : ascii) (s : string) : option (string * string) :=
  match s with
  | EmptyString => None
  | String x r =>
    if Ascii.eqb x c then Some (EmptyString, r)
    else match partition_at c r with
         | Some (a, b) => Some (String x a, b)
         | None => None
         end
  end.

(** [s[1:]] *)
Definition str_tail (s : string) : string :=
  match s with
  | EmptyString => EmptyString
  | String _ r => r
  end.

(** [s[0] == c] for a non-empty [s] *)
Definition starts_with (c : ascii) (s : string) : bool :=
  match str_first s with
  | Some x => Ascii.eqb x c
  | None => false
  end.

(** [name.endswith(suffix)] *)
Fixpoint ends_with (suffix s : string) : bool :=
  String.eqb suffix s
  || match s with
     | EmptyString => false
     | String _ r => ends_with suffix r
     end.

(** [_match_hostname(name, val)] *)
Definition _match_hostname (name val : string) : bool :=
  if String.eqb val name then true
  else String.prefix "*." val && ends_with (str_tail val) name.

(** [c not in s] *)
Fixpoint no_char (c : ascii) (s : string) : bool :=
  match s with
  | EmptyString => true
  | String x r => negb (Ascii.eqb x c) && no_char c r
  end.

Section WithNetAddress.

Variable classify_host : string -> option (bool * string).
Variable validate_port : port_arg -> option py_int.

(** [ServerAddr.from_str_with_inference(s)]; only [ValueError] is caught. *)
Definition from_str_with_inference (s : string) : res (option ServerAddr) :=
  if String.eqb s "" then Ok None else
  let '(host, s) :=
    match starts_with "[" s, partition_at "]" s with
    | true, Some (before, after) => (str_tail before, after)
    | _, _ => ("", s)
    end in
  match rsplit2 s with
  | items0 :: port :: more =>
    let host := if String.eqb host "" then items0 else host in
    let protocol :=
      match more with
      | protocol :: _ => protocol
      | [] => PREFERRED_NETWORK_PROTOCOL
      end in
    match ServerAddr_init classify_host validate_port
            host (PortStr port) (Some protocol) with
    | Ok addr => Ok (Some addr)
    | Raise ValueError => Ok None
    | Raise e => Raise e
    end
  | _ => Ok None
  end.

(** **** Text lemmas *)

Lemma partition_at_none c s : no_char c s = true -> partition_at c s = None.
Proof.
  induction s as [|x r IH]; [reflexivity|]. cbn [no_char partition_at].
  intros H. apply andb_true_iff in H as [Hx Hr].
  apply negb_true_iff in Hx. now rewrite Hx, (IH Hr).
Qed.

Lemma partition_at_app c a b :
  no_char c a = true -> partition_at c (a ++ String c b) = Some (a, b).
Proof.
  induction a as [|x r IH]; intros H.
  - change ("" ++ String c b) with (String c b). cbn [partition_at].
    now rewrite Ascii.eqb_refl.
  - cbn [no_char] in H. apply andb_true_iff in H as [Hx Hr].
    apply negb_true_iff in Hx. rewrite append_cons. cbn [partition_at].
    now rewrite Hx, (IH Hr).
Qed.

Lemma no_char_app c a b :
  no_char c (a ++ b) = no_char c a && no_char c b.
Proof.
  induction a as [|x r IH]; [reflexivity|].
  rewrite append_cons. cbn [no_char]. now rewrite IH, andb_assoc.
Qed.

Lemma no_char_colon s : no_char ":" s = no_colon s.
Proof. induction s as [|x r IH]; [reflexivity|]. cbn. now rewrite IH. Qed.

Lemma no_rbracket_not_bracketed s : no_char "]" s = true -> bracketed s = false.
Proof.
  intros H. unfold bracketed. destruct (str_first s) as [a|]; [|reflexivity].
  assert (Hl : forall b, str_last s = Some b -> Ascii.eqb b "]" = false).
  { clear a. induction s as [|x r IH]; [discriminate|].
    cbn [no_char] in H. apply andb_true_iff in H as [Hx Hr].
    apply negb_true_iff in Hx. cbn [str_last]. destruct r as [|y r'].
    - now intros b [= <-].
    - apply (IH Hr). }
  destruct (str_last s) as [b|]; [|reflexivity].
  rewrite (Hl b eq_refl). apply andb_false_r.
Qed.

Lemma no_rbracket_uint d : no_char "]" (NilEmpty.string_of_uint d) = true.
Proof. induction d; cbn [NilEmpty.string_of_uint no_char]; auto. Qed.

Lemma no_rbracket_int_str n : no_char "]" (int_str n) = true.
Proof.
  unfold int_str, NilZero.string_of_int, NilZero.string_of_uint.
  destruct (Z.to_int n) as [d|d]; destruct d; try reflexivity;
    cbn [no_char]; rewrite ?no_rbracket_uint; reflexivity.
Qed.

Lemma no_rbracket_known_protocol p :
  is_known_protocol p = true -> no_char "]" p = true.
Proof.
  unfold is_known_protocol. intros H.
  apply orb_true_iff in H as [H|H]; apply String.eqb_eq in H; subst; reflexivity.
Qed.


Lemma rsplit2_two a b :
  no_colon a = true -> no_colon b = true ->
  rsplit2 (a ++ String ":" b) = [a; b].
Proof.
  intros Ha Hb. unfold rsplit2.
  now rewrite (rsplit1_app _ _ Hb), (rsplit1_no_colon _ Ha).
Qed.

Lemma rsplit2_three a b c :
  no_colon b = true -> no_colon c = true ->
  rsplit2 ((a ++ String ":" b) ++ String ":" c) = [a; b; c].
Proof.
  intros Hb Hc. unfold rsplit2.
  now rewrite (rsplit1_app _ _ Hc), (rsplit1_app _ _ Hb).
Qed.

Lemma rsplit2_two_empty b :
  no_colon b = true -> rsplit2 (String ":" b) = [""; b].
Proof. intros Hb. exact (rsplit2_two "" b eq_refl Hb). Qed.

Lemma rsplit2_three_empty b c :
  no_colon b = true -> no_colon c = true ->
  rsplit2 (String ":" b ++ String ":" c) = [""; b; c].
Proof. intros Hb Hc. exact (rsplit2_three "" b c Hb Hc). Qed.



(** The constructor raises nothing but [ValueError]. *)
Lemma ServerAddr_init_raises h p proto e :
  ServerAddr_init classify_host validate_port h p proto = Raise e ->
  e = ValueError.
Proof.
  unfold ServerAddr_init.
  destruct (String.eqb h ""); [now intros [= <-]|].
  destruct (NetAddress_new _ _ _ _); [|now intros [= <-]].
  destruct (negb _); [now intros [= <-] | discriminate].
Qed.

(** The constructor on an accepted, unbracketed host. *)
Lemma ServerAddr_init_plain h p proto v6 c v :
  classify_host h = Some (v6, c) ->
  validate_port p = Some v ->
  h <> "" -> bracketed h = false ->
  is_known_protocol proto = true ->
  ServerAddr_init classify_host validate_port h p (Some proto)
  = Ok {| host := c; port := int_of v; protocol := proto;
          _net_addr_str :=
            NetAddress_str {| na_host := c; na_is_ipv6 := v6; na_port := v |} |}.
Proof.
  intros Hc Hp Hne Hb Hk. unfold ServerAddr_init, NetAddress_new.
  apply String.eqb_neq in Hne. now rewrite Hne, Hb, Hc, Hp, Hk.
Qed.

Lemma partition_at_Some c s a b :
  partition_at c s = Some (a, b) -> s = a ++ String c b.
Proof.
  revert a. induction s as [|x r IH]; intros a; cbn [partition_at];
    [discriminate|].
  destruct (Ascii.eqb x c) eqn:Ex.
  - intros [= <- <-]. apply Ascii.eqb_eq in Ex. now subst.
  - destruct (partition_at c r) as [[a' b']|]; [|discriminate].
    intros [= <- <-]. now rewrite (IH a' eq_refl).
Qed.

(** The bracket step of [from_str_with_inference]: the host found in
    brackets (or [""]) and the text left to split. *)
Definition bracket_step (s : string) : string * string :=
  match starts_with "[" s, partition_at "]" s with
  | true, Some (before, after) => (str_tail before, after)
  | _, _ => ("", s)
  end.

Lemma bracket_step_no_colon s :
  no_colon s = true -> no_colon (snd (bracket_step s)) = true.
Proof.
  intros H. unfold bracket_step.
  destruct (starts_with "[" s); [|exact H].
  destruct (partition_at "]" s) as [[a b]|] eqn:E; [|exact H].
  apply partition_at_Some in E. subst s. cbn [snd].
  rewrite <- no_char_colon in *. rewrite no_char_app in H.
  apply andb_true_iff in H as [_ H]. cbn [no_char] in H.
  now apply andb_true_iff in H as [_ H].
Qed.

Lemma bracket_step_none s :
  no_char "]" s = true -> bracket_step s = ("", s).
Proof.
  intros H. unfold bracket_step. rewrite (partition_at_none _ _ H).
  now destruct (starts_with "[" s).
Qed.


Lemma bracket_step_brackets c rest :
  no_char "]" c = true ->
  bracket_step ("[" ++ c ++ String "]" rest) = (c, rest).
Proof.
  intros H. unfold bracket_step.
  change ("[" ++ c ++ String "]" rest) with (String "[" c ++ String "]" rest).
  rewrite partition_at_app by (cbn [no_char]; now rewrite H).
  reflexivity.
Qed.

(** X10.  [from_str_with_inference] does not raise: it always returns an
    address or [None]; a string without any [':'] gives [None] (the port is
    never guessed), and a returned address has protocol ['t'] or ['s']. *)
Theorem from_str_with_inference_never_raises s :
  exists o,
    from_str_with_inference s = Ok o /\
    (no_colon s = true -> o = None) /\
    (forall addr, o = Some addr -> is_known_protocol (protocol addr) = true).
Proof.
  unfold from_str_with_inference.
  destruct (String.eqb s ""); [exists None; repeat split; discriminate|].
  fold (bracket_step s). pose proof (bracket_step_no_colon s) as Hnc.
  destruct (bracket_step s) as [host rest]. cbn [snd] in Hnc.
  destruct (rsplit2 rest) as [|i0 [|port more]] eqn:Er;
    try (exists None; repeat split; discriminate).
  assert (Hcolon : no_colon s = true -> False).
  { intros H. specialize (Hnc H). unfold rsplit2 in Er.
    rewrite (rsplit1_no_colon _ Hnc) in Er. discriminate. }
  destruct (ServerAddr_init _ _ _ _ _) as [addr|e] eqn:Ei.
  - exists (Some addr). split; [reflexivity|]. split; [tauto|].
    intros addr' [= <-].
    destruct (ServerAddr_init_Ok _ _ _ _ _ _ Ei)
      as (_ & _ & _ & _ & _ & _ & Hk & _).
    exact Hk.
  - rewrite (ServerAddr_init_raises _ _ _ _ Ei). exists None.
    split; [reflexivity|]. split; [reflexivity | discriminate].
Qed.

(** **** What is relied on from [aiorpcx.NetAddress]

    The printed form of an accepted host is accepted again and classified
    as itself; a port that is accepted and was not given as a bool is kept
    as a plain int, whose decimal text is accepted as the same port; the
    empty host is rejected; no accepted host starts with ['[']; the
    printed form of a host that is not an IPv6 address holds no [':'].
    Nothing is assumed about [']']: the scope id of an IPv6 address may
    hold it. *)
Hypothesis classify_canonical : forall h v6 c,
  classify_host h = Some (v6, c) -> classify_host c = Some (v6, c).
Hypothesis port_canonical : forall p v,
  validate_port p = Some v -> (forall b, p <> PortBool b) ->
  exists n,
    v = IntVal n /\ validate_port (PortStr (int_str n)) = Some (IntVal n).
Hypothesis classify_rejects_empty : classify_host "" = None.
Hypothesis classify_no_lbracket : forall h x,
  classify_host h = Some x -> starts_with "[" h = false.
Hypothesis plain_no_colon : forall h c,
  classify_host h = Some (false, c) -> no_colon c = true.

(** X11.  [to_friendly_name] and [from_str_with_inference] are inverse to
    each other on the addresses built by the constructor from a port that
    is not a bool and whose host holds no [']']: the friendly name (which
    hides a trailing [":s"]) of such an address is parsed back to that
    same address. *)
Theorem friendly_name_roundtrip h p proto addr :
  ServerAddr_init classify_host validate_port h p proto = Ok addr ->
  (forall b, p <> PortBool b) ->
  no_char "]" (host addr) = true ->
  from_str_with_inference (to_friendly_name addr) = Ok (Some addr).
Proof.
  intros Hinit Hint Hrb.
  destruct (ServerAddr_init_Ok _ _ _ _ _ _ Hinit)
    as (h' & v6 & v & Hc & Hp & Hport & Hk & Hs).
  pose proof (classify_canonical _ _ _ Hc) as Hc'.
  destruct (port_canonical _ _ Hp Hint) as (n & -> & Hp').
  cbn [int_of] in Hport. subst n.
  assert (Hne : host addr <> "").
  { intros E. rewrite E, classify_rejects_empty in Hc'. discriminate. }
  pose proof (no_rbracket_not_bracketed _ Hrb) as Hnb.
  pose proof (no_colon_int_str (port addr)) as Hpc.
  pose proof (no_rbracket_int_str (port addr)) as Hpb.
  assert (Haddr : ServerAddr_init classify_host validate_port (host addr)
                    (PortStr (int_str (port addr))) (Some (protocol addr))
                  = Ok addr).
  { rewrite (ServerAddr_init_plain _ _ _ _ _ _ Hc' Hp' Hne Hnb Hk).
    f_equal. destruct addr. cbn in *. now rewrite Hs. }
  assert (Hnonempty : forall t, String.eqb ("[" ++ t) "" = false)
    by reflexivity.
  unfold from_str_with_inference. fold (bracket_step (to_friendly_name addr)).
  unfold to_friendly_name, ServerAddr_str, net_addr_str.
  rewrite Hs. unfold NetAddress_str. cbn [na_is_ipv6 na_host na_port str_of].
  apply String.eqb_neq in Hne.
  unfold is_known_protocol in Hk. apply orb_true_iff in Hk.
  destruct v6.
  - (* IPv6: the host is taken from the brackets *)
    change ("]:" ++ int_str (port addr))
      with (String "]" (String ":" (int_str (port addr)))).
    destruct (String.eqb (protocol addr) "s") eqn:Es.
    + apply String.eqb_eq in Es.
      rewrite Hnonempty, (bracket_step_brackets _ _ Hrb).
      rewrite (rsplit2_two_empty _ Hpc), Hne.
      unfold PREFERRED_NETWORK_PROTOCOL. rewrite <- Es, Haddr. reflexivity.
    + destruct Hk as [Ht|Ht]; [|congruence]. apply String.eqb_eq in Ht.
      rewrite !append_assoc.
      change (String "]" (String ":" (int_str (port addr)))
              ++ ":" ++ protocol addr)
        with (String "]" (String ":" (int_str (port addr))
                          ++ String ":" (protocol addr))).
      rewrite Hnonempty, (bracket_step_brackets _ _ Hrb).
      rewrite (rsplit2_three_empty _ _ Hpc) by (now rewrite Ht).
      now rewrite Hne, Haddr.
  - (* host name or IPv4: nothing in brackets *)
    pose proof (plain_no_colon _ _ Hc) as Hhc.
    change (host addr ++ ":" ++ int_str (port addr))
      with (host addr ++ String ":" (int_str (port addr))).
    assert (Hnz : forall t, String.eqb (host addr ++ t) "" = false).
    { intros t. destruct (host addr); [discriminate | reflexivity]. }
    destruct (String.eqb (protocol addr) "s") eqn:Es.
    + apply String.eqb_eq in Es.
      rewrite Hnz, bracket_step_none
        by (rewrite no_char_app; cbn [no_char]; now rewrite Hrb, Hpb).
      rewrite (rsplit2_two _ _ Hhc Hpc). cbn [String.eqb].
      unfold PREFERRED_NETWORK_PROTOCOL. rewrite <- Es, Haddr. reflexivity.
    + destruct Hk as [Ht|Ht]; [|congruence]. apply String.eqb_eq in Ht.
      change ((host addr ++ String ":" (int_str (port addr)))
              ++ ":" ++ protocol addr)
        with ((host addr ++ String ":" (int_str (port addr)))
              ++ String ":" (protocol addr)).
      rewrite append_assoc, Hnz, <- append_assoc.
      rewrite bracket_step_none
        by (rewrite !no_char_app; cbn [no_char];
            now rewrite Hrb, Hpb, Ht).
      rewrite (rsplit2_three _ _ _ Hpc) by (now rewrite Ht).
      cbn [String.eqb]. now rewrite Haddr.
Qed.




End WithNetAddress.

(** X13.  Brackets around the host are optional for the constructor: a
    host written in brackets builds the same address, or fails the same
    way, as the host written without them (for a host that is not empty
    and not itself bracketed). *)
Theorem constructor_ignores_brackets classify_host validate_port h p proto :
  h <> "" -> bracketed h = false ->
  ServerAddr_init classify_host validate_port ("[" ++ h ++ "]") p proto
  = ServerAddr_init classify_host validate_port h p proto.
Proof.
  intros Hne Hb. unfold ServerAddr_init.
  rewrite bracketed_brackets, str_inner_brackets, Hb.
  apply String.eqb_neq in Hne. now rewrite Hne.
Qed.

Lemma ends_with_spec suffix s :
  ends_with suffix s = true <-> exists pre, s = pre ++ suffix.
Proof.
  induction s as [|x r IH]; cbn [ends_with].
  - rewrite orb_false_r, String.eqb_eq. split.
    + intros ->. now exists "".
    + intros [pre H]. destruct pre; [exact (eq_sym H)|discriminate].
  - rewrite orb_true_iff, String.eqb_eq, IH. split.
    + intros [-> | [pre ->]]; [now exists "" | now exists (String x pre)].
    + intros [pre H]. destruct pre as [|y pre'].
      * left. exact (eq_sym H).
      * right. rewrite append_cons in H. injection H as _ ->. now exists pre'.
Qed.

(** X14.  [_match_hostname(name, val)] holds exactly when the pattern is
    the name itself, or the pattern is ["*." + d] and the name ends with
    ["." + d]: the wildcard stands for any text, also for several labels or
    for none, but never matches the bare domain [d]. *)
Theorem match_hostname_spec name val :
  _match_hostname name val = true <->
  val = name \/
  exists d pre, val = "*." ++ d /\ name = pre ++ "." ++ d.
Proof.
  unfold _match_hostname. destruct (String.eqb val name) eqn:E.
  - apply String.eqb_eq in E. tauto.
  - apply String.eqb_neq in E. rewrite andb_true_iff, ends_with_spec. split.
    + intros [Hp [pre Hn]]. right.
      destruct val as [|a val']; [discriminate Hp|].
      revert Hp. cbn [String.prefix].
      destruct (ascii_dec "*" a) as [<-|]; [|intros [=]].
      destruct val' as [|b d]; cbn [String.prefix]; [intros [=]|].
      destruct (ascii_dec "." b) as [<-|]; [|intros [=]].
      intros _. exists d, pre. split; [reflexivity | exact Hn].
    + intros [H | (d & pre & -> & ->)]; [contradiction|].
      split; [|now exists pre].
      apply String.prefix_correct. now destruct d.
Qed.

(** **** The example address library meets the assumptions *)


Lemma toy_classify_rejects_empty : toy_classify_host "" = None.
Proof. reflexivity. Qed.


Lemma toy_plain_no_colon h c :
  toy_classify_host h = Some (false, c) -> no_colon c = true.
Proof.
  unfold toy_classify_host. destruct (String.eqb h ""); [discriminate|].
  destruct (string_forall is_host_char h) eqn:Hh.
  - intros [= <-]. destruct (no_colon h) eqn:Hc; [reflexivity|].
    rewrite (colon_not_host _ Hc) in Hh. discriminate.
  - destruct (_ && _); discriminate.
Qed.

Definition toy_addr_s : ServerAddr :=
  {| host := "2001:db8::1"; port := 50002; protocol := "s";
     _net_addr_str := "[2001:db8::1]:50002" |}.

Lemma friendly_name_roundtrip_witness :
  from_str_with_inference toy_classify_host toy_validate_port
    (to_friendly_name toy_addr_s) = Ok (Some toy_addr_s).
Proof.
  apply (friendly_name_roundtrip toy_classify_host toy_validate_port
           toy_classify_canonical toy_port_canonical
           toy_classify_rejects_empty toy_plain_no_colon
           "[2001:DB8::1]" (PortInt 50002) None toy_addr_s).
  - reflexivity.
  - discriminate.
  - reflexivity.
Defined.


Lemma constructor_ignores_brackets_witness :
  ServerAddr_init toy_classify_host toy_validate_port
    "[electrum.example.org]" (PortInt 50001) None
  = ServerAddr_init toy_classify_host toy_validate_port
      "electrum.example.org" (PortInt 50001) None.
Proof.
  apply (constructor_ignores_brackets toy_classify_host toy_validate_port
           "electrum.example.org" (PortInt 50001) None);
    [discriminate | reflexivity].
Defined.

(** **** What the two preconditions exclude

    A library that, like the [ipaddress] module, accepts an IPv6 address
    with a scope id, here one that holds a [']']. *)
Definition scoped_classify_host (h : string) : option (bool * string) :=
  if String.eqb h "fe80::1%]" then Some (true, h) else toy_classify_host h.

Definition scoped_addr : ServerAddr :=
  {| host := "fe80::1%]"; port := 50002; protocol := "s";
     _net_addr_str := "[fe80::1%]]:50002" |}.

(** [from_str] parses the printed form of such an address, the inference
    cuts the host at the first [']'] and gives up. *)
Example scope_id_with_bracket :
  ServerAddr_init scoped_classify_host toy_validate_port
    "fe80::1%]" (PortInt 50002) None = Ok scoped_addr /\
  from_str scoped_classify_host toy_validate_port "[fe80::1%]]:50002:s"
  = Ok scoped_addr /\
  from_str_with_inference scoped_classify_host toy_validate_port
    "[fe80::1%]]:50002:s" = Ok None /\
  from_str_with_inference scoped_classify_host toy_validate_port
    (to_friendly_name scoped_addr) = Ok None.
Proof. repeat split. Qed.

(** The friendly name of an address built from the port [True] is not
    parsed back. *)
Example bool_port_friendly_name :
  exists addr,
    ServerAddr_init toy_classify_host toy_validate_port
      "localhost" (PortBool true) None = Ok addr /\
    to_friendly_name addr = "localhost:True" /\
    from_str_with_inference toy_classify_host toy_validate_port
      (to_friendly_name addr) = Ok None.
Proof. eexists. repeat split. Qed.

Example match_hostname_examples :
  _match_hostname "a.b.example.org" "*.example.org" = true /\
  _match_hostname "example.org" "*.example.org" = false /\
  _match_hostname ".example.org" "*.example.org" = true.
Proof. repeat split. Qed.

End AddrInference.

(* ===================================================================== *)
(** ** Interface: the header cache and catching up with the server *)
(* ===================================================================== *)

Module Sync.
Import Py Val Util Iface.
Local Open Scope py_scope.

(** *** [util.chunks] on whole pieces *)

Lemma chunks_aux_whole {A} (size : nat) : forall n fuel (l : list A),
  (0 < size)%nat -> length l = (n * size)%nat -> (n <= fuel)%nat ->
  length (chunks_aux fuel l size) = n /\
  Forall (fun piece => length piece = size) (chunks_aux fuel l size) /\
  concat (chunks_aux fuel l size) = l.
Proof.
  induction n as [|n IH]; intros fuel l Hsize Hlen Hfuel.
  - destruct l; [|discriminate]. destruct fuel; cbn; auto.
  - destruct fuel as [|fuel]; [lia|].
    destruct l as [|x r] eqn:El; [cbn in Hlen; lia|]. rewrite <- El in *.
    assert (Hl : chunks_aux (S fuel) l size
                 = take size l :: chunks_aux fuel (drop size l) size)
      by (rewrite El; reflexivity).
    rewrite Hl.
    destruct (IH fuel (drop size l) Hsize) as (H1 & H2 & H3);
      [rewrite length_drop; lia | lia |].
    split; [cbn; now rewrite H1|]. split.
    + constructor; [rewrite length_take; lia | exact H2].
    + cbn [concat]. rewrite H3. apply take_drop.
Qed.

Lemma chunks_whole {A} (l : list A) (size n : nat) :
  (0 < size)%nat -> length l = (n * size)%nat ->
  length (chunks l size) = n /\
  Forall (fun piece => length piece = size) (chunks l size) /\
  concat (chunks l size) = l.
Proof.
  intros Hsize Hlen. apply chunks_aux_whole; [assumption..|]. nia.
Qed.

Section Interface.

Context {Header : Type}.
Context {Blockchain : Type}.
Context {World : Type}.

Local Abbreviation State := (@State Blockchain World).
Local Abbreviation M := (@M Blockchain World).

Local Notation "x <~ m ;; k" := (bindM m (fun x => k))
  (at level 100, m at next level, right associativity).
Local Notation "m ;;~ k" := (bindM m (fun _ => k))
  (at level 100, right associativity).

Variable rpc : string -> list pyval -> State -> res pyval * State.
Variable check_header : World -> Header -> option Blockchain.
Variable deserialize_header : list byte -> Z -> res Header.

(** *** What [get_block_headers] returns *)

Lemma get_block_headers_Ok start_height count st headers st' :
  get_block_headers rpc start_height count st = (Ok headers, st') ->
  0 <= start_height /\ 0 < count <= MAX_NUM_HEADERS_PER_REQUEST /\
  exists reply decoded,
    rpc "blockchain.block.headers" [PInt start_height; PInt count] (sent st)
      = (Ok reply, st') /\
    block_headers_ok (tip (self st')) start_height count reply decoded /\
    headers = chunks decoded (Z.to_nat HEADER_SIZE).
Proof.
  unfold get_block_headers, bindM, lift, get_self.
  destruct (0 <=? start_height) eqn:Hs; [|discriminate].
  destruct (0 <=? count) eqn:Hc0; [|discriminate].
  destruct ((0 <? count) && (count <=? MAX_NUM_HEADERS_PER_REQUEST)) eqn:Hc;
    [|discriminate].
  cbn [negb raise_if orb]. rewrite send_request_run.
  destruct (rpc _ _ (sent st)) as [[reply|e] st1] eqn:Hrpc; [|discriminate].
  intros Hchk. split; [lia|]. split; [lia|].
  destruct (check_block_headers_cases (tip (self st1)) start_height count reply)
    as [(decoded & Hok & Hshape) | Hbad].
  - rewrite Hok in Hchk. injection Hchk as <- <-.
    exists reply, decoded. repeat split; assumption.
  - rewrite Hbad in Hchk. discriminate.
Qed.

Lemma get_block_headers_lengths start_height count st headers st' :
  get_block_headers rpc start_height count st = (Ok headers, st') ->
  Forall (fun raw => Z.of_nat (length raw) = HEADER_SIZE) headers /\
  Z.of_nat (length headers) <= count /\
  (Z.of_nat (length headers) < count ->
   tip (self st') <= start_height + Z.of_nat (length headers) - 1) /\
  0 <= start_height /\ 0 < count <= MAX_NUM_HEADERS_PER_REQUEST.
Proof.
  intros Hget.
  destruct (get_block_headers_Ok _ _ _ _ _ Hget)
    as (Hs & Hc & reply & decoded & _ & Hok & ->).
  destruct Hok as (d & rcount & rmax & rhex & _ & _ & _ & _ & _ & _
                   & Hlen & Hle & Htip).
  assert (Hr : 0 <= rcount) by (unfold HEADER_SIZE in Hlen; lia).
  destruct (chunks_whole decoded (Z.to_nat HEADER_SIZE) (Z.to_nat rcount))
    as (Hn & Hall & _).
  { unfold HEADER_SIZE. lia. }
  { unfold HEADER_SIZE in *. lia. }
  rewrite Hn. repeat split; try lia.
  eapply Forall_impl; [exact Hall|]. cbn. intros raw ->.
  unfold HEADER_SIZE. lia.
Qed.

(** X15.  The headers returned by [get_block_headers] are raw headers of
    exactly 80 bytes each and never more than [count] of them; fewer than
    [count] are returned only when the last one is at or above [self.tip];
    joined together they are the bytes of the reply's [hex] field, nothing
    lost or added. *)
Theorem get_block_headers_returns_whole_headers
  start_height count st headers st' :
  get_block_headers rpc start_height count st = (Ok headers, st') ->
  Forall (fun raw => Z.of_nat (length raw) = HEADER_SIZE) headers /\
  Z.of_nat (length headers) <= count /\
  (Z.of_nat (length headers) < count ->
   tip (self st') <= start_height + Z.of_nat (length headers) - 1) /\
  exists d rhex,
    rpc "blockchain.block.headers" [PInt start_height; PInt count] (sent st)
      = (Ok (PDict d), st') /\
    dict_get d "hex" = Some (PStr rhex) /\
    bfh rhex = Some (concat headers).
Proof.
  intros Hget.
  destruct (get_block_headers_lengths _ _ _ _ _ Hget)
    as (Hall & Hle & Htip & _).
  split; [exact Hall|]. split; [exact Hle|]. split; [exact Htip|].
  destruct (get_block_headers_Ok _ _ _ _ _ Hget)
    as (_ & _ & reply & decoded & Hrpc & Hok & ->).
  destruct Hok as (d & rcount & rmax & rhex & -> & _ & _ & Hhex & _ & Hdec
                   & Hlen & _).
  exists d, rhex. split; [exact Hrpc|]. split; [exact Hhex|].
  assert (Hr : 0 <= rcount) by (unfold HEADER_SIZE in Hlen; lia).
  destruct (chunks_whole decoded (Z.to_nat HEADER_SIZE) (Z.to_nat rcount))
    as (_ & _ & Hcat).
  { unfold HEADER_SIZE. lia. }
  { unfold HEADER_SIZE in *. lia. }
  now rewrite Hcat.
Qed.

(** *** The header cache *)

Lemma store_headers_lookup headers : forall cache h k,
  store_headers cache h headers !! k
  = if bool_decide (h <= k < h + Z.of_nat (length headers))
    then headers !! Z.to_nat (k - h)
    else cache !! k.
Proof.
  induction headers as [|raw rest IH]; intros cache h k.
  - cbn [store_headers length]. rewrite bool_decide_eq_false_2 by lia.
    reflexivity.
  - cbn [store_headers]. rewrite IH. rewrite length_cons.
    destruct (decide (h + 1 <= k < h + 1 + Z.of_nat (length rest))) as [Hin|Hout].
    + rewrite !bool_decide_eq_true_2 by lia.
      replace (Z.to_nat (k - h)) with (S (Z.to_nat (k - (h + 1)))) by lia.
      reflexivity.
    + rewrite (bool_decide_eq_false_2 _ Hout).
      destruct (decide (k = h)) as [->|Hne].
      * rewrite bool_decide_eq_true_2 by lia.
        rewrite lookup_insert_eq. now rewrite Z.sub_diag.
      * rewrite bool_decide_eq_false_2 by lia.
        now rewrite lookup_insert_ne.
Qed.

Lemma cache_has_all_spec cache from_height to_height :
  cache_has_all cache from_height to_height = true <->
  forall k, from_height <= k <= to_height -> is_Some (cache !! k).
Proof.
  unfold cache_has_all. rewrite forallb_forall. split.
  - intros H k Hk. eapply bool_decide_eq_true_1, H, list_elem_of_In.
    apply elem_of_seqZ. lia.
  - intros H k Hin. apply list_elem_of_In, elem_of_seqZ in Hin.
    apply bool_decide_eq_true_2, H. lia.
Qed.

(** What a returning [_maybe_warm_headers_cache] has done. *)
Lemma warm_Ok from_height to_height st st' :
  _maybe_warm_headers_cache rpc from_height to_height st = (Ok tt, st') ->
  from_height <= to_height < from_height + MAX_NUM_HEADERS_PER_REQUEST /\
  ((cache_has_all (_headers_cache (self st)) from_height to_height = true /\
    st' = st) \/
   (cache_has_all (_headers_cache (self st)) from_height to_height = false /\
    exists headers st1,
      get_block_headers rpc from_height (to_height - from_height + 1) st
        = (Ok headers, st1) /\
      st' = {| self := set_headers_cache
                         (fun c => store_headers c from_height headers)
                         (self st1);
               world := world st1 |})).
Proof.
  unfold _maybe_warm_headers_cache, bindM, lift, get_self.
  destruct (from_height <=? to_height) eqn:H1; [|discriminate].
  destruct (to_height - from_height <? MAX_NUM_HEADERS_PER_REQUEST) eqn:H2;
    [|discriminate].
  cbn [assert_]. split; [lia|].
  destruct (cache_has_all _ from_height to_height) eqn:Hall.
  - left. split; [reflexivity|]. unfold ret in H. now injection H.
  - right. split; [reflexivity|].
    destruct (get_block_headers rpc from_height _ st) as [[headers|e] st1];
      [|discriminate].
    exists headers, st1. split; [reflexivity|].
    unfold modify_self in H. now injection H.
Qed.

Lemma stored_headers_entries from_height count st headers st1 :
  get_block_headers rpc from_height count st = (Ok headers, st1) ->
  0 <= from_height /\
  Z.of_nat (length headers) <= count /\
  (Z.of_nat (length headers) < count ->
   tip (self st1) <= from_height + Z.of_nat (length headers) - 1) /\
  forall cache k,
    from_height <= k < from_height + Z.of_nat (length headers) ->
    exists raw,
      store_headers cache from_height headers !! k = Some raw /\
      Z.of_nat (length raw) = HEADER_SIZE.
Proof.
  intros Hget.
  destruct (get_block_headers_lengths _ _ _ _ _ Hget)
    as (Hall & Hle & Htip & Hs & _).
  split; [exact Hs|]. split; [exact Hle|]. split; [exact Htip|].
  intros cache k Hk. rewrite store_headers_lookup.
  rewrite bool_decide_eq_true_2 by lia.
  destruct (lookup_lt_is_Some_2 headers (Z.to_nat (k - from_height)))
    as [raw Hraw]; [lia|].
  exists raw. split; [exact Hraw|].
  rewrite Forall_lookup in Hall. exact (Hall _ _ Hraw).
Qed.

(** With the whole range in the cache the call returns at once. *)
Lemma warm_cached from_height to_height st :
  from_height <= to_height < from_height + MAX_NUM_HEADERS_PER_REQUEST ->
  (forall k, from_height <= k <= to_height ->
             is_Some (_headers_cache (self st) !! k)) ->
  _maybe_warm_headers_cache rpc from_height to_height st = (Ok tt, st).
Proof.
  intros Hrange Hall. apply cache_has_all_spec in Hall.
  unfold _maybe_warm_headers_cache, bindM, lift, get_self.
  replace (from_height <=? to_height) with true by lia.
  replace (to_height - from_height <? MAX_NUM_HEADERS_PER_REQUEST)
    with true by lia.
  cbn [assert_]. now rewrite Hall.
Qed.

(** X16.  When every height of the range is a key of the cache,
    [_maybe_warm_headers_cache] sends nothing and changes nothing: it
    returns at once with the state, request counter included, as it was.
    When some height is missing and the call returns, it has made one
    [get_block_headers] call for the whole range and stored the [n]
    returned headers under the heights
    [from_height .. from_height + n - 1], each entry being 80 bytes long,
    leaving every other cache entry as the call found it; [n] is the whole
    range unless the last fetched height is at or above [self.tip].  It
    returns only for [from_height <= to_height < from_height + 2016]. *)
Theorem warm_headers_cache_fills_range from_height to_height st :
  let all_cached :=
    forall k, from_height <= k <= to_height ->
              is_Some (_headers_cache (self st) !! k) in
  (from_height <= to_height < from_height + MAX_NUM_HEADERS_PER_REQUEST ->
   all_cached ->
   _maybe_warm_headers_cache rpc from_height to_height st = (Ok tt, st)) /\
  (forall st',
     _maybe_warm_headers_cache rpc from_height to_height st = (Ok tt, st') ->
     from_height <= to_height < from_height + MAX_NUM_HEADERS_PER_REQUEST /\
     (~ all_cached ->
      exists headers st1,
        get_block_headers rpc from_height (to_height - from_height + 1) st
          = (Ok headers, st1) /\
        world st' = world st1 /\
        let n := Z.of_nat (length headers) in
        0 <= from_height /\ n <= to_height - from_height + 1 /\
        (n < to_height - from_height + 1 ->
         tip (self st') <= from_height + n - 1) /\
        (forall k, from_height <= k < from_height + n ->
           exists raw,
             _headers_cache (self st') !! k = Some raw /\
             headers !! Z.to_nat (k - from_height) = Some raw /\
             Z.of_nat (length raw) = HEADER_SIZE) /\
        (forall k, ~ (from_height <= k < from_height + n) ->
           _headers_cache (self st') !! k = _headers_cache (self st1) !! k))).
Proof.
  intros all_cached. split; [apply warm_cached|].
  intros st' Hwarm. destruct (warm_Ok _ _ _ _ Hwarm) as [Hrange Hcase].
  split; [exact Hrange|]. intros Hmiss.
  destruct Hcase as [[Hall _] | (_ & headers & st1 & Hget & ->)].
  { exfalso. apply Hmiss. subst all_cached.
    apply (proj1 (cache_has_all_spec _ _ _) Hall). }
  exists headers, st1. split; [exact Hget|]. split; [reflexivity|].
  destruct (get_block_headers_lengths _ _ _ _ _ Hget)
    as (Hall & Hle & Htip & Hs & _).
  cbv zeta. cbn [self tip set_headers_cache _headers_cache].
  split; [exact Hs|]. split; [exact Hle|]. split; [exact Htip|]. split.
  - intros k Hk. rewrite store_headers_lookup.
    rewrite bool_decide_eq_true_2 by lia.
    destruct (lookup_lt_is_Some_2 headers (Z.to_nat (k - from_height)))
      as [raw Hraw]; [lia|].
    exists raw. split; [exact Hraw|]. split; [exact Hraw|].
    rewrite Forall_lookup in Hall. exact (Hall _ _ Hraw).
  - intros k Hk. rewrite store_headers_lookup.
    now rewrite bool_decide_eq_false_2 by lia.
Qed.

(** A cached, non-empty entry is returned without a request. *)
Lemma get_block_header_cached height st raw :
  0 <= height ->
  _headers_cache (self st) !! height = Some raw -> raw <> [] ->
  get_block_header rpc deserialize_header height st
  = (deserialize_header raw height, st).
Proof.
  intros Hh Hc Hne. unfold get_block_header, bindM, lift, get_self.
  replace (0 <=? height) with true by lia. cbn [negb raise_if].
  rewrite Hc. destruct raw; [contradiction | reflexivity].
Qed.

(** X17.  After [_maybe_warm_headers_cache] has returned, a header of the
    warmed range that is not above [self.tip] is served from the cache:
    [get_block_header] returns the parsed cache entry and leaves the state,
    request counter included, as it is.  (Entries that were in the cache
    before are assumed not to be empty.) *)
Theorem warmed_header_needs_no_request from_height to_height st st' k :
  _maybe_warm_headers_cache rpc from_height to_height st = (Ok tt, st') ->
  (forall h raw, _headers_cache (self st) !! h = Some raw -> raw <> []) ->
  0 <= from_height <= k -> k <= to_height -> k <= tip (self st') ->
  exists raw,
    _headers_cache (self st') !! k = Some raw /\
    get_block_header rpc deserialize_header k st'
    = (deserialize_header raw k, st').
Proof.
  intros Hwarm Hne Hfrom Hto Htip.
  destruct (warm_Ok _ _ _ _ Hwarm)
    as [_ [[Hall ->] | (_ & headers & st1 & Hget & ->)]].
  - apply cache_has_all_spec with (k := k) in Hall as [raw Hraw]; [|lia].
    exists raw. split; [exact Hraw|].
    apply get_block_header_cached; [lia | exact Hraw | exact (Hne _ _ Hraw)].
  - destruct (stored_headers_entries _ _ _ _ _ Hget)
      as (_ & Hle & Hshort & Hin).
    cbn [self tip set_headers_cache] in Htip.
    destruct (Hin (_headers_cache (self st1)) k) as (raw & Hraw & Hlen);
      [lia|].
    exists raw. split; [exact Hraw|].
    apply get_block_header_cached; [lia | exact Hraw |].
    intros ->. unfold HEADER_SIZE in Hlen. cbn in Hlen. lia.
Qed.

(** *** [_fast_forward_chain] *)

Variable connect_chunk : Blockchain -> Z -> list byte -> World -> bool * World.
Variable max_checkpoint : Z.

(** [async with OldTaskGroup() as group]: the group runs the spawned
    coroutines concurrently; leaving the block waits for all of them and
    gives their results in the order they were spawned, or raises. *)
Variable run_group :
  list (M (list (list byte))) -> M (list (list (list byte))).

(** Lines 879-887: the requests spawned for [range(10)], each as
    [(index, start_height, size)]. *)
Fixpoint plan_chunks (index0 tip : Z) (chunk_cnts : list Z)
  : list (Z * Z * Z) :=
  match chunk_cnts with
  | [] => []
  | chunk_cnt :: rest =>
    let index := index0 + chunk_cnt in
    let start_height := index * CHUNK_SIZE in
    if tip <? start_height then []
    else
      let end_height := Z.min (start_height + CHUNK_SIZE - 1) tip in
      let size := end_height - start_height + 1 in
      (index, start_height, size) :: plan_chunks index0 tip rest
  end.

(** Lines 889-895: connect the chunks in order, stop at the first that
    does not connect. *)
Fixpoint connect_chunks (tasks : list (Z * list (list byte)))
  (num_headers : Z) : M Z :=
  match tasks with
  | [] => ret num_headers
  | (index, headers) :: rest =>
    conn <~ blockchain_connect_chunk connect_chunk index (concat headers) ;;
    if conn
    then connect_chunks rest (num_headers + Z.of_nat (length headers))
    else ret num_headers
  end.

Definition _fast_forward_chain (height tip : Z) : M Z :=
  lift (raise_if (negb (0 <=? height)) Exception_) ;;~
  lift (raise_if (negb (0 <=? tip)) Exception_) ;;~
  lift (raise_if (negb ((max_checkpoint <? height)
                        || ((height =? 0) && (0 =? max_checkpoint))))
                 Exception_) ;;~
  lift (assert_ (height <=? tip)) ;;~
  let index0 := height / CHUNK_SIZE in
  let plan := plan_chunks index0 tip (seqZ 0 10) in
  results <~ run_group
    (map (fun '(_, start_height, size) =>
            get_block_headers rpc start_height size) plan) ;;
  num_headers <~ connect_chunks (zip (map (fun t => fst (fst t)) plan) results) 0 ;;
  let offset := height - index0 * CHUNK_SIZE in
  ret (Z.max 0 (num_headers - offset)).

Lemma plan_chunks_lookup index0 tip : forall chunk_cnts i index start size,
  plan_chunks index0 tip chunk_cnts !! i = Some (index, start, size) ->
  exists chunk_cnt,
    chunk_cnts !! i = Some chunk_cnt /\
    index = index0 + chunk_cnt /\
    start = index * CHUNK_SIZE /\
    start <= tip /\
    size = Z.min (start + CHUNK_SIZE - 1) tip - start + 1.
Proof.
  induction chunk_cnts as [|c rest IH]; intros i index start size;
    cbn [plan_chunks]; [intros H; discriminate H|].
  destruct (tip <? (index0 + c) * CHUNK_SIZE) eqn:E;
    [intros H; discriminate H|].
  destruct i as [|i].
  - intros [= <- <- <-]. exists c. repeat split. lia.
  - intros H. destruct (IH _ _ _ _ H) as (c' & Hc & Hrest).
    exists c'. split; [exact Hc | exact Hrest].
Qed.

Lemma plan_chunks_length index0 tip chunk_cnts :
  (length (plan_chunks index0 tip chunk_cnts) <= length chunk_cnts)%nat.
Proof.
  induction chunk_cnts as [|c rest IH]; cbn [plan_chunks length]; [lia|].
  destruct (tip <? _); cbn [length]; lia.
Qed.

(** X18.  [_fast_forward_chain] plans between one and ten requests, for
    consecutive chunk indices starting at the chunk that holds [height];
    every request starts on a chunk boundary, asks for between 1 and 2016
    headers and never for a header above [tip]; only a request that ends
    at [tip] is shorter than a full chunk. *)
Theorem fast_forward_requests_in_range height tip :
  0 <= height <= tip ->
  let index0 := height / CHUNK_SIZE in
  let plan := plan_chunks index0 tip (seqZ 0 10) in
  (1 <= length plan <= 10)%nat /\
  forall i index start size,
    plan !! i = Some (index, start, size) ->
    index = index0 + Z.of_nat i /\
    start = index * CHUNK_SIZE /\
    0 <= start /\
    0 < size <= CHUNK_SIZE /\
    start + size - 1 <= tip /\
    (size < CHUNK_SIZE -> start + size - 1 = tip).
Proof.
  intros Hh index0 plan. subst index0 plan.
  pose proof (Z.div_mod height CHUNK_SIZE ltac:(unfold CHUNK_SIZE; lia)) as Hdm.
  pose proof (Z.mod_pos_bound height CHUNK_SIZE ltac:(unfold CHUNK_SIZE; lia))
    as Hmod.
  assert (Hq : 0 <= height / CHUNK_SIZE)
    by (apply Z.div_pos; unfold CHUNK_SIZE; lia).
  split.
  - split.
    + change (seqZ 0 10) with (0 :: seqZ 1 9). cbn [plan_chunks].
      replace (tip <? (height / CHUNK_SIZE + 0) * CHUNK_SIZE) with false
        by (symmetry; apply Z.ltb_ge; lia).
      cbn [length]. lia.
    + pose proof (plan_chunks_length (height / CHUNK_SIZE) tip (seqZ 0 10)) as H.
      now rewrite length_seqZ in H.
  - intros i index start size Hi.
    destruct (plan_chunks_lookup _ _ _ _ _ _ _ Hi)
      as (c & Hc & -> & -> & Htip & ->).
    apply lookup_seqZ in Hc as [-> Hlt].
    unfold CHUNK_SIZE in *. repeat split; try lia.
Qed.

(** The sum of a list of sizes. *)
Definition total (sizes : list Z) : Z := foldr Z.add 0 sizes.

Lemma plan_chunks_total index0 tip : forall n k,
  total (map snd (plan_chunks index0 tip (seqZ k (Z.of_nat n))))
  <= Z.max 0 (tip - (index0 + k) * CHUNK_SIZE + 1).
Proof.
  induction n as [|n IH]; intros k.
  - rewrite seqZ_nil by lia. unfold total. cbn [plan_chunks map foldr]. lia.
  - rewrite seqZ_cons by lia.
    replace (Z.pred (Z.of_nat (S n))) with (Z.of_nat n) by lia.
    cbn [plan_chunks].
    destruct (tip <? (index0 + k) * CHUNK_SIZE) eqn:E;
      [unfold total; cbn [map foldr]; lia|].
    cbn [map snd total foldr]. fold (total (map snd
      (plan_chunks index0 tip (seqZ (Z.succ k) (Z.of_nat n))))).
    specialize (IH (Z.succ k)). apply Z.ltb_ge in E.
    unfold CHUNK_SIZE in *. lia.
Qed.

Lemma blockchain_connect_chunk_Ok index data st conn st' :
  blockchain_connect_chunk connect_chunk index data st = (Ok conn, st') ->
  self st' = self st.
Proof.
  unfold blockchain_connect_chunk.
  destruct (blockchain (self st)); [|discriminate].
  destruct (connect_chunk _ _ _ _). now intros [= _ <-].
Qed.

Lemma connect_chunks_bound : forall plan results num_headers st n st',
  Forall2 (fun (t : Z * Z * Z) (headers : list (list byte)) =>
             Z.of_nat (length headers) <= snd t) plan results ->
  connect_chunks (zip (map (fun t => fst (fst t)) plan) results) num_headers st
    = (Ok n, st') ->
  num_headers <= n <= num_headers + total (map snd plan) /\
  self st' = self st.
Proof.
  intros plan results num_headers st n st' Hall.
  revert num_headers st.
  induction Hall as [|t headers plan results Hlen Hall IH];
    intros num_headers st.
  - cbn. intros [= <- <-]. split; [lia | reflexivity].
  - cbn [map zip zip_with connect_chunks]. unfold bindM at 1.
    destruct (blockchain_connect_chunk _ _ _ st) as [[conn|e] st1] eqn:Hc;
      [|discriminate].
    apply blockchain_connect_chunk_Ok in Hc.
    assert (Hpos : 0 <= total (map snd plan)).
    { clear -Hall. induction Hall as [|? ? ? ? H ? IH]; cbn; [lia|].
      fold (total (map snd l)). lia. }
    cbn [total foldr]. fold (total (map snd plan)).
    destruct conn.
    + intros H. destruct (IH _ _ H) as [Hn Hs]. split; [lia | congruence].
    + intros [= <- <-]. split; [lia | exact Hc].
Qed.

(** Every result handed back by the task group is the result of running
    the coroutine spawned at that position. *)
Hypothesis run_group_results : forall tasks st results st',
  run_group tasks st = (Ok results, st') ->
  Forall2 (fun task r => exists s s', task s = (Ok r, s')) tasks results.

(** X19.  [_fast_forward_chain] never reports more headers than there are
    between [height] and [tip]: a returned count [n] satisfies
    [0 <= n <= tip - height + 1], so [height + n <= tip + 1] as
    [sync_until] asserts; it returns only for
    [0 <= height <= tip] with [height] above the last checkpoint (or both
    zero). *)
Theorem fast_forward_result_in_range height tip st n st' :
  _fast_forward_chain height tip st = (Ok n, st') ->
  0 <= n <= tip - height + 1 /\
  0 <= height <= tip /\
  (max_checkpoint < height \/ (height = 0 /\ max_checkpoint = 0)).
Proof.
  unfold _fast_forward_chain, bindM at 1 2 3 4, lift.
  destruct (0 <=? height) eqn:H1; [|discriminate].
  destruct (0 <=? tip) eqn:H2; [|discriminate].
  destruct ((max_checkpoint <? height) || ((height =? 0) && (0 =? max_checkpoint)))
    eqn:H3; [|discriminate].
  destruct (height <=? tip) eqn:H4; [|discriminate].
  cbn [negb raise_if assert_]. cbv zeta. unfold bindM at 1.
  set (plan := plan_chunks (height / CHUNK_SIZE) tip (seqZ 0 10)).
  destruct (run_group _ st) as [[results|e] st1] eqn:Hrun; [|discriminate].
  apply run_group_results in Hrun.
  assert (Hall : Forall2 (fun (t : Z * Z * Z) (headers : list (list byte)) =>
                            Z.of_nat (length headers) <= snd t) plan results).
  { apply Forall2_fmap_l in Hrun. eapply Forall2_impl; [exact Hrun|].
    intros [[index start] size] headers (s & s' & Hget). cbn in Hget |- *.
    now destruct (get_block_headers_lengths _ _ _ _ _ Hget) as (_ & Hle & _). }
  unfold bindM.
  destruct (connect_chunks _ 0 st1) as [[num|e] st2] eqn:Hconn; [|discriminate].
  destruct (connect_chunks_bound _ _ _ _ _ _ Hall Hconn) as [Hnum _].
  unfold ret. intros [= <- <-].
  pose proof (plan_chunks_total (height / CHUNK_SIZE) tip 10 0) as Htot.
  change (seqZ 0 (Z.of_nat 10)) with (seqZ 0 10) in Htot. fold plan in Htot.
  pose proof (Z.div_mod height CHUNK_SIZE ltac:(unfold CHUNK_SIZE; lia)) as Hdm.
  pose proof (Z.mod_pos_bound height CHUNK_SIZE ltac:(unfold CHUNK_SIZE; lia))
    as Hmod.
  split; [lia|]. split; [lia|].
  apply orb_true_iff in H3 as [H3|H3]; [left; lia|].
  apply andb_true_iff in H3 as [Ha Hb]. right. lia.
Qed.

(** *** [_search_headers_backwards] *)

(** The module-level [blockchain.can_connect(header)]: the chain the
    header connects to, if any; [chain_heights] are the heights of the
    chains in [blockchain.blockchains]. *)
Variable can_connect_any : World -> Header -> option Blockchain.
Variable chain_heights : World -> list Z.

(** [max([first] + rest)] *)
Definition py_max (first : Z) (rest : list Z) : Z := foldl Z.max first rest.

(** [x or y] as a condition, for values that are an object or
    [None]/[False]. *)
Definition truthy {A} (x : option A) : bool :=
  match x with Some _ => true | None => false end.

(** The inner coroutine [iterate()]: whether to go on, and the values it
    leaves in the [nonlocal] variables [height] and [header]. *)
Definition iterate (height : Z) : M (bool * Z * Header) :=
  let checkp := height <=? max_checkpoint in
  let height := if checkp then max_checkpoint else height in
  header <~ get_block_header rpc deserialize_header height ;;
  w <~ get_world ;;
  let chain := check_header w header in
  let can_connect := can_connect_any w header in
  if truthy chain || truthy can_connect then ret (false, height, header)
  else if checkp then raise GracefulDisconnect
  else ret (true, height, header).

(** [while await iterate(): ...], for at most [fuel] calls of [iterate]. *)
Fixpoint backwards_loop (fuel : nat) (height bad : Z) (bad_header : Header)
  (delta : Z) (st : State)
  : option (res (Z * Header * Z * Header) * State) :=
  match fuel with
  | O => None
  | S fuel' =>
    match iterate height st with
    | (Raise e, st') => Some (Raise e, st')
    | (Ok (false, height', header'), st') =>
      Some (Ok (height', header', bad, bad_header), st')
    | (Ok (true, height', header'), st') =>
      backwards_loop fuel' (height' - delta) height' header' (delta * 2) st'
    end
  end.

(** [_search_headers_backwards(height, header=header)].  The loop gets
    [height - max_checkpoint + 1] calls of [iterate], which is always
    enough ([backwards_loop_total]). *)
Definition _search_headers_backwards (height : Z) (header : Header)
  (st : State) : option (res (Z * Header * Z * Header) * State) :=
  let bad := height in
  let bad_header := header in
  match _assert_header_does_not_check_against_any_chain
          check_header bad_header st with
  | (Raise e, st1) => Some (Raise e, st1)
  | (Ok _, st1) =>
    let local_max := py_max 0 (chain_heights (world st1)) in
    let height := Z.min (local_max + 1) (height - 1) in
    if negb (0 <=? height) then Some (Raise AssertionError, st1) else
    match _maybe_warm_headers_cache rpc (Z.max 0 (height - 10)) height st1 with
    | (Raise e, st2) => Some (Raise e, st2)
    | (Ok _, st2) =>
      match backwards_loop (Z.to_nat (height - max_checkpoint) + 1)
              height bad bad_header 2 st2 with
      | None => None
      | Some (Raise e, st3) => Some (Raise e, st3)
      | Some (Ok (height', header', bad', bad_header'), st3) =>
        match _assert_header_does_not_check_against_any_chain
                check_header bad_header' st3 with
        | (Raise e, st4) => Some (Raise e, st4)
        | (Ok _, st4) => Some (Ok (height', header', bad', bad_header'), st4)
        end
      end
    end
  end.

Lemma get_block_header_Ok height st header st' :
  get_block_header rpc deserialize_header height st = (Ok header, st') ->
  0 <= height /\ exists raw, deserialize_header raw height = Ok header.
Proof.
  unfold get_block_header, bindM, lift, get_self.
  destruct (0 <=? height) eqn:Hh; [|discriminate]. cbn [negb raise_if].
  intros H. split; [lia|].
  destruct (_headers_cache (self st) !! height) as [[|b raw]|].
  2:{ exists (b :: raw). now injection H. }
  all: destruct (send_request rpc _ _ st) as [[reply|e] st1]; [|discriminate];
    destruct (bytes_fromhex reply) as [raw|e]; [|discriminate];
    exists raw; now injection H.
Qed.

(** What [iterate] tells when it returns. *)
Lemma iterate_Ok height st go height' header' st' :
  iterate height st = (Ok (go, height', header'), st') ->
  height' = Z.max height max_checkpoint /\ 0 <= height' /\
  (exists raw, deserialize_header raw height' = Ok header') /\
  (if go
   then max_checkpoint < height /\
        check_header (world st') header' = None /\
        can_connect_any (world st') header' = None
   else truthy (check_header (world st') header')
        || truthy (can_connect_any (world st') header') = true).
Proof.
  unfold iterate, bindM, get_world.
  destruct (get_block_header _ _ _ st) as [[header|e] st1] eqn:Hget;
    [|discriminate].
  apply get_block_header_Ok in Hget as [Hpos Hraw].
  assert (Hmax : (if height <=? max_checkpoint then max_checkpoint else height)
                 = Z.max height max_checkpoint)
    by (destruct (height <=? max_checkpoint) eqn:E; lia).
  rewrite Hmax in *.
  destruct (truthy (check_header (world st1) header)
            || truthy (can_connect_any (world st1) header)) eqn:Hc.
  - unfold ret. intros [= <- <- <- <-]. repeat split; assumption.
  - destruct (height <=? max_checkpoint) eqn:E; [discriminate|].
    unfold ret. intros [= <- <- <- <-].
    apply orb_false_iff in Hc as [H1 H2].
    repeat split; try assumption; try lia.
    + now destruct (check_header (world st1) header).
    + now destruct (can_connect_any (world st1) header).
Qed.

Lemma backwards_loop_Ok fuel : forall height bad bad_header delta st
                                      height' header' bad' bad_header' st',
  backwards_loop fuel height bad bad_header delta st
    = Some (Ok (height', header', bad', bad_header'), st') ->
  0 < delta -> height < bad -> max_checkpoint < bad ->
  max_checkpoint <= height' < bad' /\ 0 <= height' /\ bad' <= bad /\
  truthy (check_header (world st') header')
  || truthy (can_connect_any (world st') header') = true.
Proof.
  induction fuel as [|fuel IH];
    intros height bad bad_header delta st height' header' bad' bad_header' st';
    cbn [backwards_loop]; [discriminate|].
  destruct (iterate height st) as [[[[go h1] hd1]|e] st1] eqn:Hit;
    [|discriminate].
  apply iterate_Ok in Hit as (Hh1 & Hpos & _ & Hgo).
  destruct go.
  - intros Hloop Hd Hlt Hcp. destruct Hgo as (Hcp1 & _ & _).
    destruct (IH _ _ _ _ _ _ _ _ _ _ Hloop) as (H1 & H2 & H3 & H4); lia || auto.
    repeat split; try lia. exact H4.
  - intros [= <- <- <- <- <-] Hd Hlt Hcp. repeat split; try lia. exact Hgo.
Qed.

(** At or below the last checkpoint there is a single call of [iterate]. *)
Lemma backwards_loop_checkpoint fuel height bad bad_header delta st
      height' header' bad' bad_header' st' :
  backwards_loop fuel height bad bad_header delta st
    = Some (Ok (height', header', bad', bad_header'), st') ->
  height <= max_checkpoint ->
  height' = max_checkpoint /\ bad' = bad /\ bad_header' = bad_header /\
  0 <= height' /\
  truthy (check_header (world st') header')
  || truthy (can_connect_any (world st') header') = true.
Proof.
  destruct fuel as [|fuel]; cbn [backwards_loop]; [discriminate|].
  destruct (iterate height st) as [[[[go h1] hd1]|e] st1] eqn:Hit;
    [|discriminate].
  apply iterate_Ok in Hit as (Hh1 & Hpos & _ & Hgo).
  destruct go.
  - intros _ Hle. lia.
  - intros [= <- <- <- <- <-] Hle. repeat split; try lia. exact Hgo.
Qed.

(** Where the backward search can end. *)
Lemma search_headers_backwards_range
  height0 header0 st height header bad bad_header st' :
  _search_headers_backwards height0 header0 st
    = Some (Ok (height, header, bad, bad_header), st') ->
  0 <= height /\ 1 <= height0 /\
  (max_checkpoint < height0 -> height < bad <= height0) /\
  (height0 <= max_checkpoint -> height = max_checkpoint /\ bad = height0).
Proof.
  unfold _search_headers_backwards. cbv zeta.
  destruct (_assert_header_does_not_check_against_any_chain _ header0 st)
    as [[u|e] st1]; [|discriminate].
  set (h1 := Z.min (py_max 0 (chain_heights (world st1)) + 1) (height0 - 1)).
  destruct (0 <=? h1) eqn:Hh1; [|discriminate]. cbn [negb].
  destruct (_maybe_warm_headers_cache rpc _ h1 st1) as [[u'|e] st2];
    [|discriminate].
  destruct (backwards_loop _ h1 height0 header0 2 st2)
    as [[[[[[h hd] b] bhd]|e] st3]|] eqn:Hloop; try discriminate.
  destruct (_assert_header_does_not_check_against_any_chain _ bhd st3)
    as [[u''|e] st4]; [|discriminate].
  intros [= <- <- <- <- <-].
  assert (Hlt : h1 < height0) by (subst h1; lia).
  destruct (Z_lt_le_dec max_checkpoint height0) as [Hcp|Hcp].
  - destruct (backwards_loop_Ok _ _ _ _ _ _ _ _ _ _ _ Hloop)
      as (H1 & H2 & H3 & H4); try lia.
  - destruct (backwards_loop_checkpoint _ _ _ _ _ _ _ _ _ _ _ Hloop)
      as (H1 & H2 & H3 & H4 & H5); lia.
Qed.

(** X20.  Whenever [_search_headers_backwards] returns
    [(height, header, bad, bad_header)]: [header] checks against a known
    chain or connects to one, and [bad_header] checks against none, both
    at the moment of return; [height] is a block height not below the last
    checkpoint.  When the search started above the last checkpoint,
    [height < bad <= ] the starting height; when it started at or below the
    checkpoint, [height] is the checkpoint itself and [bad] is still the
    starting height, so [height >= bad]. *)
Theorem search_headers_backwards_postcondition
  height0 header0 st height header bad bad_header st' :
  _search_headers_backwards height0 header0 st
    = Some (Ok (height, header, bad, bad_header), st') ->
  (truthy (check_header (world st') header)
   || truthy (can_connect_any (world st') header) = true) /\
  check_header (world st') bad_header = None /\
  0 <= height /\ max_checkpoint <= height /\ 1 <= height0 /\
  (max_checkpoint < height0 -> height < bad <= height0) /\
  (height0 <= max_checkpoint ->
   height = max_checkpoint /\ bad = height0 /\ bad_header = header0).
Proof.
  unfold _search_headers_backwards. cbv zeta.
  destruct (_assert_header_does_not_check_against_any_chain _ header0 st)
    as [[u|e] st1]; [|discriminate].
  set (h1 := Z.min (py_max 0 (chain_heights (world st1)) + 1) (height0 - 1)).
  destruct (0 <=? h1) eqn:Hh1; [|discriminate]. cbn [negb].
  destruct (_maybe_warm_headers_cache rpc _ h1 st1) as [[u'|e] st2];
    [|discriminate].
  destruct (backwards_loop _ h1 height0 header0 2 st2)
    as [[[[[[h hd] b] bhd]|e] st3]|] eqn:Hloop; try discriminate.
  destruct (_assert_header_does_not_check_against_any_chain _ bhd st3)
    as [[u''|e] st4] eqn:Hchk; [|discriminate].
  apply assert_header_does_not_check_Ok in Hchk as [-> Hnone].
  intros [= <- <- <- <- <-].
  assert (Hlt : h1 < height0) by (subst h1; lia).
  destruct (Z_lt_le_dec max_checkpoint height0) as [Hcp|Hcp].
  - destruct (backwards_loop_Ok _ _ _ _ _ _ _ _ _ _ _ Hloop)
      as (H1 & H2 & H3 & H4); try lia.
    repeat split; try assumption; try lia.
  - destruct (backwards_loop_checkpoint _ _ _ _ _ _ _ _ _ _ _ Hloop)
      as (H1 & H2 & H3 & H4 & H5); [lia|].
    repeat split; try assumption; try lia.
Qed.

Lemma backwards_loop_total fuel : forall height bad bad_header delta st,
  0 < delta ->
  (Z.to_nat (height - max_checkpoint) < fuel)%nat ->
  exists out, backwards_loop fuel height bad bad_header delta st = Some out.
Proof.
  induction fuel as [|fuel IH]; intros height bad bad_header delta st Hd Hfuel;
    [lia|].
  cbn [backwards_loop].
  destruct (iterate height st) as [[[[go h1] hd1]|e] st1] eqn:Hit; [|eauto].
  apply iterate_Ok in Hit as (Hh1 & _ & _ & Hgo).
  destruct go; [|eauto]. destruct Hgo as (Hcp & _).
  apply IH; lia.
Qed.

(** X21.  The backward search always ends, with a result or with an
    exception, whatever the server answers: the step doubles and a height
    at or below the last checkpoint is asked for only once. *)
Theorem search_headers_backwards_ends height header st :
  exists out, _search_headers_backwards height header st = Some out.
Proof.
  unfold _search_headers_backwards. cbv zeta.
  destruct (_assert_header_does_not_check_against_any_chain _ header st)
    as [[u|e] st1]; [|eauto].
  destruct (negb _); [eauto|].
  destruct (_maybe_warm_headers_cache rpc _ _ st1) as [[u'|e] st2]; [|eauto].
  destruct (backwards_loop_total
              (Z.to_nat (Z.min (py_max 0 (chain_heights (world st1)) + 1)
                               (height - 1) - max_checkpoint) + 1)
              (Z.min (py_max 0 (chain_heights (world st1)) + 1) (height - 1))
              height header 2 st2 ltac:(lia) ltac:(lia))
    as ([[[[[h hd] b] bhd]|e] st3] & ->); [|eauto].
  destruct (_assert_header_does_not_check_against_any_chain _ bhd st3)
    as [[u''|e] st4]; eauto.
Qed.

(** *** [_resolve_potential_chain_fork_given_forkpoint] and [step] *)

(** More of the [blockchain] module: the method
    [Blockchain.can_connect(header, check_height=...)], the field
    [block_height] of a parsed header, and the methods [height()],
    [fork(header)], [save_header(header)] and the field [forkpoint] of a
    chain; [fork] and [save_header] change the world and may raise. *)
Variable can_connect : World -> Blockchain -> Header -> bool -> bool.
Variable block_height : Header -> Z.
Variable chain_height : World -> Blockchain -> Z.
Variable fork : Blockchain -> Header -> World -> res Blockchain * World.
Variable forkpoint : World -> Blockchain -> Z.
Variable save_header : Blockchain -> Header -> World -> res unit * World.

Inductive ChainResolutionMode : Type :=
| CATCHUP
| BACKWARD
| BINARY
| FORK
| NO_FORK.

(** A call into the [blockchain] module that changes the world. *)
Definition in_world {A} (f : World -> res A * World) : M A :=
  fun st =>
    let '(r, w) := f (world st) in
    (r, {| self := self st; world := w |}).

Definition _resolve_potential_chain_fork_given_forkpoint
  (good bad : Z) (bad_header : Header) : M (ChainResolutionMode * Z) :=
  lift (assert_ (good + 1 =? bad)) ;;~
  lift (assert_ (bad =? block_height bad_header)) ;;~
  _assert_header_does_not_check_against_any_chain check_header bad_header ;;~
  i <~ get_self ;;
  w <~ get_world ;;
  match blockchain i with
  | None => raise AttributeError
  | Some chain =>
    let bh := chain_height w chain in
    lift (assert_ (good <=? bh)) ;;~
    if bh =? good then
      let height := good + 1 in
      ret (NO_FORK, height)
    else
      let height := bad + 1 in
      b <~ in_world (fork chain bad_header) ;;
      modify_self (set_blockchain (Some b)) ;;~
      w' <~ get_world ;;
      lift (assert_ (forkpoint w' b =? bad)) ;;~
      ret (FORK, height)
  end.

(** Lines 1110-1114 of [step]: the header connects to a chain. *)
Definition connect_header (height : Z) (header : Header) (chain : Blockchain)
  : M (ChainResolutionMode * Z) :=
  let height := height + 1 in
  modify_self (set_blockchain (Some chain)) ;;~
  in_world (save_header chain header) ;;~
  ret (CATCHUP, height).

(** [step(height)]; [None] only if one of the two searches ran out of
    passes. *)
Definition step (height : Z) (st : State)
  : option (res (ChainResolutionMode * Z) * State) :=
  if negb ((0 <=? height) && (height <=? tip (self st)))
  then Some (Raise AssertionError, st) else
  match _maybe_warm_headers_cache rpc height
          (Z.min (tip (self st)) (height + MAX_NUM_HEADERS_PER_REQUEST - 1))
          st with
  | (Raise e, st1) => Some (Raise e, st1)
  | (Ok _, st1) =>
    match get_block_header rpc deserialize_header height st1 with
    | (Raise e, st2) => Some (Raise e, st2)
    | (Ok header, st2) =>
      match check_header (world st2) header with
      | Some chain =>
        Some (Ok (CATCHUP, height + 1),
              {| self := set_blockchain (Some chain) (self st2);
                 world := world st2 |})
      | None =>
        match can_connect_any (world st2) header with
        | Some chain => Some (connect_header height header chain st2)
        | None =>
          match _search_headers_backwards height header st2 with
          | None => None
          | Some (Raise e, st3) => Some (Raise e, st3)
          | Some (Ok (height, header, bad, bad_header), st3) =>
            let chain := check_header (world st3) header in
            match can_connect_any (world st3) header with
            | Some connects => Some (connect_header height header connects st3)
            | None =>
              if negb (truthy chain) then Some (Raise AssertionError, st3) else
              match _search_headers_binary rpc check_header can_connect
                      deserialize_header block_height
                      height bad bad_header chain st3 with
              | None => None
              | Some (Raise e, st4) => Some (Raise e, st4)
              | Some (Ok (good, bad, bad_header), st4) =>
                Some (_resolve_potential_chain_fork_given_forkpoint
                        good bad bad_header st4)
              end
            end
          end
        end
      end
    end
  end.

Lemma resolve_Ok good bad bad_header st mode height st' :
  _resolve_potential_chain_fork_given_forkpoint good bad bad_header st
    = (Ok (mode, height), st') ->
  good + 1 = bad /\ bad = block_height bad_header /\
  check_header (world st) bad_header = None /\
  exists chain,
    blockchain (self st) = Some chain /\
    ((mode = NO_FORK /\ height = bad /\ st' = st /\
      chain_height (world st) chain = good) \/
     (mode = FORK /\ height = bad + 1 /\
      good < chain_height (world st) chain /\
      exists b,
        fork chain bad_header (world st) = (Ok b, world st') /\
        self st' = set_blockchain (Some b) (self st) /\
        forkpoint (world st') b = bad)).
Proof.
  unfold _resolve_potential_chain_fork_given_forkpoint, bindM at 1 2, lift.
  destruct (good + 1 =? bad) eqn:H1; [|discriminate].
  destruct (bad =? block_height bad_header) eqn:H2; [|discriminate].
  cbn [assert_]. unfold bindM at 1.
  destruct (_assert_header_does_not_check_against_any_chain _ bad_header st)
    as [[u|e] st1] eqn:Hchk; [|discriminate].
  apply assert_header_does_not_check_Ok in Hchk as [-> Hnone].
  unfold bindM at 1 2, get_self, get_world.
  destruct (blockchain (self st)) as [chain|] eqn:Hb; [|discriminate].
  unfold bindM at 1, lift.
  destruct (good <=? chain_height (world st) chain) eqn:H3; [|discriminate].
  cbn [assert_].
  intros H. split; [lia|]. split; [lia|]. split; [exact Hnone|].
  exists chain. split; [reflexivity|].
  destruct (chain_height (world st) chain =? good) eqn:H4.
  - left. unfold ret in H. injection H as <- <- <-.
    repeat split; lia.
  - right. revert H. unfold bindM, in_world, modify_self, get_world, lift.
    destruct (fork chain bad_header (world st)) as [[b|e] w'] eqn:Hf;
      [|discriminate].
    cbn [self world].
    destruct (forkpoint w' b =? bad) eqn:H5; [|discriminate].
    cbn [assert_]. unfold ret. intros [= <- <- <-].
    repeat split; try lia. exists b. cbn [self world].
    repeat split. lia.
Qed.

Lemma connect_header_Ok height header chain st mode height' st' :
  connect_header height header chain st = (Ok (mode, height'), st') ->
  mode = CATCHUP /\ height' = height + 1 /\
  blockchain (self st') = Some chain.
Proof.
  unfold connect_header, bindM, modify_self, in_world. cbn [self world].
  destruct (save_header chain header (world st)) as [[u|e] w]; [|discriminate].
  unfold ret. now intros [= <- <- <-].
Qed.

(** The interval of the binary search only shrinks. *)
Lemma binary_loop_range fuel : forall good bad bad_header st good' bad' bh' st',
  binary_loop rpc check_header deserialize_header fuel good bad bad_header st
    = Some (Ok (good', bad', bh'), st') ->
  0 <= good <= good' /\ good' < bad' <= bad.
Proof.
  induction fuel as [|fuel IH]; intros good bad bad_header st good' bad' bh' st';
    cbn [binary_loop]; [discriminate|].
  destruct (binary_step _ _ _ good bad bad_header st)
    as [[[[g b] h]|e] st1] eqn:Hstep; [|discriminate].
  apply binary_step_Ok in Hstep as [Hr Hcase].
  pose proof (Z.div_mod (good + bad) 2 ltac:(lia)).
  pose proof (Z.mod_pos_bound (good + bad) 2 ltac:(lia)).
  destruct (g + 1 =? b) eqn:E.
  - intros [= <- <- <- <-]. destruct Hcase as [[-> ->] | [-> ->]]; lia.
  - intros Hloop. apply IH in Hloop.
    destruct Hcase as [[-> ->] | [-> ->]]; lia.
Qed.

Lemma search_headers_binary_range
      height bad bad_header chain st good bad' bad_header' st' :
  _search_headers_binary rpc check_header can_connect deserialize_header
    block_height height bad bad_header chain st
    = Some (Ok (good, bad', bad_header'), st') ->
  0 <= height <= good /\ good < bad' <= bad.
Proof.
  unfold _search_headers_binary.
  destruct (binary_entry _ _ bad bad_header chain st) as [[u|e] st1];
    [|discriminate].
  destruct (binary_loop _ _ _ _ height bad bad_header st1)
    as [[[[[g b] h]|e] st2]|] eqn:Hloop; try discriminate.
  apply binary_loop_range in Hloop.
  intros [= Hexit]. apply binary_exit_Ok in Hexit as ([= <- <- <-] & _).
  exact Hloop.
Qed.

(** X22.  [step] never skips ahead: when [step(height)] returns
    [(mode, next)], the mode is [CATCHUP], [NO_FORK] or [FORK],
    [self.blockchain] is set, and [1 <= next <= height + 1] for a [height]
    above the last checkpoint (in general
    [next <= max(height, max_checkpoint) + 1]); it returns only for
    [0 <= height <= self.tip]. *)
Theorem step_advances_at_most_one height st mode next st' :
  step height st = Some (Ok (mode, next), st') ->
  0 <= height <= tip (self st) /\
  (mode = CATCHUP \/ mode = NO_FORK \/ mode = FORK) /\
  1 <= next <= Z.max height max_checkpoint + 1 /\
  is_Some (blockchain (self st')).
Proof.
  unfold step.
  destruct ((0 <=? height) && (height <=? tip (self st))) eqn:Hrange;
    [|discriminate].
  cbn [negb].
  destruct (_maybe_warm_headers_cache rpc height _ st) as [[u|e] st1];
    [|discriminate].
  destruct (get_block_header rpc deserialize_header height st1)
    as [[header|e] st2]; [|discriminate].
  destruct (check_header (world st2) header) as [chain|].
  { intros [= <- <- <-]. cbn. split; [lia|]. split; [auto|].
    split; [lia | eauto]. }
  destruct (can_connect_any (world st2) header) as [chain|].
  { intros [= H]. apply connect_header_Ok in H as (-> & -> & Hb).
    split; [lia|]. split; [auto|]. split; [lia|]. rewrite Hb. eauto. }
  destruct (_search_headers_backwards height header st2)
    as [[[[[[h hd] bad] bad_header]|e] st3]|] eqn:Hback; try discriminate.
  apply search_headers_backwards_range in Hback
    as (Hh0 & _ & Habove & Hbelow).
  assert (Hh : h <= Z.max height max_checkpoint /\
               (h < bad \/ height <= max_checkpoint) /\
               bad <= Z.max height max_checkpoint).
  { destruct (Z_lt_le_dec max_checkpoint height) as [H|H].
    - specialize (Habove H). lia.
    - destruct (Hbelow H) as (-> & ->). lia. }
  destruct (can_connect_any (world st3) hd) as [connects|].
  { intros [= H]. apply connect_header_Ok in H as (-> & -> & Hb).
    split; [lia|]. split; [auto|]. split; [lia|]. rewrite Hb. eauto. }
  destruct (truthy (check_header (world st3) hd)); [|discriminate].
  cbn [negb].
  destruct (_search_headers_binary _ _ _ _ _ h bad bad_header _ st3)
    as [[[[[good bad'] bh']|e] st4]|] eqn:Hbin; try discriminate.
  apply search_headers_binary_range in Hbin.
  intros [= H]. apply resolve_Ok in H
    as (Hgb & _ & _ & chain & Hchain & Hcase).
  split; [lia|].
  destruct Hcase as [(-> & -> & -> & _) | (-> & -> & _ & b & _ & Hself & _)].
  - split; [auto|]. split; [lia|]. rewrite Hchain. eauto.
  - split; [auto|]. split; [lia|]. rewrite Hself. cbn. eauto.
Qed.

End Interface.

(** *** Running the methods in the small world

    The world of [Iface.Toy]: the local chain has height 5, the server's
    chain leaves it after height 5 and has its tip at 10; there are no
    checkpoints. *)

Definition toy_max_checkpoint : Z := 0.

Definition toy_can_connect_any (w : Toy.toy_world) (hd : Toy.header)
  : option Toy.chain :=
  if fst hd =? Toy.fork_height + 1 then Some tt else None.

Definition toy_chain_heights (w : Toy.toy_world) : list Z := [Toy.fork_height].

Definition toy_chain_height (w : Toy.toy_world) (c : Toy.chain) : Z :=
  Toy.fork_height.

Definition toy_fork (c : Toy.chain) (hd : Toy.header) (w : Toy.toy_world)
  : res Toy.chain * Toy.toy_world := (Ok tt, w).

Definition toy_forkpoint (w : Toy.toy_world) (c : Toy.chain) : Z :=
  Toy.fork_height + 1.

Definition toy_save_header (c : Toy.chain) (hd : Toy.header)
  (w : Toy.toy_world) : res unit * Toy.toy_world := (Ok tt, w).

(** A task group that runs its coroutines one after the other. *)
Fixpoint seq_group {Blockchain World A}
  (tasks : list (@M Blockchain World A)) : @M Blockchain World (list A) :=
  match tasks with
  | [] => ret []
  | task :: rest =>
    bindM task (fun r => bindM (seq_group rest) (fun rs => ret (r :: rs)))
  end.

Lemma seq_group_results {Blockchain World A}
  (tasks : list (@M Blockchain World A)) : forall st results st',
  seq_group tasks st = (Ok results, st') ->
  Forall2 (fun task r => exists s s', task s = (Ok r, s')) tasks results.
Proof.
  induction tasks as [|task rest IH]; intros st results st'; cbn [seq_group].
  - unfold ret. intros [= <- <-]. constructor.
  - unfold bindM at 1. destruct (task st) as [[r|e] st1] eqn:Ht; [|discriminate].
    unfold bindM. destruct (seq_group rest st1) as [[rs|e] st2] eqn:Hr;
      [|discriminate].
    unfold ret. intros [= <- <-]. constructor; [eauto | eapply IH, Hr].
Qed.

(** The state after a run, or the initial state if there is none. *)
Definition state_after {A} (run : option (res A * Toy.toy_state))
  : Toy.toy_state :=
  match run with
  | Some (_, st) => st
  | None => Toy.initial
  end.

Definition toy_headers : list (list byte) * Toy.toy_state :=
  match get_block_headers (Toy.toy_rpc Toy.no_estimate) 8 10 Toy.initial with
  | (Ok headers, st) => (headers, st)
  | (Raise _, st) => ([], st)
  end.

Lemma get_block_headers_returns_whole_headers_witness :
  Forall (fun raw => Z.of_nat (length raw) = HEADER_SIZE) (fst toy_headers) /\
  Z.of_nat (length (fst toy_headers)) <= 10.
Proof.
  destruct (get_block_headers_returns_whole_headers
              (Toy.toy_rpc Toy.no_estimate) 8 10 Toy.initial
              (fst toy_headers) (snd toy_headers))
    as (Hall & Hle & _); [vm_compute; reflexivity|].
  split; [exact Hall | exact Hle].
Defined.

Definition toy_warmed : Toy.toy_state :=
  snd (_maybe_warm_headers_cache (Toy.toy_rpc Toy.no_estimate) 4 9 Toy.initial).

Lemma toy_warm_run :
  _maybe_warm_headers_cache (Toy.toy_rpc Toy.no_estimate) 4 9 Toy.initial
  = (Ok tt, toy_warmed).
Proof. vm_compute. reflexivity. Qed.

(** Warming the same range again finds everything in the cache. *)
Lemma warm_headers_cache_fills_range_witness :
  _maybe_warm_headers_cache (Toy.toy_rpc Toy.no_estimate) 4 9 toy_warmed
  = (Ok tt, toy_warmed).
Proof.
  apply (proj1 (warm_headers_cache_fills_range
                  (Toy.toy_rpc Toy.no_estimate) 4 9 toy_warmed)).
  - unfold MAX_NUM_HEADERS_PER_REQUEST. lia.
  - intros k Hk.
    assert (Hcases : k = 4 \/ k = 5 \/ k = 6 \/ k = 7 \/ k = 8 \/ k = 9) by lia.
    destruct Hcases as [->|[->|[->|[->|[->| ->]]]]]; vm_compute; eauto.
Defined.

Lemma warmed_header_needs_no_request_witness :
  exists raw,
    _headers_cache (self toy_warmed) !! 7 = Some raw /\
    get_block_header (Toy.toy_rpc Toy.no_estimate) Toy.toy_deserialize_header
      7 toy_warmed
    = (Toy.toy_deserialize_header raw 7, toy_warmed).
Proof.
  apply (warmed_header_needs_no_request
           (Toy.toy_rpc Toy.no_estimate) Toy.toy_deserialize_header
           4 9 Toy.initial toy_warmed 7 toy_warm_run).
  - intros h raw H. cbn in H. rewrite lookup_empty in H. discriminate.
  - lia.
  - lia.
  - vm_compute. discriminate.
Defined.

Lemma fast_forward_requests_in_range_witness :
  (1 <= length (plan_chunks (5000 / CHUNK_SIZE) 10000 (seqZ 0 10)) <= 10)%nat.
Proof.
  exact (proj1 (fast_forward_requests_in_range 5000 10000 ltac:(lia))).
Defined.

Definition toy_fast_forward : res Z * Toy.toy_state :=
  _fast_forward_chain (Toy.toy_rpc Toy.no_estimate) (Toy.toy_connect_chunk true)
    toy_max_checkpoint seq_group 3 10 Toy.initial.

Lemma toy_fast_forward_run : toy_fast_forward = (Ok 8, snd toy_fast_forward).
Proof. vm_compute. reflexivity. Qed.

Lemma fast_forward_result_in_range_witness : 0 <= 8 <= 10 - 3 + 1.
Proof.
  exact (proj1 (fast_forward_result_in_range
                  (Toy.toy_rpc Toy.no_estimate) (Toy.toy_connect_chunk true)
                  toy_max_checkpoint seq_group seq_group_results
                  3 10 Toy.initial 8 (snd toy_fast_forward)
                  toy_fast_forward_run)).
Defined.

Definition toy_backwards
  : option (res (Z * Toy.header * Z * Toy.header) * Toy.toy_state) :=
  _search_headers_backwards (Toy.toy_rpc Toy.no_estimate) Toy.toy_check_header
    Toy.toy_deserialize_header toy_max_checkpoint toy_can_connect_any
    toy_chain_heights 10 (10, false) Toy.initial.

Lemma toy_backwards_run :
  toy_backwards
  = Some (Ok (6, (6, false), 10, (10, false)), state_after toy_backwards).
Proof. vm_compute. reflexivity. Qed.

Lemma search_headers_backwards_postcondition_witness :
  Toy.toy_check_header (world (state_after toy_backwards)) (10, false) = None /\
  0 <= 6.
Proof.
  destruct (search_headers_backwards_postcondition
              (Toy.toy_rpc Toy.no_estimate) Toy.toy_check_header
              Toy.toy_deserialize_header toy_max_checkpoint
              toy_can_connect_any toy_chain_heights
              10 (10, false) Toy.initial 6 (6, false) 10 (10, false)
              (state_after toy_backwards) toy_backwards_run)
    as (_ & Hnone & Hpos & _).
  split; [exact Hnone | exact Hpos].
Defined.

Definition toy_step (height : Z)
  : option (res (ChainResolutionMode * Z) * Toy.toy_state) :=
  step (Toy.toy_rpc Toy.no_estimate) Toy.toy_check_header
    Toy.toy_deserialize_header toy_max_checkpoint toy_can_connect_any
    toy_chain_heights Toy.toy_can_connect fst toy_chain_height toy_fork
    toy_forkpoint toy_save_header height Toy.initial.

(** From height 10 the step searches backwards and connects the server's
    header 6 to the local chain. *)
Lemma toy_step_run :
  toy_step 10 = Some (Ok (CATCHUP, 7), state_after (toy_step 10)).
Proof. vm_compute. reflexivity. Qed.

Lemma step_advances_at_most_one_witness :
  1 <= 7 <= Z.max 10 toy_max_checkpoint + 1.
Proof.
  destruct (step_advances_at_most_one
              (Toy.toy_rpc Toy.no_estimate) Toy.toy_check_header
              Toy.toy_deserialize_header toy_max_checkpoint
              toy_can_connect_any toy_chain_heights Toy.toy_can_connect fst
              toy_chain_height toy_fork toy_forkpoint toy_save_header
              10 Toy.initial CATCHUP 7 (state_after (toy_step 10))
              toy_step_run)
    as (_ & _ & Hnext & _).
  exact Hnext.
Defined.

End Sync.

(* ===================================================================== *)
(** ** Interface: the other typed requests *)
(* ===================================================================== *)

From Stdlib Require Import Qpower.

Module Requests.
Import Py Val Util Iface.
Local Open Scope py_scope.

(** [for item in items: check(item)] *)
Fixpoint for_each {A} (check : A -> res unit) (items : list A) : res unit :=
  match items with
  | [] => Ok tt
  | item :: rest => check item ;;; for_each check rest
  end.

(** *** The response checks *)

(** [get_merkle_for_transaction], lines 1272-1281 *)
Definition check_merkle (res : pyval) : Py.res pyval :=
  block_height <- assert_dict_contains_field res "block_height" ;;
  merkle <- assert_dict_contains_field res "merkle" ;;
  pos <- assert_dict_contains_field res "pos" ;;
  assert_non_negative_integer block_height ;;;
  assert_non_negative_integer pos ;;;
  assert_list_or_tuple merkle ;;;
  items <- list_value merkle ;;
  for_each assert_hash256_str items ;;;
  Ok res.

(** [listunspent_for_scripthash], the body of the loop (lines 1337-1344) *)
Definition check_utxo_item (utxo_item : pyval) : res unit :=
  assert_dict_contains_field utxo_item "tx_pos" ;;;
  assert_dict_contains_field utxo_item "value" ;;;
  assert_dict_contains_field utxo_item "tx_hash" ;;;
  assert_dict_contains_field utxo_item "height" ;;;
  tx_pos <- subscript utxo_item "tx_pos" ;;
  assert_non_negative_integer tx_pos ;;;
  value <- subscript utxo_item "value" ;;
  assert_non_negative_integer value ;;;
  height <- subscript utxo_item "height" ;;
  assert_non_negative_integer height ;;;
  tx_hash <- subscript utxo_item "tx_hash" ;;
  assert_hash256_str tx_hash.

Definition check_listunspent (res : pyval) : Py.res pyval :=
  assert_list_or_tuple res ;;;
  items <- list_value res ;;
  for_each check_utxo_item items ;;;
  Ok res.

(** [get_balance_for_scripthash], lines 1353-1357 *)
Definition check_balance (res : pyval) : Py.res pyval :=
  assert_dict_contains_field res "confirmed" ;;;
  assert_dict_contains_field res "unconfirmed" ;;;
  confirmed <- subscript res "confirmed" ;;
  assert_non_negative_integer confirmed ;;;
  unconfirmed <- subscript res "unconfirmed" ;;
  assert_integer unconfirmed ;;;
  Ok res.

(** [get_txid_from_txpos], lines 1370-1379 *)
Definition check_txid_from_txpos (merkle : bool) (res : pyval)
  : Py.res pyval :=
  (if merkle then
     assert_dict_contains_field res "tx_hash" ;;;
     assert_dict_contains_field res "merkle" ;;;
     tx_hash <- subscript res "tx_hash" ;;
     assert_hash256_str tx_hash ;;;
     res_merkle <- subscript res "merkle" ;;
     assert_list_or_tuple res_merkle ;;;
     items <- list_value res_merkle ;;
     for_each assert_hash256_str items
   else assert_hash256_str res) ;;;
  Ok res.

(** *** What the accepted responses look like *)


Definition utxo_item_ok (utxo_item : pyval) : Prop :=
  exists d tx_pos value height tx_hash,
    utxo_item = PDict d /\
    dict_get d "tx_pos" = Some (PInt tx_pos) /\ 0 <= tx_pos /\
    dict_get d "value" = Some (PInt value) /\ 0 <= value /\
    dict_get d "height" = Some (PInt height) /\ 0 <= height /\
    dict_get d "tx_hash" = Some tx_hash /\ is_hash256_str tx_hash = true.

Definition listunspent_ok (res : pyval) : Prop :=
  exists items, res = PList items /\ Forall utxo_item_ok items.

Definition balance_ok (res : pyval) : Prop :=
  exists d confirmed unconfirmed,
    res = PDict d /\
    dict_get d "confirmed" = Some (PInt confirmed) /\ 0 <= confirmed /\
    dict_get d "unconfirmed" = Some (PInt unconfirmed).

Definition txid_from_txpos_ok (merkle : bool) (res : pyval) : Prop :=
  if merkle then
    exists d tx_hash nodes,
      res = PDict d /\
      dict_get d "tx_hash" = Some tx_hash /\ is_hash256_str tx_hash = true /\
      dict_get d "merkle" = Some (PList nodes) /\
      Forall (fun node_hash => is_hash256_str node_hash = true) nodes
  else is_hash256_str res = true.

(** A check either accepts the response and hands it back unchanged, or
    raises [RequestCorrupted]. *)
Definition accepts_exactly (check : pyval -> Py.res pyval)
  (ok : pyval -> Prop) : Prop :=
  forall res,
    (check res = Ok res /\ ok res) \/
    (check res = Raise RequestCorrupted /\ ~ ok res).

Lemma for_each_hash256 items :
  (for_each assert_hash256_str items = Ok tt /\
   Forall (fun item => is_hash256_str item = true) items) \/
  (for_each assert_hash256_str items = Raise RequestCorrupted /\
   ~ Forall (fun item => is_hash256_str item = true) items).
Proof.
  induction items as [|item rest IH]; [left; split; [reflexivity|constructor]|].
  cbn [for_each]. unfold assert_hash256_str at 1 3.
  destruct (is_hash256_str item) eqn:Hi; cbn [negb raise_if bind].
  - destruct IH as [[-> Hall] | [-> Hno]].
    + left. split; [reflexivity | now constructor].
    + right. split; [reflexivity|]. intros H. apply Hno.
      now apply Forall_cons in H as [_ H].
  - right. split; [reflexivity|]. intros H.
    apply Forall_cons in H as [H _]. congruence.
Qed.

(** Take apart an assumed shape and compare it with what the checks
    found. *)
Ltac unpack_ok :=
  repeat match goal with
  | H : exists _, _ |- _ => destruct H
  | H : _ /\ _ |- _ => destruct H
  | H : PDict _ = PDict _ |- _ => injection H as H; subst
  | H : PList _ = PList _ |- _ => injection H as H; subst
  | H1 : ?x = None, H2 : ?x = Some _ |- _ => rewrite H1 in H2; discriminate H2
  | H1 : ?x = Some _, H2 : ?x = Some _ |- _ =>
    rewrite H1 in H2; injection H2 as H2; subst
  end.

Ltac reject :=
  right; split;
  [reflexivity
  | intros ?; unpack_ok; solve [discriminate | congruence | lia]].


Lemma check_utxo_item_cases utxo_item :
  (check_utxo_item utxo_item = Ok tt /\ utxo_item_ok utxo_item) \/
  (check_utxo_item utxo_item = Raise RequestCorrupted /\
   ~ utxo_item_ok utxo_item).
Proof.
  unfold check_utxo_item, utxo_item_ok, assert_non_negative_integer,
    assert_hash256_str.
  destruct utxo_item as [| | | |l|d]; try reject.
  cbn [assert_dict_contains_field subscript].
  destruct (dict_get d "tx_pos") as [tx_pos|] eqn:E1; [|reject].
  destruct (dict_get d "value") as [value|] eqn:E2; [|reject].
  destruct (dict_get d "tx_hash") as [tx_hash|] eqn:E3; [|reject].
  destruct (dict_get d "height") as [height|] eqn:E4; [|reject].
  cbn [bind].
  destruct tx_pos as [|tx_pos| | | |]; try reject.
  cbn [is_non_negative_integer].
  destruct (0 <=? tx_pos) eqn:H1; [|reject]. cbn [negb raise_if bind].
  destruct value as [|value| | | |]; try reject.
  cbn [is_non_negative_integer].
  destruct (0 <=? value) eqn:H2; [|reject]. cbn [negb raise_if bind].
  destruct height as [|height| | | |]; try reject.
  cbn [is_non_negative_integer].
  destruct (0 <=? height) eqn:H3; [|reject]. cbn [negb raise_if bind].
  destruct (is_hash256_str tx_hash) eqn:H4; [|reject]. cbn [negb raise_if].
  left. split; [reflexivity|]. exists d, tx_pos, value, height, tx_hash.
  repeat split; try assumption; lia.
Qed.

Lemma for_each_utxo items :
  (for_each check_utxo_item items = Ok tt /\ Forall utxo_item_ok items) \/
  (for_each check_utxo_item items = Raise RequestCorrupted /\
   ~ Forall utxo_item_ok items).
Proof.
  induction items as [|item rest IH]; [left; split; [reflexivity|constructor]|].
  cbn [for_each].
  destruct (check_utxo_item_cases item) as [[-> Hi] | [-> Hi]]; cbn [bind].
  - destruct IH as [[-> Hall] | [-> Hno]].
    + left. split; [reflexivity | now constructor].
    + right. split; [reflexivity|]. intros H. apply Hno.
      now apply Forall_cons in H as [_ H].
  - right. split; [reflexivity|]. intros H.
    now apply Forall_cons in H as [H _].
Qed.

Lemma check_listunspent_cases : accepts_exactly check_listunspent listunspent_ok.
Proof.
  intros res. unfold check_listunspent, listunspent_ok.
  destruct res as [| | | |items|d]; try reject.
  cbn [assert_list_or_tuple list_value bind].
  destruct (for_each_utxo items) as [[-> Hall] | [-> Hno]]; cbn [bind].
  - left. split; [reflexivity|]. now exists items.
  - right. split; [reflexivity|]. intros (items' & [= <-] & Hall). tauto.
Qed.

Lemma check_balance_cases : accepts_exactly check_balance balance_ok.
Proof.
  intros res. unfold check_balance, balance_ok, assert_non_negative_integer,
    assert_integer.
  destruct res as [| | | |l|d]; try reject.
  cbn [assert_dict_contains_field subscript].
  destruct (dict_get d "confirmed") as [confirmed|] eqn:E1; [|reject].
  destruct (dict_get d "unconfirmed") as [unconfirmed|] eqn:E2; [|reject].
  cbn [bind].
  destruct confirmed as [|confirmed| | | |]; try reject.
  cbn [is_non_negative_integer].
  destruct (0 <=? confirmed) eqn:H1; [|reject]. cbn [negb raise_if bind].
  destruct unconfirmed as [|unconfirmed| | | |]; try reject.
  cbn [is_integer negb raise_if bind].
  left. split; [reflexivity|]. exists d, confirmed, unconfirmed.
  repeat split; try assumption; lia.
Qed.

Lemma check_txid_from_txpos_cases merkle :
  accepts_exactly (check_txid_from_txpos merkle) (txid_from_txpos_ok merkle).
Proof.
  intros res. unfold check_txid_from_txpos, txid_from_txpos_ok.
  destruct merkle.
  - destruct res as [| | | |l|d]; try reject.
    cbn [assert_dict_contains_field subscript].
    destruct (dict_get d "tx_hash") as [tx_hash|] eqn:E1; [|reject].
    destruct (dict_get d "merkle") as [m|] eqn:E2; [|reject].
    cbn [bind].
    change (assert_hash256_str tx_hash)
      with (raise_if (negb (is_hash256_str tx_hash)) RequestCorrupted).
    destruct (is_hash256_str tx_hash) eqn:H1; [|reject].
    cbn [negb raise_if bind].
    destruct m as [| | | |nodes|]; try reject.
    cbn [assert_list_or_tuple list_value bind].
    destruct (for_each_hash256 nodes) as [[-> Hall] | [-> Hno]]; cbn [bind].
    + left. split; [reflexivity|]. exists d, tx_hash, nodes.
      repeat split; assumption.
    + right. split; [reflexivity|].
      intros (d' & t' & n' & [= <-] & _ & _ & Hm & Hall).
      apply Hno. congruence.
  - unfold assert_hash256_str.
    destruct (is_hash256_str res) eqn:H; cbn [negb raise_if bind].
    + left. split; reflexivity.
    + right. split; [reflexivity | congruence].
Qed.

(** *** [get_fee_histogram]: the response checks (lines 1384-1393) *)

(** The exact value of an int or a float: a rational or an infinity.
    Python compares ints and floats by these values. *)
Inductive ext : Type :=
| Fin (q : Q)
| PosInf
| NegInf.

Definition float_value (f : spec_float) : option ext :=
  match f with
  | S754_zero _ => Some (Fin 0%Q)
  | S754_infinity s => Some (if s then NegInf else PosInf)
  | S754_nan => None
  | S754_finite s m e =>
    let mag := (inject_Z (Z.pos m) * Qpower (2 # 1) e)%Q in
    Some (Fin (if s then Qopp mag else mag))
  end.

Definition num_value (v : pyval) : option ext :=
  match v with
  | PInt z => Some (Fin (inject_Z z))
  | PFloat f => float_value f
  | _ => None
  end.

(** [a >= b] *)
Definition ext_ge (a b : ext) : bool :=
  match a, b with
  | _, NegInf => true
  | PosInf, _ => true
  | Fin x, Fin y => Qle_bool y x
  | _, _ => false
  end.

(** The keys of a JSON object, each once. *)
Definition dict_keys (d : list (string * pyval)) : list string :=
  remove_dups (map fst d).

(** [fee, s = item]: unpacking works on any iterable with two elements;
    a list gives its elements, a str its characters, a dict its keys.
    A wrong number of elements is a [ValueError], a value that is not
    iterable a [TypeError]. *)
Definition unpack2 (item : pyval) : res (pyval * pyval) :=
  match item with
  | PList [a; b] => Ok (a, b)
  | PList _ => Raise ValueError
  | PStr s =>
    match list_ascii_of_string s with
    | [a; b] => Ok (PStr (String a EmptyString), PStr (String b EmptyString))
    | _ => Raise ValueError
    end
  | PDict d =>
    match dict_keys d with
    | [a; b] => Ok (PStr a, PStr b)
    | _ => Raise ValueError
    end
  | _ => Raise TypeError
  end.

(** The loop over [res]; [prev_fee] starts as [float('inf')]. *)
Fixpoint check_fee_histogram_loop (prev_fee : ext) (items : list pyval)
  : res unit :=
  match items with
  | [] => Ok tt
  | item :: rest =>
    pair <- unpack2 item ;;
    let '(fee, s) := pair in
    assert_non_negative_int_or_float fee ;;;
    assert_non_negative_integer s ;;;
    match num_value fee with
    | None => Raise TypeError
    | Some v =>
      raise_if (ext_ge v prev_fee) RequestCorrupted ;;;
      check_fee_histogram_loop v rest
    end
  end.

Definition check_fee_histogram (res : pyval) : Py.res pyval :=
  assert_list_or_tuple res ;;;
  items <- list_value res ;;
  check_fee_histogram_loop PosInf items ;;;
  Ok res.

(** An accepted entry: a pair of a finite non-negative fee and a
    non-negative int size. *)
Definition entry_ok (item : pyval) (entry : Q * Z) : Prop :=
  exists fee,
    unpack2 item = Ok (fee, PInt (snd entry)) /\
    is_int_or_float fee = true /\
    num_value fee = Some (Fin (fst entry)) /\
    (0 <= fst entry)%Q /\ 0 <= snd entry.

(** [fee < prev_fee] all along the list. *)
Fixpoint decreasing_from (prev_fee : ext) (fees : list Q) : Prop :=
  match fees with
  | [] => True
  | q :: rest => ext_ge (Fin q) prev_fee = false /\ decreasing_from (Fin q) rest
  end.

Definition histogram_ok (res : pyval) : Prop :=
  exists items entries,
    res = PList items /\
    Forall2 entry_ok items entries /\
    decreasing_from PosInf (map fst entries).

(** Every item is a two-element list. *)
Definition pairs_only (res : pyval) : Prop :=
  forall items, res = PList items ->
    Forall (fun item => exists a b, item = PList [a; b]) items.

Definition histogram_error (e : exn) : Prop :=
  e = RequestCorrupted \/ e = TypeError \/ e = ValueError.

Lemma non_negative_value fee :
  is_non_negative_int_or_float fee = true ->
  is_int_or_float fee = true /\
  (num_value fee = Some PosInf \/
   exists q, num_value fee = Some (Fin q) /\ (0 <= q)%Q).
Proof.
  unfold is_non_negative_int_or_float. intros H.
  apply andb_true_iff in H as [Hn Hge]. split; [exact Hn|].
  destruct fee as [|z|f| | |]; try discriminate.
  - right. exists (inject_Z z). split; [reflexivity|].
    cbn [ge0] in Hge. apply Z.leb_le in Hge.
    rewrite Zle_Qle in Hge. exact Hge.
  - cbn [ge0] in Hge. destruct f as [s|[]| |[] m e]; try discriminate.
    + right. exists 0%Q. split; [reflexivity | apply Qle_refl].
    + left. reflexivity.
    + right. eexists. split; [reflexivity|].
      apply Qmult_le_0_compat; [now rewrite <- (Zle_Qle 0)|].
      now apply Qpower_0_le.
Qed.

Lemma unpack2_pair item :
  (exists a b, item = PList [a; b]) ->
  exists a b, unpack2 item = Ok (a, b).
Proof. intros (a & b & ->). now exists a, b. Qed.

Lemma unpack2_error item e :
  unpack2 item = Raise e -> e = TypeError \/ e = ValueError.
Proof.
  destruct item as [| | |s|l|d]; cbn [unpack2]; try (intros [= <-]; auto).
  - destruct (list_ascii_of_string s) as [|a [|b [|]]]; intros [= <-]; auto.
  - destruct l as [|a [|b [|]]]; intros [= <-]; auto.
  - destruct (dict_keys d) as [|a [|b [|]]]; intros [= <-]; auto.
Qed.

Lemma check_fee_histogram_loop_cases items : forall prev_fee,
  prev_fee <> NegInf ->
  (check_fee_histogram_loop prev_fee items = Ok tt /\
   exists entries,
     Forall2 entry_ok items entries /\
     decreasing_from prev_fee (map fst entries)) \/
  (exists e,
     check_fee_histogram_loop prev_fee items = Raise e /\
     histogram_error e /\
     (Forall (fun item => exists a b, item = PList [a; b]) items ->
      e = RequestCorrupted) /\
     ~ exists entries,
         Forall2 entry_ok items entries /\
         decreasing_from prev_fee (map fst entries)).
Proof.
  unfold histogram_error.
  induction items as [|item rest IH]; intros prev_fee Hprev.
  { left. split; [reflexivity|]. exists []. split; [constructor | exact I]. }
  cbn [check_fee_histogram_loop].
  destruct (unpack2 item) as [[fee s]|e] eqn:Hu; cbn [bind].
  2:{ right. exists e. split; [reflexivity|].
      split; [destruct (unpack2_error _ _ Hu); auto|]. split.
      - intros H. apply Forall_cons in H as [H _].
        apply unpack2_pair in H as (a & b & H). congruence.
      - intros (entries & Hall & _). inversion Hall as [|? y ? ? Hi _]; subst.
        destruct Hi as (fee & Hf & _). congruence. }
  unfold assert_non_negative_int_or_float, assert_non_negative_integer.
  destruct (is_non_negative_int_or_float fee) eqn:Hfee; cbn [negb raise_if bind].
  2:{ right. exists RequestCorrupted. repeat split; auto.
      intros (entries & Hall & _). inversion Hall as [|? y ? ? Hi _]; subst.
      destruct Hi as (fee' & Hf & Hn & Hv & Hq & _).
      rewrite Hu in Hf. injection Hf as <- _.
      unfold is_non_negative_int_or_float in Hfee. rewrite Hn in Hfee.
      cbn [andb] in Hfee. destruct fee as [|z|f| | |]; try discriminate.
      - cbn in Hv, Hfee. injection Hv as Hv. rewrite <- Hv in Hq.
        rewrite <- (Zle_Qle 0) in Hq. lia.
      - cbn [ge0 num_value] in Hv, Hfee.
        destruct f as [sg|[]| |[] m e]; try discriminate.
        cbn in Hv. injection Hv as Hv. rewrite <- Hv in Hq.
        assert (Hpos : (0 < inject_Z (Z.pos m) * (2 # 1) ^ e)%Q).
        { apply Qmult_lt_0_compat; [now rewrite <- (Zlt_Qlt 0)|].
          now apply Qpower_0_lt. }
        apply Qlt_not_le in Hpos. apply Hpos.
        apply Qopp_le_compat in Hq. now rewrite Qopp_involutive in Hq. }
  destruct (is_non_negative_integer s) eqn:Hs; cbn [negb raise_if bind].
  2:{ right. exists RequestCorrupted. repeat split; auto.
      intros (entries & Hall & _). inversion Hall as [|? y ? ? Hi _]; subst.
      destruct Hi as (fee' & Hf & _ & _ & _ & Hsz).
      rewrite Hu in Hf. injection Hf as _ ->.
      cbn in Hs. lia. }
  destruct s as [|size| | | |]; try discriminate.
  cbn [is_non_negative_integer] in Hs. apply Z.leb_le in Hs.
  destruct (non_negative_value _ Hfee) as [Hn [Hv | (q & Hv & Hq)]];
    rewrite Hv.
  { (* an infinite fee is never below the previous one *)
    replace (ext_ge PosInf prev_fee) with true
      by (destruct prev_fee; reflexivity || congruence).
    cbn [raise_if bind]. right. exists RequestCorrupted. repeat split; auto.
    intros (entries & Hall & _). inversion Hall as [|? y ? ? Hi _]; subst.
    destruct Hi as (fee' & Hf & _ & Hv' & _).
    rewrite Hu in Hf. injection Hf as <-. congruence. }
  destruct (ext_ge (Fin q) prev_fee) eqn:Hge; cbn [raise_if bind].
  { right. exists RequestCorrupted. repeat split; auto.
    intros (entries & Hall & Hdec). inversion Hall as [|? y ? ? Hi _]; subst.
    destruct Hi as (fee' & Hf & _ & Hv' & _).
    rewrite Hu in Hf. injection Hf as <-.
    rewrite Hv in Hv'. injection Hv' as Hq'.
    cbn [map decreasing_from] in Hdec. rewrite <- Hq' in Hdec.
    destruct Hdec as [Hd _]. congruence. }
  destruct (IH (Fin q) ltac:(discriminate))
    as [[-> (entries & Hall & Hdec)] | (e & -> & He & Hpairs & Hno)].
  - left. split; [reflexivity|]. exists ((q, size) :: entries). split.
    + constructor; [|exact Hall]. exists fee. cbn [fst snd].
      repeat split; assumption.
    + cbn [map fst decreasing_from]. split; assumption.
  - right. exists e. split; [reflexivity|]. split; [exact He|]. split.
    + intros H. apply Forall_cons in H as [_ H]. auto.
    + intros (entries & Hall & Hdec).
      inversion Hall as [|? y ? rest' Hi Hrest]; subst.
      destruct Hi as (fee' & Hf & _ & Hv' & _).
      rewrite Hu in Hf. injection Hf as <- _.
      rewrite Hv in Hv'. injection Hv' as Hq'.
      cbn [map decreasing_from] in Hdec. rewrite <- Hq' in Hdec.
      apply Hno. exists rest'. split; [exact Hrest | apply Hdec].
Qed.

Lemma check_fee_histogram_cases res :
  (check_fee_histogram res = Ok res /\ histogram_ok res) \/
  (exists e,
     check_fee_histogram res = Raise e /\ histogram_error e /\
     (pairs_only res -> e = RequestCorrupted) /\ ~ histogram_ok res).
Proof.
  unfold check_fee_histogram, histogram_ok, pairs_only.
  destruct res as [| | | |items|d];
    try (right; exists RequestCorrupted; unfold histogram_error;
         repeat split; auto; intros (? & ? & [=] & _)).
  cbn [assert_list_or_tuple list_value bind].
  destruct (check_fee_histogram_loop_cases items PosInf ltac:(discriminate))
    as [[-> (entries & Hall & Hdec)] | (e & -> & He & Hpairs & Hno)];
    cbn [bind].
  - left. split; [reflexivity|]. now exists items, entries.
  - right. exists e. split; [reflexivity|]. split; [exact He|]. split.
    + intros H. apply Hpairs, H. reflexivity.
    + intros (items' & entries & [= <-] & Hall & Hdec). apply Hno.
      now exists entries.
Qed.

(** Along an accepted histogram the fees strictly decrease. *)
Lemma decreasing_from_lookup fees : forall prev_fee i q1 q2,
  decreasing_from prev_fee fees ->
  fees !! i = Some q1 -> fees !! S i = Some q2 -> (q2 < q1)%Q.
Proof.
  induction fees as [|q rest IH]; intros prev_fee i q1 q2 Hdec H1 H2;
    [discriminate|].
  destruct Hdec as [_ Hdec]. destruct i as [|i].
  - cbn in H1. injection H1 as ->. destruct rest as [|q' rest']; [discriminate|].
    cbn in H2. injection H2 as ->. destruct Hdec as [Hd _].
    cbn [ext_ge] in Hd. apply Qnot_le_lt. intros Hle.
    apply Qle_bool_iff in Hle. congruence.
  - exact (IH _ _ _ _ Hdec H1 H2).
Qed.

(** *** The requests *)

Section Interface.

Context {Blockchain : Type}.
Context {World : Type}.

Local Abbreviation State := (@State Blockchain World).
Local Abbreviation M := (@M Blockchain World).

Local Notation "x <~ m ;; k" := (bindM m (fun x => k))
  (at level 100, m at next level, right associativity).
Local Notation "m ;;~ k" := (bindM m (fun _ => k))
  (at level 100, right associativity).

Variable rpc : string -> list pyval -> State -> res pyval * State.

(** [bitcoin.COIN] *)
Variable COIN : Z.


Definition listunspent_for_scripthash (sh : pyval) : M pyval :=
  lift (raise_if (negb (is_hash256_str sh)) Exception_) ;;~
  res <~ send_request rpc "blockchain.scripthash.listunspent" [sh] ;;
  lift (check_listunspent res).

Definition get_balance_for_scripthash (sh : pyval) : M pyval :=
  lift (raise_if (negb (is_hash256_str sh)) Exception_) ;;~
  res <~ send_request rpc "blockchain.scripthash.get_balance" [sh] ;;
  lift (check_balance res).

(** [merkle] is a [bool]; it goes on the wire as JSON [true]/[false]. *)
Definition get_txid_from_txpos (tx_height tx_pos : pyval) (merkle : bool)
  : M pyval :=
  lift (raise_if (negb (is_non_negative_integer tx_height)) Exception_) ;;~
  lift (raise_if (negb (is_non_negative_integer tx_pos)) Exception_) ;;~
  res <~ send_request rpc "blockchain.transaction.id_from_pos"
                      [tx_height; tx_pos; PInt (if merkle then 1 else 0)] ;;
  lift (check_txid_from_txpos merkle res).

(** A request guarded by argument tests and followed by response checks:
    with bad arguments nothing is sent; otherwise the reply is returned
    as it is when the checks accept it. *)
Definition checked_request (args_ok : bool) (method : string)
  (params : list pyval) (check : pyval -> res pyval) : M pyval :=
  lift (raise_if (negb args_ok) Exception_) ;;~
  res <~ send_request rpc method params ;;
  lift (check res).

Lemma checked_request_outcomes args_ok method params check ok st :
  accepts_exactly check ok ->
  let run := checked_request args_ok method params check st in
  (args_ok = false -> run = (Raise Exception_, st)) /\
  (forall res st', run = (Ok res, st') ->
     args_ok = true /\
     rpc method params (sent st) = (Ok res, st') /\ ok res) /\
  (forall reply st1,
     args_ok = true ->
     rpc method params (sent st) = (Ok reply, st1) -> ~ ok reply ->
     run = (Raise RequestCorrupted, st1)).
Proof.
  intros Hcheck run. subst run. unfold checked_request, bindM, lift.
  destruct args_ok; cbn [negb raise_if].
  2:{ split; [reflexivity|]. split; [discriminate|]. discriminate. }
  rewrite send_request_run. split; [discriminate|].
  destruct (rpc method params (sent st)) as [[reply|e] st1]; split;
    try discriminate.
  - intros res st' H. destruct (Hcheck reply) as [[Hc Hok] | [Hc _]];
      rewrite Hc in H; [|discriminate].
    injection H as <- <-. repeat split. exact Hok.
  - intros reply' st1' _ [= <- <-] Hno.
    destruct (Hcheck reply) as [[_ Hok] | [-> _]]; [contradiction|reflexivity].
Qed.


(** X24.  [listunspent_for_scripthash] returns the server's reply
    unchanged, and only when it is a list of dicts that each have
    non-negative int [tx_pos], [value] and [height] and a hash256 hex
    [tx_hash]; every other reply raises [RequestCorrupted], and a bad
    script hash raises before anything is sent. *)
Theorem listunspent_accepts_only_valid sh st :
  let run := listunspent_for_scripthash sh st in
  let request := rpc "blockchain.scripthash.listunspent" [sh] in
  (is_hash256_str sh = false -> run = (Raise Exception_, st)) /\
  (forall res st', run = (Ok res, st') ->
     is_hash256_str sh = true /\ request (sent st) = (Ok res, st') /\
     listunspent_ok res) /\
  (forall reply st1,
     is_hash256_str sh = true -> request (sent st) = (Ok reply, st1) ->
     ~ listunspent_ok reply -> run = (Raise RequestCorrupted, st1)).
Proof.
  intros run request. subst run request.
  exact (checked_request_outcomes (is_hash256_str sh) _ _ _ _ st
           check_listunspent_cases).
Qed.

(** X25.  [get_balance_for_scripthash] returns the server's reply
    unchanged, and only when it is a dict with a non-negative int
    [confirmed] and an int [unconfirmed] (which may be negative); every
    other reply raises [RequestCorrupted]. *)
Theorem get_balance_accepts_only_valid sh st :
  let run := get_balance_for_scripthash sh st in
  let request := rpc "blockchain.scripthash.get_balance" [sh] in
  (is_hash256_str sh = false -> run = (Raise Exception_, st)) /\
  (forall res st', run = (Ok res, st') ->
     is_hash256_str sh = true /\ request (sent st) = (Ok res, st') /\
     balance_ok res) /\
  (forall reply st1,
     is_hash256_str sh = true -> request (sent st) = (Ok reply, st1) ->
     ~ balance_ok reply -> run = (Raise RequestCorrupted, st1)).
Proof.
  intros run request. subst run request.
  exact (checked_request_outcomes (is_hash256_str sh) _ _ _ _ st
           check_balance_cases).
Qed.

(** X26.  [get_txid_from_txpos] returns the server's reply unchanged: with
    [merkle=False] only a hash256 hex string, with [merkle=True] only a
    dict with a hash256 hex [tx_hash] and a [merkle] list of hash256 hex
    strings; every other reply raises [RequestCorrupted], and nothing is
    sent unless [tx_height] and [tx_pos] are non-negative ints. *)
Theorem get_txid_from_txpos_accepts_only_valid tx_height tx_pos merkle st :
  let run := get_txid_from_txpos tx_height tx_pos merkle st in
  let args_ok := is_non_negative_integer tx_height
                 && is_non_negative_integer tx_pos in
  let request := rpc "blockchain.transaction.id_from_pos"
                     [tx_height; tx_pos; PInt (if merkle then 1 else 0)] in
  (args_ok = false -> run = (Raise Exception_, st)) /\
  (forall res st', run = (Ok res, st') ->
     args_ok = true /\ request (sent st) = (Ok res, st') /\
     txid_from_txpos_ok merkle res) /\
  (forall reply st1,
     args_ok = true -> request (sent st) = (Ok reply, st1) ->
     ~ txid_from_txpos_ok merkle reply -> run = (Raise RequestCorrupted, st1)).
Proof.
  intros run args_ok request. subst run args_ok request.
  replace (get_txid_from_txpos tx_height tx_pos merkle st)
    with (checked_request
            (is_non_negative_integer tx_height
             && is_non_negative_integer tx_pos)
            "blockchain.transaction.id_from_pos"
            [tx_height; tx_pos; PInt (if merkle then 1 else 0)]
            (check_txid_from_txpos merkle) st).
  - apply checked_request_outcomes, check_txid_from_txpos_cases.
  - unfold checked_request, get_txid_from_txpos, bindM, lift.
    destruct (is_non_negative_integer tx_height),
      (is_non_negative_integer tx_pos); reflexivity.
Qed.

Definition get_fee_histogram : M pyval :=
  res <~ send_request rpc "mempool.get_fee_histogram" [] ;;
  lift (check_fee_histogram res).

(** X27.  [get_fee_histogram] returns the server's reply unchanged, and
    only when it is a list whose items unpack into a fee and a size, every
    fee a finite non-negative int or float, every size a non-negative int,
    and the fees strictly decreasing from one item to the next (compared
    by exact value; an infinite fee is never accepted).  Any other reply
    raises; the exception is [RequestCorrupted] when all items are
    two-element lists, and may be [TypeError] or [ValueError] when an item
    cannot be unpacked into two values. *)
Theorem get_fee_histogram_accepts_only_decreasing st :
  let run := get_fee_histogram st in
  let request := rpc "mempool.get_fee_histogram" [] in
  (forall res st', run = (Ok res, st') ->
     request (sent st) = (Ok res, st') /\
     exists items entries,
       res = PList items /\ Forall2 entry_ok items entries /\
       forall i q1 q2,
         map fst entries !! i = Some q1 ->
         map fst entries !! S i = Some q2 -> (q2 < q1)%Q) /\
  (forall reply st1,
     request (sent st) = (Ok reply, st1) -> ~ histogram_ok reply ->
     exists e,
       run = (Raise e, st1) /\ histogram_error e /\
       (pairs_only reply -> e = RequestCorrupted)).
Proof.
  intros run request. subst run request.
  unfold get_fee_histogram, bindM, lift. rewrite send_request_run.
  destruct (rpc "mempool.get_fee_histogram" [] (sent st))
    as [[reply|e] st1]; split; try discriminate.
  - intros res st' H.
    destruct (check_fee_histogram_cases reply)
      as [[Hc Hok] | (e & Hc & _)]; rewrite Hc in H; [|discriminate].
    injection H as <- <-. split; [reflexivity|].
    destruct Hok as (items & entries & -> & Hall & Hdec).
    exists items, entries. split; [reflexivity|]. split; [exact Hall|].
    intros i q1 q2. now apply decreasing_from_lookup with (prev_fee := PosInf).
  - intros reply' st1' [= <- <-] Hno.
    destruct (check_fee_histogram_cases reply)
      as [[_ Hok] | (e & -> & He & Hpairs & _)]; [contradiction|].
    exists e. repeat split; assumption.
Qed.

(** [get_relay_fee()] *)
Definition get_relay_fee : M Z :=
  res <~ send_request rpc "blockchain.relayfee" [] ;;
  lift (assert_non_negative_int_or_float res) ;;~
  scaled <~ lift (mul_int res COIN) ;;
  relayfee <~ lift (to_int scaled) ;;
  let relayfee := Z.max 0 relayfee in
  ret relayfee.

Lemma get_relay_fee_run st reply st1 :
  rpc "blockchain.relayfee" [] (sent st) = (Ok reply, st1) ->
  get_relay_fee st
  = (assert_non_negative_int_or_float reply ;;;
     scaled <- mul_int reply COIN ;;
     relayfee <- to_int scaled ;;
     Ok (Z.max 0 relayfee), st1).
Proof.
  intros Hrpc. unfold get_relay_fee, bindM, lift.
  rewrite send_request_run, Hrpc.
  destruct (assert_non_negative_int_or_float reply); [|reflexivity].
  cbn [bind]. destruct (mul_int reply COIN) as [scaled|e]; [|reflexivity].
  cbn [bind]. now destruct (to_int scaled).
Qed.

(** X28.  [get_relay_fee] never returns a negative fee rate, and a
    returned value comes from a reply that is a non-negative int or float.
    A reply that is a negative number, [-1] included, or not a number
    raises [RequestCorrupted]; an int reply [z >= 0] gives
    [max(0, z * COIN)]; and the reply [float('inf')] passes the check but
    raises [OverflowError] in the conversion (for a [COIN] that converts to
    a positive float). *)
Theorem get_relay_fee_outcomes st reply st1 m e :
  rpc "blockchain.relayfee" [] (sent st) = (Ok reply, st1) ->
  float_of_int COIN = Ok (S754_finite false m e) ->
  (forall n st', get_relay_fee st = (Ok n, st') ->
     0 <= n /\ st' = st1 /\ is_non_negative_int_or_float reply = true) /\
  (is_non_negative_int_or_float reply = false ->
   get_relay_fee st = (Raise RequestCorrupted, st1)) /\
  (forall z, reply = PInt z -> 0 <= z ->
   get_relay_fee st = (Ok (Z.max 0 (z * COIN)), st1)) /\
  (reply = PFloat (S754_infinity false) ->
   get_relay_fee st = (Raise OverflowError, st1)).
Proof.
  intros Hrpc Hcoin. rewrite (get_relay_fee_run _ _ _ Hrpc).
  unfold assert_non_negative_int_or_float.
  split; [|split; [|split]].
  - intros n st'.
    destruct (is_non_negative_int_or_float reply); [|discriminate].
    cbn [negb raise_if bind].
    destruct (mul_int reply COIN) as [scaled|e1]; [|discriminate].
    cbn [bind]. destruct (to_int scaled) as [k|e1]; [|discriminate].
    cbn [bind]. intros [= <- <-]. repeat split. lia.
  - intros ->. reflexivity.
  - intros z -> Hz. unfold is_non_negative_int_or_float.
    cbn [is_int_or_float ge0 andb]. replace (0 <=? z) with true by lia.
    reflexivity.
  - intros ->. cbn [is_non_negative_int_or_float is_int_or_float ge0 andb].
    cbn [SFleb SFcompare negb raise_if mul_int]. rewrite Hcoin.
    reflexivity.
Qed.

End Interface.

(** *** Examples *)

Example merkle_accepted :
  check_merkle (PDict [("block_height", PInt 450538);
                       ("merkle", PList [PStr (Toy.txid "a"); PStr (Toy.txid "b")]);
                       ("pos", PInt 710)])
  = Ok (PDict [("block_height", PInt 450538);
               ("merkle", PList [PStr (Toy.txid "a"); PStr (Toy.txid "b")]);
               ("pos", PInt 710)]).
Proof. vm_compute. reflexivity. Qed.

Example balance_negative_unconfirmed :
  check_balance (PDict [("confirmed", PInt 103873966); ("unconfirmed", PInt (-150))])
  = Ok (PDict [("confirmed", PInt 103873966); ("unconfirmed", PInt (-150))]).
Proof. reflexivity. Qed.

Example utxo_without_height :
  check_listunspent
    (PList [PDict [("tx_pos", PInt 0); ("value", PInt 45318048);
                   ("tx_hash", PStr (Toy.txid "a"))]])
  = Raise RequestCorrupted.
Proof. reflexivity. Qed.

Example fee_histogram_accepted :
  check_fee_histogram
    (PList [PList [PInt 12; PInt 128812];
            PList [PFloat (S754_finite false 5 (-1)); PInt 92524];
            PList [PInt 1; PInt 0]])
  = Ok (PList [PList [PInt 12; PInt 128812];
               PList [PFloat (S754_finite false 5 (-1)); PInt 92524];
               PList [PInt 1; PInt 0]]).
Proof. vm_compute. reflexivity. Qed.

Example fee_histogram_equal_fees :
  check_fee_histogram (PList [PList [PInt 2; PInt 10];
                              PList [PFloat (S754_finite false 1 1); PInt 5]])
  = Raise RequestCorrupted.
Proof. vm_compute. reflexivity. Qed.

Example fee_histogram_short_item :
  check_fee_histogram (PList [PList [PInt 2]]) = Raise ValueError.
Proof. reflexivity. Qed.

Example fee_histogram_number_item :
  check_fee_histogram (PList [PInt 2]) = Raise TypeError.
Proof. reflexivity. Qed.

(** A server that answers the relay fee request with [reply]. *)
Definition relay_rpc (reply : pyval) (method : string) (params : list pyval)
  (st : Toy.toy_state) : res pyval * Toy.toy_state :=
  (Ok reply, st).

Lemma get_relay_fee_outcomes_witness :
  get_relay_fee (relay_rpc (PInt 3)) Toy.COIN Toy.initial
  = (Ok (Z.max 0 (3 * Toy.COIN)), sent Toy.initial).
Proof.
  destruct (get_relay_fee_outcomes (relay_rpc (PInt 3)) Toy.COIN Toy.initial
              (PInt 3) (sent Toy.initial) 6710886400000000 (-26)%Z)
    as (_ & _ & Hint & _).
  - reflexivity.
  - vm_compute. reflexivity.
  - apply Hint; [reflexivity | lia].
Defined.

End Requests.
